(** * Companies House sample analysis: director origin and compliance counts

    A shallow embedding of [analysis.py].  The script loads a JSON document
    of sampled companies, classifies every company by whether one of its
    directors is UK resident, counts compliance red flags per group and
    prints proportions with Wald margins of error.

    Modelling choices, all taken from the way the script is written:
    - values produced by [json.load] are the inductive [json]; a Python
      [dict] is an association list in insertion order with distinct keys,
      a [str] is the string of its bytes, a [set] of str is a [gset];
    - Python exceptions are the [Raise] outcome of the [result] monad;
    - Python [int] is [Z]; Python [float] is the kernel's binary64 [float];
    - the [str] methods and library parsers the script calls are the
      interface [Text], with an executable ASCII instance;
    - the two files the script opens are arguments: the lines of the
      variants file and the document that [json.load] returns;
    - the system clock read by [analyze_compliance] is the argument [today];
    - the C library's [pow], where [**] on floats ends and whose results
      IEEE 754 does not fix, is the interface [Libm], with a correctly
      rounded instance for the worked examples;
    - what the script prints is what the model returns. *)

From Stdlib Require Import ZArith String Ascii List Floats Lia Bool.
From stdpp Require Import base gmap strings list pretty sorting.

Set Warnings "-inexact-float,-register-all".
Local Open Scope string_scope.
Local Open Scope Z_scope.

(** ** Exceptions and the result monad *)

Inductive exn : Set :=
| AttributeError
| TypeError
| ValueError
| ZeroDivisionError
| OverflowError.

Inductive result (A : Type) : Type :=
| Ok (a : A)
| Raise (e : exn).
Arguments Ok {A} a.
Arguments Raise {A} e.

Definition bind {A B : Type} (m : result A) (f : A -> result B) : result B :=
  match m with
  | Ok a => f a
  | Raise e => Raise e
  end.

Notation "'let*' x ':=' m 'in' k" := (bind m (fun x => k))
  (at level 10, x name, m at level 100, k at level 200).

(** [for x in l: s = body(s, x)], aborting at the first exception. *)
Fixpoint for_each {S A : Type} (body : S -> A -> result S) (s : S) (l : list A)
  : result S :=
  match l with
  | [] => Ok s
  | x :: l' => let* s' := body s x in for_each body s' l'
  end.

Definition returns {A : Type} (r : result A) : Prop := exists a, r = Ok a.

(** ** JSON values *)

Inductive json : Type :=
| JNull
| JBool (b : bool)
| JInt (n : Z)
| JFloat (x : float)
| JStr (s : string)
| JArr (items : list json)
| JObj (fields : list (string * json)).

Abbreviation dict := (list (string * json)).

(** Python truth value of a loaded JSON value. *)
Definition truthy (v : json) : bool :=
  match v with
  | JNull => false
  | JBool b => b
  | JInt n => negb (n =? 0)
  | JFloat x => negb (x =? 0)%float
  | JStr s => negb (String.eqb s "")
  | JArr items => match items with [] => false | _ => true end
  | JObj fields => match fields with [] => false | _ => true end
  end.

(** Lookup of a key in a dict's fields. *)
Fixpoint assoc (k : string) (fields : dict) : option json :=
  match fields with
  | [] => None
  | (k', v) :: rest => if String.eqb k k' then Some v else assoc k rest
  end.

(** [v.get(k, dflt)]: only a dict has the method. *)
Definition get_default (v : json) (k : string) (dflt : json) : result json :=
  match v with
  | JObj fields => Ok (default dflt (assoc k fields))
  | _ => Raise AttributeError
  end.

(** [v.get(k)]: a missing key gives [None]. *)
Definition get (v : json) (k : string) : result json := get_default v k JNull.

(** [v.values()]: only a dict has the method. *)
Definition values (v : json) : result (list json) :=
  match v with
  | JObj fields => Ok (map snd fields)
  | _ => Raise AttributeError
  end.

(** The items a [for] loop draws from [v]: the elements of a list, the keys
    of a dict, the characters of a str; nothing else loaded from JSON is
    iterable. *)
Definition py_iter (v : json) : result (list json) :=
  match v with
  | JArr items => Ok items
  | JObj fields => Ok (map (fun kv => JStr (fst kv)) fields)
  | JStr s => Ok (map (fun c => JStr (String c EmptyString)) (list_ascii_of_string s))
  | _ => Raise TypeError
  end.

(** [needle in hay] on strings. *)
Fixpoint contains (needle hay : string) : bool :=
  String.prefix needle hay ||
  match hay with
  | EmptyString => false
  | String _ rest => contains needle rest
  end.

(** A byte that continues the UTF-8 encoding of a code point. *)
Definition is_continuation (c : ascii) : bool :=
  let n := Z.of_nat (nat_of_ascii c) in (128 <=? n) && (n <? 192).

(** [len(v)]: the items of a list, the keys of a dict, the code points of a
    str; nothing else loaded from JSON has a length. *)
Definition py_len (v : json) : result Z :=
  match v with
  | JArr items => Ok (Z.of_nat (length items))
  | JObj fields => Ok (Z.of_nat (length fields))
  | JStr s =>
      Ok (Z.of_nat (length (List.filter (fun c => negb (is_continuation c))
                              (list_ascii_of_string s))))
  | _ => Raise TypeError
  end.

(** [a <= b] on str: the order of the code points, which is the order of
    the UTF-8 bytes. *)
Definition str_le (a b : string) : Prop := String.leb a b = true.

#[global] Instance str_le_dec : RelDecision str_le :=
  fun a b => decide (String.leb a b = true).

(** [sorted(countries)] on a set of str. *)
Definition sorted (countries : gset string) : list string :=
  merge_sort str_le (elements countries).

(** ** Calendar dates *)

Record date : Set := Date { year : Z; month : Z; day : Z }.

(** [a < b] on [datetime.date]. *)
Definition date_ltb (a b : date) : bool :=
  (year a <? year b)
  || ((year a =? year b)
      && ((month a <? month b) || ((month a =? month b) && (day a <? day b)))).

(** ** The text interface

    [str.strip], [str.casefold], [str.lower], [repr] and
    [datetime.strptime(_, '%d/%m/%Y').date()] belong to the Python runtime,
    not to the script.  The development is parametric in them and relies on
    these facts only: stripping leaves the empty string empty, case-folding
    gives the empty string for the empty string and for no other, and the
    empty string is not a date. *)

Class Text : Type := {
  strip : string -> string;
  casefold : string -> string;
  lower : string -> string;
  repr : json -> string;
  strptime_dmY : string -> result date;
  strip_empty : strip "" = "";
  casefold_eq_empty : forall s, casefold s = "" <-> s = "";
  strptime_empty : forall d, strptime_dmY "" <> Ok d;
}.

(** [str(v)]. *)
Definition py_str `{Text} (v : json) : string :=
  match v with
  | JStr s => s
  | _ => repr v
  end.

(** ** Python numbers *)

Inductive num : Set :=
| NInt (n : Z)
| NFloat (x : float).

Definition Z2SF (n : Z) : spec_float :=
  match n with
  | Z0 => S754_zero false
  | Zpos m => S754_finite false m 0
  | Zneg m => S754_finite true m 0
  end.

(** [float(n)]: the nearest binary64, or [OverflowError]. *)
Definition float_of_int (n : Z) : result float :=
  let x := SF2Prim (binary_normalize prec emax n 0 false) in
  if is_infinity x then Raise OverflowError else Ok x.

Definition to_float (a : num) : result float :=
  match a with
  | NInt n => float_of_int n
  | NFloat x => Ok x
  end.

(** [a / b] on ints: the correctly rounded quotient. *)
Definition int_truediv (a b : Z) : result float :=
  if b =? 0 then Raise ZeroDivisionError
  else
    let q := SF2Prim (SFdiv prec emax (Z2SF a) (Z2SF b)) in
    if is_infinity q then Raise OverflowError else Ok q.

(** [x / y] on floats. *)
Definition float_truediv (x y : float) : result float :=
  if (y =? 0)%float then Raise ZeroDivisionError else Ok (x / y)%float.

(** [a / b], [a * b] and [a - b] with Python's int/float coercion. *)
Definition truediv (a b : num) : result num :=
  match a, b with
  | NInt m, NInt n => let* q := int_truediv m n in Ok (NFloat q)
  | _, _ =>
      let* x := to_float a in
      let* y := to_float b in
      let* q := float_truediv x y in
      Ok (NFloat q)
  end.

Definition mul (a b : num) : result num :=
  match a, b with
  | NInt m, NInt n => Ok (NInt (m * n))
  | _, _ =>
      let* x := to_float a in
      let* y := to_float b in
      Ok (NFloat (x * y)%float)
  end.

Definition sub (a b : num) : result num :=
  match a, b with
  | NInt m, NInt n => Ok (NInt (m - n))
  | _, _ =>
      let* x := to_float a in
      let* y := to_float b in
      Ok (NFloat (x - y)%float)
  end.

(** [math.sqrt(a)]: a negative argument is a domain error. *)
Definition math_sqrt (a : num) : result float :=
  let* x := to_float a in
  if (x <? 0)%float then Raise ValueError else Ok (sqrt x).

(** [errno] after a call of the C library. *)
Inductive errno : Set := EDOM | ERANGE.

(** The C library's [pow], which the interpreter calls for [**] on floats.
    A library need not round its results correctly, so they differ from
    one platform to the next in the last place.  The script raises to the
    power 2 only: [pow2 x] is the double that [pow(x, 2.0)] returns and
    the [errno] it leaves, if any. *)
Class Libm : Type := {
  pow2 : float -> float * option errno;
}.

(** The interpreter's reading of [errno] after [pow]: an infinite result
    is a range error whether or not the library reported one, and a zero
    result is none. *)
Definition adjust_erange (ix : float) (e : option errno) : option errno :=
  match e with
  | None => if is_infinity ix then Some ERANGE else None
  | Some ERANGE => if (ix =? 0)%float then None else Some ERANGE
  | Some EDOM => Some EDOM
  end.

(** [x ** 2] on floats.  The interpreter settles the special values
    itself: a NaN is returned as it is, an infinity gives the positive
    infinity, a zero gives [0.0], and [1.0] and [-1.0] give [1.0]; every
    other base goes to [pow] with its sign dropped, the exponent being
    even, and a range error of [pow] is an [OverflowError]. *)
Definition float_sq `{Libm} (x : float) : result float :=
  if is_nan x then Ok x
  else if is_infinity x then Ok (abs x)
  else if (x =? 0)%float then Ok 0%float
  else
    let iv := if (x <? 0)%float then (- x)%float else x in
    if (iv =? 1)%float then Ok 1%float
    else
      let '(ix, e) := pow2 iv in
      match adjust_erange ix e with
      | None => Ok ix
      | Some ERANGE => Raise OverflowError
      | Some EDOM => Raise ValueError
      end.

(** [if n] on an int. *)
Definition nonzero (n : Z) : bool := negb (n =? 0).

Definition Z95 : float := 1.96%float.

(** ** Accumulators *)

(** The [counts] dict of [count_companies_by_uk_director_status].  The key
    [total_companies] is added by the last assignment of that function and
    read only afterwards; until then the field holds [0]. *)
Record counts : Set := Counts {
  with_uk : Z;
  without_uk : Z;
  questionable_residence : Z;
  total_directors : Z;
  total_companies : Z;
}.

(** The two keys of [metrics], and of [counts] where it is indexed by
    [group]. *)
Inductive group : Set := WithUk | WithoutUk.

(** [metrics[group]]. *)
Record indicators : Set := Indicators {
  late_confstmt : Z;
  late_accounts : Z;
  default_address : Z;
}.

Record metrics : Set := Metrics {
  of_with_uk : indicators;
  of_without_uk : indicators;
}.

Definition zero_counts : counts := Counts 0 0 0 0 0.
Definition zero_metrics : metrics := Metrics (Indicators 0 0 0) (Indicators 0 0 0).

(** [counts[group]] and [metrics[group]]. *)
Definition counts_at (c : counts) (g : group) : Z :=
  match g with WithUk => with_uk c | WithoutUk => without_uk c end.

Definition metrics_at (m : metrics) (g : group) : indicators :=
  match g with WithUk => of_with_uk m | WithoutUk => of_without_uk m end.

(** [metrics[group] = i]. *)
Definition metrics_set (m : metrics) (g : group) (i : indicators) : metrics :=
  match g with
  | WithUk => Metrics i (of_without_uk m)
  | WithoutUk => Metrics (of_with_uk m) i
  end.

(** The [+= 1] statements of the two passes. *)
Definition incr_total_directors (c : counts) : counts :=
  Counts (with_uk c) (without_uk c) (questionable_residence c)
         (total_directors c + 1) (total_companies c).

Definition incr_questionable_residence (c : counts) : counts :=
  Counts (with_uk c) (without_uk c) (questionable_residence c + 1)
         (total_directors c) (total_companies c).

Definition incr_with_uk (c : counts) : counts :=
  Counts (with_uk c + 1) (without_uk c) (questionable_residence c)
         (total_directors c) (total_companies c).

Definition incr_without_uk (c : counts) : counts :=
  Counts (with_uk c) (without_uk c + 1) (questionable_residence c)
         (total_directors c) (total_companies c).

Definition set_total_companies (c : counts) (n : Z) : counts :=
  Counts (with_uk c) (without_uk c) (questionable_residence c)
         (total_directors c) n.

Definition incr_late_confstmt (m : metrics) (g : group) : metrics :=
  let i := metrics_at m g in
  metrics_set m g (Indicators (late_confstmt i + 1) (late_accounts i) (default_address i)).

Definition incr_late_accounts (m : metrics) (g : group) : metrics :=
  let i := metrics_at m g in
  metrics_set m g (Indicators (late_confstmt i) (late_accounts i + 1) (default_address i)).

Definition incr_default_address (m : metrics) (g : group) : metrics :=
  let i := metrics_at m g in
  metrics_set m g (Indicators (late_confstmt i) (late_accounts i) (default_address i + 1)).

(** ** The passes over the sample *)

Section Analysis.

Context `{Text}.

(** [load_UK_variants], on the lines of the variants file. *)
Definition load_UK_variants (lines : list string) : gset string :=
  let variations_on_uk :=
    map strip (filter (fun line => strip line <> "") lines) in
  list_to_set (map casefold variations_on_uk).

(** [load_sampled_companies], on the document that [json.load] gives. *)
Definition load_sampled_companies (data : json) : result json :=
  get_default data "sampled_companies" (JObj []).

(** [officer.get('country_of_residence') or officer.get('residence_country')]. *)
Definition residence_country_of (officer : json) : result json :=
  let* first := get officer "country_of_residence" in
  if truthy first then Ok first else get officer "residence_country".

(** [officer.get('address', {}).get('country')]. *)
Definition address_country_of (officer : json) : result json :=
  let* address := get_default officer "address" (JObj []) in
  get address "country".

(** The condition [c and c.strip().casefold() in uk_variants]: a falsy [c]
    decides it without calling [strip], which only a str has. *)
Definition names_uk (uk_variants : gset string) (c : json) : result bool :=
  if truthy c then
    match c with
    | JStr s => Ok (bool_decide (casefold (strip s) ∈ uk_variants))
    | _ => Raise AttributeError
    end
  else Ok false.

(** [info.get('directors', [])], as the loop iterates it. *)
Definition directors_of (info : json) : result (list json) :=
  let* directors := get_default info "directors" (JArr []) in
  py_iter directors.

(** *** [extract_director_countries] *)

(** [if c: countries.add(c.strip())]. *)
Definition add_country (countries : gset string) (c : json) : result (gset string) :=
  if truthy c then
    match c with
    | JStr s => Ok ({[ strip s ]} ∪ countries)
    | _ => Raise AttributeError
    end
  else Ok countries.

Definition extract_officer (countries : gset string) (officer : json)
  : result (gset string) :=
  let* country := residence_country_of officer in
  let* address_country := address_country_of officer in
  let* countries := add_country countries country in
  add_country countries address_country.

Definition extract_company (countries : gset string) (info : json)
  : result (gset string) :=
  let* officers := directors_of info in
  for_each extract_officer countries officers.

Definition extract_director_countries (sampled_companies : json)
  : result (gset string) :=
  let* infos := values sampled_companies in
  for_each extract_company ∅ infos.

(** *** [count_companies_by_uk_director_status] *)

(** The body of the loop over a company's directors: the state is the
    local [has_uk] and the [counts] dict. *)
Definition count_officer (uk_variants : gset string)
    (st : bool * counts) (officer : json) : result (bool * counts) :=
  let '(has_uk, c) := st in
  let c := incr_total_directors c in
  let* country := residence_country_of officer in
  let* address_country := address_country_of officer in
  let* resident := names_uk uk_variants country in
  if resident then
    let* addressed := names_uk uk_variants address_country in
    if addressed then Ok (true, c)
    else Ok (has_uk, incr_questionable_residence c)
  else Ok (has_uk, c).

(** The body of the loop over the companies. *)
Definition count_company (uk_variants : gset string) (c : counts) (info : json)
  : result counts :=
  let* officers := directors_of info in
  let* st := for_each (count_officer uk_variants) (false, c) officers in
  let '(has_uk, c) := st in
  Ok (if has_uk then incr_with_uk c else incr_without_uk c).

Definition count_companies_by_uk_director_status
    (sampled_companies : json) (uk_variants : gset string) : result counts :=
  let* infos := values sampled_companies in
  let* c := for_each (count_company uk_variants) zero_counts infos in
  Ok (set_total_companies c (with_uk c + without_uk c)).

(** *** [analyze_compliance] *)

(** The loop that determines the group: it leaves at the first director
    whose residence and address country are both UK. *)
Fixpoint has_uk_director (uk_variants : gset string) (officers : list json)
  : result bool :=
  match officers with
  | [] => Ok false
  | officer :: rest =>
      let* country := residence_country_of officer in
      let* address_country := address_country_of officer in
      let* resident := names_uk uk_variants country in
      let* both :=
        if resident then names_uk uk_variants address_country else Ok false in
      if both then Ok true else has_uk_director uk_variants rest
  end.

(** The group of a company: the loop over its directors. *)
Definition company_has_uk (uk_variants : gset string) (info : json) : result bool :=
  let* officers := directors_of info in
  has_uk_director uk_variants officers.

(** The [try] block around a due date: every exception of the parse is
    swallowed and the counter is left alone. *)
Definition is_late (today : date) (due : string) : bool :=
  match strptime_dmY due with
  | Ok d => date_ltb d today
  | Raise _ => false
  end.

(** ['default address' in s.lower()]. *)
Definition mentions_default (s : string) : bool :=
  contains "default address" (lower s).

(** The loop over the values of one director's address: it leaves at the
    first str value that mentions the default address. *)
Fixpoint flagged_value (vals : list json) : bool :=
  match vals with
  | [] => false
  | val :: rest =>
      match val with
      | JStr s => if mentions_default s then true else flagged_value rest
      | _ => flagged_value rest
      end
  end.

(** The body of the loop over the directors in the [else] branch. *)
Definition flag_officer (g : group) (m : metrics) (officer : json)
  : result metrics :=
  let* address := get_default officer "address" (JObj []) in
  let director_address := if truthy address then address else JObj [] in
  let* vals := values director_address in
  Ok (if flagged_value vals then incr_default_address m g else m).

(** The body of the loop over the companies. *)
Definition analyze_company (uk_variants : gset string) (today : date)
    (m : metrics) (info : json) : result metrics :=
  let* has_uk := company_has_uk uk_variants info in
  let g := if has_uk then WithUk else WithoutUk in
  let* data := get_default info "company_data" (JObj []) in
  let* conf := get_default data "ConfStmtNextDueDate" (JStr "") in
  let conf_due := strip (py_str conf) in
  let m := if is_late today conf_due then incr_late_confstmt m g else m in
  let* acc := get_default data "Accounts.NextDueDate" (JStr "") in
  let acc_due := strip (py_str acc) in
  let m := if is_late today acc_due then incr_late_accounts m g else m in
  let* line1 := get_default data "RegAddress.AddressLine1" (JStr "") in
  let addr := strip (py_str line1) in
  if mentions_default addr then Ok (incr_default_address m g)
  else
    let* officers := directors_of info in
    for_each (flag_officer g) m officers.

Definition analyze_compliance (sampled_companies : json)
    (uk_variants : gset string) (today : date) : result metrics :=
  let* infos := values sampled_companies in
  for_each (analyze_company uk_variants today) zero_metrics infos.

End Analysis.

(** ** The estimators *)

(** [k / n if n else 0]. *)
Definition proportion (k n : Z) : result num :=
  if nonzero n then truediv (NInt k) (NInt n) else Ok (NInt 0).

(** [z95 * math.sqrt(p * (1 - p) / n)]. *)
Definition wald (z95 : float) (p : num) (n : Z) : result float :=
  let* q := sub (NInt 1) p in
  let* v := mul p q in
  let* w := truediv v (NInt n) in
  let* r := math_sqrt w in
  Ok (z95 * r)%float.

(** [Z95 * math.sqrt(p * (1 - p) / n) if n else 0]. *)
Definition margin (p : num) (n : Z) : result num :=
  if nonzero n then let* e := wald Z95 p n in Ok (NFloat e) else Ok (NInt 0).

(** What [count_foreign_and_uk_directors] prints besides the counts. *)
Record director_report : Set := DirectorReport {
  pct_foreign : num;
  moe_foreign : num;
  pct_questionable_residence : num;
  moe_questionable_residence : num;
}.

Definition count_foreign_and_uk_directors `{Text}
    (sampled : json) (uk_variants : gset string)
  : result (counts * director_report) :=
  let* c := count_companies_by_uk_director_status sampled uk_variants in
  let* pf := proportion (without_uk c) (total_companies c) in
  let* mf := margin pf (total_companies c) in
  let* pq := proportion (questionable_residence c) (total_directors c) in
  let* mq := margin pq (total_directors c) in
  Ok (c, DirectorReport pf mf pq mq).

(** One printed line of [display_compliance_indicators]: the count, [p] and
    [moe_metric]. *)
Definition indicator_line (count n : Z) : result (Z * num * num) :=
  let* p := proportion count n in
  let* moe_metric := margin p n in
  Ok (count, p, moe_metric).

Definition display_group (c : counts) (m : metrics) (g : group)
  : result (list (Z * num * num)) :=
  let n := counts_at c g in
  let i := metrics_at m g in
  let* l1 := indicator_line (late_confstmt i) n in
  let* l2 := indicator_line (late_accounts i) n in
  let* l3 := indicator_line (default_address i) n in
  Ok [l1; l2; l3].

Definition display_compliance_indicators (c : counts) (m : metrics)
  : result (list (Z * num * num)) :=
  let* a := display_group c m WithUk in
  let* b := display_group c m WithoutUk in
  Ok (a ++ b)%list.

(** [stats_for_ratio[group]]: the pair of [p] and [moe_p]. *)
Definition stats_for_ratio (z95 : float) (n count : Z) : result (float * float) :=
  let* p := if 0 <? n then int_truediv count n else Ok 0%float in
  let* moe_p :=
    if (0 <? n) && (0 <? p)%float && (p <? 1)%float then wald z95 (NFloat p) n
    else if (0 <? n) && ((p =? 0)%float || (p =? 1)%float) then wald z95 (NFloat p) n
    else Ok 0%float in
  Ok (p, moe_p).

(** The contribution of one side to the squared relative error. *)
Definition rel_err_sq `{Libm} (p moe_p : float) : result float :=
  if (0 <? p)%float && (0 <? moe_p)%float then
    let* r := float_truediv moe_p p in float_sq r
  else Ok 0%float.

Definition moe_of_ratio (ratio rel_err_sq_foreign rel_err_sq_uk : float)
  : result float :=
  if negb (ratio =? 0)%float then
    if (0 <? rel_err_sq_foreign)%float || (0 <? rel_err_sq_uk)%float then
      let* r := math_sqrt (NFloat (rel_err_sq_foreign + rel_err_sq_uk)%float) in
      Ok (abs ratio * r)%float
    else Ok 0%float
  else Ok 0%float.

(** [calculate_and_print_default_address_ratio]: the printed [ratio] and
    [moe_ratio]. *)
Definition calculate_and_print_default_address_ratio `{Libm}
    (c : counts) (m : metrics) (z95 : float) : result (float * float) :=
  let* uk := stats_for_ratio z95 (counts_at c WithUk)
               (default_address (metrics_at m WithUk)) in
  let* foreign := stats_for_ratio z95 (counts_at c WithoutUk)
               (default_address (metrics_at m WithoutUk)) in
  let '(p_uk, moe_p_uk) := uk in
  let '(p_foreign, moe_p_foreign) := foreign in
  let* ratio := float_truediv p_foreign p_uk in
  let* rel_err_sq_foreign := rel_err_sq p_foreign moe_p_foreign in
  let* rel_err_sq_uk := rel_err_sq p_uk moe_p_uk in
  let* moe_ratio := moe_of_ratio ratio rel_err_sq_foreign rel_err_sq_uk in
  Ok (ratio, moe_ratio).

(** What [inspect_countries] prints: the number of countries it announces
    and, in sorted order, the countries that the variant set does not
    cover. *)
Definition inspect_countries `{Text} (sampled : json) (uk_variants : gset string)
  : result (Z * list string) :=
  let* countries := extract_director_countries sampled in
  Ok (Z.of_nat (size countries),
      List.filter (fun c => negb (bool_decide (casefold (strip c) ∈ uk_variants)))
        (sorted countries)).

(** What a run prints. *)
Record report : Set := Report {
  loaded : Z;
  announced_countries : Z;
  foreign_countries : list string;
  company_counts : counts;
  director_rates : director_report;
  indicator_lines : list (Z * num * num);
  default_address_ratio : float * float;
}.

(** [main], on the lines of the variants file, the document loaded from the
    input file and the date of the run. *)
Definition main `{Text} `{Libm} (lines : list string) (data : json) (today : date)
  : result report :=
  let uk_variants := load_UK_variants lines in
  let* sampled := load_sampled_companies data in
  let* n := py_len sampled in
  let* inspected := inspect_countries sampled uk_variants in
  let '(announced, listed) := inspected in
  let* counted := count_foreign_and_uk_directors sampled uk_variants in
  let '(c, rates) := counted in
  let* m := analyze_compliance sampled uk_variants today in
  let* printed := display_compliance_indicators c m in
  let* ratio := calculate_and_print_default_address_ratio c m Z95 in
  Ok (Report n announced listed c rates printed ratio).

(** ** An executable instance of the text interface

    The [str] methods on ASCII text, where lower-casing and case-folding
    coincide, and [strptime] with the format ['%d/%m/%Y'] as the regular
    expression that the runtime builds from it.  [ascii_repr] follows
    Python's [repr] on [None], booleans and ints and on the brackets of
    lists and dicts; it neither escapes the characters of a str nor prints
    the digits of a float.  No statement below depends on [ascii_repr]. *)

Module AsciiText.

Definition code (c : ascii) : Z := Z.of_nat (nat_of_ascii c).

(** [c.isspace()]: tab to carriage return, the four separators, space. *)
Definition is_space (c : ascii) : bool :=
  let n := code c in
  ((9 <=? n) && (n <=? 13)) || ((28 <=? n) && (n <=? 32)).

Fixpoint lstrip (s : string) : string :=
  match s with
  | EmptyString => EmptyString
  | String c rest => if is_space c then lstrip rest else s
  end.

Fixpoint rstrip (s : string) : string :=
  match s with
  | EmptyString => EmptyString
  | String c rest =>
      match rstrip rest with
      | EmptyString => if is_space c then EmptyString else String c EmptyString
      | kept => String c kept
      end
  end.

Definition ascii_strip (s : string) : string := rstrip (lstrip s).

Definition lower_char (c : ascii) : ascii :=
  let n := code c in
  if (65 <=? n) && (n <=? 90) then ascii_of_nat (Z.to_nat (n + 32)) else c.

Fixpoint ascii_lower (s : string) : string :=
  match s with
  | EmptyString => EmptyString
  | String c rest => String (lower_char c) (ascii_lower rest)
  end.

Fixpoint join (sep : string) (parts : list string) : string :=
  match parts with
  | [] => ""
  | [p] => p
  | p :: rest => p ++ sep ++ join sep rest
  end.

Fixpoint ascii_repr (v : json) : string :=
  match v with
  | JNull => "None"
  | JBool true => "True"
  | JBool false => "False"
  | JInt n => pretty n
  | JFloat x => if is_nan x then "nan" else "float"
  | JStr s => "'" ++ s ++ "'"
  | JArr items => "[" ++ join ", " (map ascii_repr items) ++ "]"
  | JObj fields =>
      "{" ++ join ", " (map (fun kv => "'" ++ fst kv ++ "': " ++ ascii_repr (snd kv)) fields) ++ "}"
  end.

(** A decimal digit between [lo] and [hi]. *)
Definition digit_in (lo hi : Z) (c : ascii) : option Z :=
  let n := code c - 48 in
  if (lo <=? n) && (n <=? hi) then Some n else None.

(** The alternatives of [%d], in the order the expression tries them:
    [3[0-1]], [[1-2]\d], [0[1-9]], [[1-9]], [ [1-9]]. *)
Definition match_day (s : string) : list (Z * string) :=
  match s with
  | String a (String b rest) =>
      (if Ascii.eqb a "3" then
         match digit_in 0 1 b with Some y => [(30 + y, rest)] | None => [] end
       else [])
      ++ match digit_in 1 2 a, digit_in 0 9 b with
         | Some x, Some y => [(10 * x + y, rest)]
         | _, _ => []
         end
      ++ (if Ascii.eqb a "0" then
            match digit_in 1 9 b with Some y => [(y, rest)] | None => [] end
          else [])
      ++ match digit_in 1 9 a with Some x => [(x, String b rest)] | None => [] end
      ++ (if Ascii.eqb a " " then
            match digit_in 1 9 b with Some y => [(y, rest)] | None => [] end
          else [])
  | String a EmptyString =>
      match digit_in 1 9 a with Some x => [(x, EmptyString)] | None => [] end
  | EmptyString => []
  end%list.

(** The alternatives of [%m]: [1[0-2]], [0[1-9]], [[1-9]]. *)
Definition match_month (s : string) : list (Z * string) :=
  match s with
  | String a (String b rest) =>
      (if Ascii.eqb a "1" then
         match digit_in 0 2 b with Some y => [(10 + y, rest)] | None => [] end
       else [])
      ++ (if Ascii.eqb a "0" then
            match digit_in 1 9 b with Some y => [(y, rest)] | None => [] end
          else [])
      ++ match digit_in 1 9 a with Some x => [(x, String b rest)] | None => [] end
  | String a EmptyString =>
      match digit_in 1 9 a with Some x => [(x, EmptyString)] | None => [] end
  | EmptyString => []
  end%list.

(** [%Y]: four digits. *)
Definition match_year (s : string) : option (Z * string) :=
  match s with
  | String a (String b (String c (String d rest))) =>
      match digit_in 0 9 a, digit_in 0 9 b, digit_in 0 9 c, digit_in 0 9 d with
      | Some w, Some x, Some y, Some z => Some (1000 * w + 100 * x + 10 * y + z, rest)
      | _, _, _, _ => None
      end
  | _ => None
  end.

(** The literal [/] of the format. *)
Definition slash (s : string) : option string :=
  match s with
  | String c rest => if Ascii.eqb c "/" then Some rest else None
  | EmptyString => None
  end.

(** The first alternative of [alts] after which [k] succeeds. *)
Fixpoint first_match {A B : Type} (alts : list (A * string))
    (k : A -> string -> option B) : option B :=
  match alts with
  | [] => None
  | (a, rest) :: others =>
      match k a rest with
      | Some b => Some b
      | None => first_match others k
      end
  end.

(** The match of the whole expression: the fields and what is left. *)
Definition match_dmY (s : string) : option (Z * Z * Z * string) :=
  first_match (match_day s) (fun d s1 =>
    match slash s1 with
    | None => None
    | Some s2 =>
        first_match (match_month s2) (fun m s3 =>
          match slash s3 with
          | None => None
          | Some s4 =>
              match match_year s4 with
              | Some (y, s5) => Some (d, m, y, s5)
              | None => None
              end
          end)
    end).

Definition is_leap (y : Z) : bool :=
  (y mod 4 =? 0) && (negb (y mod 100 =? 0) || (y mod 400 =? 0)).

Definition days_in_month (y m : Z) : Z :=
  if m =? 2 then (if is_leap y then 29 else 28)
  else if (m =? 4) || (m =? 6) || (m =? 9) || (m =? 11) then 30
  else 31.

(** The parse: no match, text left over, the year 0 and a day the month
    does not have are each a [ValueError]. *)
Definition ascii_strptime (s : string) : result date :=
  match match_dmY s with
  | Some (d, m, y, EmptyString) =>
      if (1 <=? y) && (d <=? days_in_month y m) then Ok (Date y m d)
      else Raise ValueError
  | _ => Raise ValueError
  end.

Lemma ascii_lower_eq_empty s : ascii_lower s = "" <-> s = "".
Proof. destruct s; simpl; split; congruence. Qed.

Lemma ascii_strptime_empty d : ascii_strptime "" <> Ok d.
Proof. discriminate. Qed.

#[global] Instance ascii_text : Text := {|
  strip := ascii_strip;
  casefold := ascii_lower;
  lower := ascii_lower;
  repr := ascii_repr;
  strptime_dmY := ascii_strptime;
  strip_empty := eq_refl;
  casefold_eq_empty := ascii_lower_eq_empty;
  strptime_empty := ascii_strptime_empty;
|}.

End AsciiText.

(** ** Vocabulary of the properties *)

(** The group that is not [g]. *)
Definition other (g : group) : group :=
  match g with WithUk => WithoutUk | WithoutUk => WithUk end.

(** [del fields[k]]. *)
Definition remove_key (k : string) (fields : dict) : dict :=
  List.filter (fun kv => negb (String.eqb k (fst kv))) fields.

(** [a < b] on dates, as the order of the triples (year, month, day). *)
Definition date_lt (a b : date) : Prop :=
  year a < year b
  \/ (year a = year b
      /\ (month a < month b \/ (month a = month b /\ day a < day b))).

(** A float that is not below zero: a zero, a positive number or
    infinity, or not a number. *)
Definition not_negative (x : spec_float) : Prop :=
  match x with
  | S754_nan | S754_zero _ => True
  | S754_infinity s | S754_finite s _ _ => s = false
  end.

(** The float [1.0]. *)
Definition sf_one : spec_float := S754_finite false 4503599627370496 (-52).

(** The outcome is not a division by zero. *)
Definition no_zero_division {A : Type} (r : result A) : Prop :=
  r <> Raise ZeroDivisionError.

(** From the specification: the squared relative error of one side is
    [(moe_p / p)²], the quotient raised to the power 2 as the interpreter
    does it, when [p > 0] and [moe_p > 0], and [0] otherwise. *)
Definition is_rel_err_sq `{Libm} (p moe_p term : float) : Prop :=
  ((0 <? p)%float && (0 <? moe_p)%float = true ->
   float_sq (moe_p / p) = Ok term)
  /\ ((0 <? p)%float && (0 <? moe_p)%float = false -> term = 0%float).

(** An optional string field of a record: missing, null or a str. *)
Definition optional_str (o : option json) : Prop :=
  match o with
  | None | Some JNull | Some (JStr _) => True
  | Some _ => False
  end.

(** The sum of the weights [w] of the items of [l]. *)
Definition sum_over {A : Type} (w : A -> Z) (l : list A) : Z :=
  fold_right Z.add 0 (map w l).

(** The exceptions of a failed lookup: a method that the value does not
    have, or a value that cannot be iterated. *)
Definition lookup_error (e : exn) : Prop := e = AttributeError \/ e = TypeError.

(** The outcome is a result or a lookup error. *)
Definition raises_only_lookup_errors {A : Type} (r : result A) : Prop :=
  forall e, r = Raise e -> lookup_error e.

Section Vocabulary.

Context `{Text}.

(** The value of a key of [company_data], with the default of the [get]. *)
Definition field_of (data : json) (k : string) : json :=
  match data with
  | JObj fields => default (JStr "") (assoc k fields)
  | _ => JStr ""
  end.

(** From the specification: the address mapping of the director has a
    string-valued field that contains "default address". *)
Definition has_default_address (officer : json) : bool :=
  match get_default officer "address" (JObj []) with
  | Ok address =>
      match values (if truthy address then address else JObj []) with
      | Ok vals => flagged_value vals
      | Raise _ => false
      end
  | Raise _ => false
  end.

(** A country value as the data model has it: absent (or otherwise falsy),
    or a string. *)
Definition country_like (v : json) : Prop :=
  truthy v = false \/ exists s, v = JStr s.

(** A director record: a mapping whose residence country and whose address
    country (in a mapping under [address], when there is one) are country
    values. *)
Definition wf_officer (officer : json) : Prop :=
  exists r a,
    residence_country_of officer = Ok r /\ country_like r
    /\ address_country_of officer = Ok a /\ country_like a.

(** A company record: a mapping with a list of director records and a
    mapping of company data, each possibly missing. *)
Definition wf_company (info : json) : Prop :=
  exists officers fields,
    directors_of info = Ok officers
    /\ Forall wf_officer officers
    /\ get_default info "company_data" (JObj []) = Ok (JObj fields).

Variable uk_variants : gset string.

(** From the specification: [v] is a country that is present and, trimmed
    and case-folded, a member of the UK variant set. *)
Definition is_uk_country (v : json) : bool :=
  match v with
  | JStr s => negb (String.eqb s "") && bool_decide (casefold (strip s) ∈ uk_variants)
  | _ => false
  end.

(** From the specification: the address country is absent, or is a country
    that is not a member. *)
Definition absent_or_not_uk (v : json) : bool :=
  negb (truthy v)
  || match v with
     | JStr t => negb (bool_decide (casefold (strip t) ∈ uk_variants))
     | _ => false
     end.

(** From the specification: the resolved residence country is a member of
    the UK variant set and the address country is absent or not a member. *)
Definition questionable (officer : json) : bool :=
  match residence_country_of officer, address_country_of officer with
  | Ok r, Ok a => is_uk_country r && absent_or_not_uk a
  | _, _ => false
  end.

(** From the specification: [analyze_compliance] files the company under
    the group [g]. *)
Definition in_group (g : group) (info : json) : bool :=
  match company_has_uk uk_variants info, g with
  | Ok true, WithUk => true
  | Ok false, WithoutUk => true
  | _, _ => false
  end.

(** The directors the loops of a company iterate over. *)
Definition directors_list (info : json) : list json :=
  match directors_of info with
  | Ok officers => officers
  | Raise _ => []
  end.

(** The director gives the country [s]: [s] is its resolved residence
    country or its address country, and is not empty. *)
Definition gives_country (officer : json) (s : string) : Prop :=
  (residence_country_of officer = Ok (JStr s)
   \/ address_country_of officer = Ok (JStr s))
  /\ s <> "".

(** The directors of the company can be iterated and are director
    records. *)
Definition readable_directors (info : json) : Prop :=
  exists officers, directors_of info = Ok officers /\ Forall wf_officer officers.

(** The company data of the record is a mapping, or missing. *)
Definition has_company_data (info : json) : Prop :=
  exists fields, get_default info "company_data" (JObj []) = Ok (JObj fields).

(** The resolved residence country and the address country of the director
    are both members of the UK variant set. *)
Definition uk_director (officer : json) : bool :=
  match residence_country_of officer, address_country_of officer with
  | Ok r, Ok a => is_uk_country r && is_uk_country a
  | _, _ => false
  end.

(** The company data that [analyze_compliance] reads from the record. *)
Definition company_data_of (info : json) : json :=
  match get_default info "company_data" (JObj []) with
  | Ok data => data
  | Raise _ => JObj []
  end.

(** The due date under [key] parses as a date before [today]. *)
Definition due_late (today : date) (key : string) (info : json) : bool :=
  is_late today (strip (py_str (field_of (company_data_of info) key))).

(** The first line of the registered address mentions the default
    address. *)
Definition registered_default (info : json) : bool :=
  mentions_default
    (strip (py_str (field_of (company_data_of info) "RegAddress.AddressLine1"))).

(** What a company adds to [default_address]: 1 for its registered address,
    or else 1 for each of its directors with a default address. *)
Definition default_address_weight (info : json) : Z :=
  if registered_default info then 1
  else Z.of_nat (length (List.filter has_default_address (directors_list info))).

End Vocabulary.

(** ** A sample for the worked examples *)

Module Sample.

Import AsciiText.

Definition nl : string := String (ascii_of_nat 10) "".

(** The variants file: three names and a blank line. *)
Definition uk_lines : list string :=
  ["United Kingdom" ++ nl; nl; "  England" ++ nl; "UK"].

Definition uk_sample : gset string := load_UK_variants uk_lines.

Definition officer_uk : json :=
  JObj [("country_of_residence", JStr "UNITED KINGDOM");
        ("address", JObj [("country", JStr " united kingdom ")])].

Definition officer_fr : json :=
  JObj [("country_of_residence", JStr "United Kingdom");
        ("address", JObj [("country", JStr "France")])].

Definition officer_blank : dict :=
  [("country_of_residence", JStr "");
   ("residence_country", JStr "England");
   ("address", JObj [("country", JStr "UK")])].

Definition officer_default : json :=
  JObj [("address", JObj [("address_line_1", JStr "3 Default address Road");
                          ("country", JStr "Wales")])].

Definition company_late : json :=
  JObj [("directors", JArr [officer_uk; officer_fr]);
        ("company_data",
         JObj [("ConfStmtNextDueDate", JStr "01/01/2000");
               ("Accounts.NextDueDate", JStr "N/A");
               ("RegAddress.AddressLine1", JStr "Default Address, Cardiff")])].

Definition company_fr : json :=
  JObj [("directors", JArr [officer_fr]);
        ("company_data", JObj [("ConfStmtNextDueDate", JStr "01/01/2099")])].

Definition company_two_defaults : json :=
  JObj [("directors", JArr [officer_default; officer_default]);
        ("company_data", JObj [("RegAddress.AddressLine1", JStr "1 High Street")])].

Definition sampled : json :=
  JObj [("00000001", company_late); ("00000002", company_fr)].

Definition sampled_defaults : json := JObj [("00000003", company_two_defaults)].

Definition sampled_foreign : json := JObj [("00000002", company_fr)].

Definition today : date := Date 2025 6 1.

(** The input file that holds a sample. *)
Definition document (sampled_companies : json) : json :=
  JObj [("sampled_companies", sampled_companies)].

(** What the two passes return on [sampled] with [uk_sample] at [today]. *)
Definition sampled_counts : counts := Counts 1 1 2 3 2.

Definition sampled_metrics : metrics :=
  Metrics (Indicators 1 0 1) (Indicators 0 0 0).

(** A variants file of blank lines. *)
Definition blank_lines : list string := [nl; "  " ++ nl].

(** A director whose address is null. *)
Definition officer_null_address : dict :=
  [("country_of_residence", JStr "France"); ("address", JNull)].

Definition sampled_null_address : json :=
  JObj [("00000004", JObj [("directors", JArr [JObj officer_null_address])])].

End Sample.

(** * Properties *)

(** ** The result monad and the loop combinator *)

Lemma bind_Ok {A B : Type} (m : result A) (f : A -> result B) (b : B) :
  bind m f = Ok b -> exists a, m = Ok a /\ f a = Ok b.
Proof. destruct m as [a|e]; simpl; [eauto | discriminate]. Qed.

Lemma bind_Raise {A B : Type} (m : result A) (f : A -> result B) (e : exn) :
  bind m f = Raise e -> m = Raise e \/ exists a, m = Ok a /\ f a = Raise e.
Proof. destruct m as [a|e']; simpl; [eauto | intros [= ->]; auto]. Qed.

(** Splits an equation [let* x := m in k = Ok b] into its two steps. *)
Ltac bind_inv H :=
  let a := fresh "a" in
  let E := fresh "E" in
  apply bind_Ok in H; destruct H as (a & E & H).

(** Runs one step whose outcome [E] records. *)
Ltac step E := rewrite E; cbn [bind].

(** An invariant kept by each successful round holds after the loop. *)
Lemma for_each_invariant {S A : Type} (P : S -> Prop)
    (body : S -> A -> result S) (l : list A) :
  (forall s x s', P s -> body s x = Ok s' -> P s') ->
  forall s s', P s -> for_each body s l = Ok s' -> P s'.
Proof.
  intros Hstep. induction l as [|x l IH]; intros s s' Hs Hrun; simpl in Hrun.
  - injection Hrun as <-. exact Hs.
  - bind_inv Hrun. eapply IH; [|exact Hrun]. eapply Hstep; eauto.
Qed.

(** A measure that each successful round advances by the weight of its
    item advances over the loop by the sum of the weights. *)
Lemma for_each_sum {S A : Type} (mu : S -> Z) (w : A -> Z)
    (body : S -> A -> result S) (l : list A) :
  (forall s x s', body s x = Ok s' -> mu s' = mu s + w x) ->
  forall s s', for_each body s l = Ok s' ->
    mu s' = mu s + fold_right Z.add 0 (map w l).
Proof.
  intros Hstep. induction l as [|x l IH]; intros s s' Hrun; simpl in Hrun.
  - injection Hrun as <-. simpl. lia.
  - bind_inv Hrun. apply IH in Hrun. apply Hstep in E. simpl. lia.
Qed.

(** When the loop returns, the round of every item has returned. *)
Lemma for_each_each {S A : Type} (body : S -> A -> result S) (l : list A) :
  forall s s', for_each body s l = Ok s' ->
  Forall (fun x => exists s1 s2, body s1 x = Ok s2) l.
Proof.
  induction l as [|x l IH]; intros s s' Hrun; simpl in Hrun; constructor.
  - bind_inv Hrun. eauto.
  - bind_inv Hrun. eauto.
Qed.

(** A loop whose rounds all return returns. *)
Lemma for_each_returns {S A : Type} (body : S -> A -> result S) (l : list A) :
  (forall s x, In x l -> returns (body s x)) ->
  forall s, returns (for_each body s l).
Proof.
  induction l as [|x l IH]; intros Hall s; simpl.
  - now exists s.
  - destruct (Hall s x) as [s' ->]; [now left|]. simpl.
    apply IH. intros s0 y Hy. apply Hall. now right.
Qed.

Lemma sum_of_ones {A : Type} (l : list A) :
  fold_right Z.add 0 (map (fun _ => 1) l) = Z.of_nat (length l).
Proof. induction l as [|x l IH]; simpl length; simpl fold_right; lia. Qed.

Lemma sum_of_flags {A : Type} (f : A -> bool) (l : list A) :
  fold_right Z.add 0 (map (fun x => if f x then 1 else 0) l)
  = Z.of_nat (length (List.filter f l)).
Proof.
  induction l as [|x l IH]; [reflexivity|].
  cbn [map fold_right List.filter]. rewrite IH.
  destruct (f x); cbn [length]; lia.
Qed.

Lemma sum_of_lengths {A B : Type} (g : A -> list B) (f : B -> bool) (l : list A) :
  fold_right Z.add 0 (map (fun x => Z.of_nat (length (List.filter f (g x)))) l)
  = Z.of_nat (length (List.filter f (flat_map g l))).
Proof.
  induction l as [|x l IH]; [reflexivity|].
  cbn [map fold_right flat_map]. rewrite IH.
  rewrite List.filter_app, length_app. lia.
Qed.

Lemma sum_of_all_lengths {A B : Type} (g : A -> list B) (l : list A) :
  fold_right Z.add 0 (map (fun x => Z.of_nat (length (g x))) l)
  = Z.of_nat (length (flat_map g l)).
Proof.
  induction l as [|x l IH]; [reflexivity|].
  cbn [map fold_right flat_map]. rewrite IH, length_app. lia.
Qed.

Section Passes.

Context `{Text}.

Variable uk_variants : gset string.

(** ** The counting pass *)

(** A director moves neither company counter and is counted once. *)
Lemma count_officer_counters has_uk c officer has_uk' c' :
  count_officer uk_variants (has_uk, c) officer = Ok (has_uk', c') ->
  with_uk c' = with_uk c /\ without_uk c' = without_uk c
  /\ total_directors c' = total_directors c + 1.
Proof.
  unfold count_officer. intros Hrun.
  bind_inv Hrun. bind_inv Hrun. bind_inv Hrun.
  destruct a1.
  - bind_inv Hrun. destruct a1; injection Hrun as <- <-; simpl; auto.
  - injection Hrun as <- <-; simpl; auto.
Qed.

Lemma count_officers_counters officers : forall has_uk c has_uk' c',
  for_each (count_officer uk_variants) (has_uk, c) officers = Ok (has_uk', c') ->
  with_uk c' = with_uk c /\ without_uk c' = without_uk c.
Proof.
  intros has_uk c has_uk' c' Hrun.
  apply (for_each_invariant
           (fun st => with_uk (snd st) = with_uk c /\ without_uk (snd st) = without_uk c)
           _ _) with (s' := (has_uk', c')) (s := (has_uk, c)) in Hrun; auto.
  intros [b d] x [b' d'] [Hw Hwo] Hstep. simpl in *.
  apply count_officer_counters in Hstep. lia.
Qed.

(** A company adds one to exactly one of the two company counters. *)
Lemma count_company_adds_one c info c' :
  count_company uk_variants c info = Ok c' ->
  with_uk c' + without_uk c' = with_uk c + without_uk c + 1.
Proof.
  unfold count_company. intros Hrun.
  bind_inv Hrun. bind_inv Hrun. destruct a0 as [has_uk d].
  apply count_officers_counters in E0. destruct E0 as [Hw Hwo].
  injection Hrun as <-. destruct has_uk; simpl; lia.
Qed.

(** C8: the counts that [count_companies_by_uk_director_status] returns
    satisfy [total_companies = with_uk + without_uk], and that sum is the
    number of companies of the sample. *)
Theorem total_companies_is_sum_of_groups sampled_companies c :
  count_companies_by_uk_director_status sampled_companies uk_variants = Ok c ->
  total_companies c = with_uk c + without_uk c
  /\ exists infos, values sampled_companies = Ok infos
       /\ with_uk c + without_uk c = Z.of_nat (length infos).
Proof.
  unfold count_companies_by_uk_director_status. intros Hrun.
  bind_inv Hrun. bind_inv Hrun. injection Hrun as <-. simpl.
  split; [reflexivity|]. exists a. split; [assumption|].
  pose proof (for_each_sum (fun d => with_uk d + without_uk d) (fun _ => 1)
                (count_company uk_variants) a) as Hsum.
  rewrite (Hsum count_company_adds_one _ _ E0), sum_of_ones. reflexivity.
Qed.

(** ** The two classifiers *)

(** The full scan ends with [has_uk] set exactly when it was set before or
    the short-circuit loop finds a UK director. *)
Lemma full_scan_has_uk officers : forall has_uk c has_uk' c',
  for_each (count_officer uk_variants) (has_uk, c) officers = Ok (has_uk', c') ->
  exists found, has_uk_director uk_variants officers = Ok found
                /\ has_uk' = has_uk || found.
Proof.
  induction officers as [|officer rest IH]; intros has_uk c has_uk' c' Hrun;
    simpl in Hrun.
  - injection Hrun as <- <-. exists false. now rewrite orb_false_r.
  - bind_inv Hrun. destruct a as [b1 c1].
    apply IH in Hrun. destruct Hrun as (found & Hrest & ->).
    unfold count_officer in E.
    bind_inv E. bind_inv E. bind_inv E. cbn [has_uk_director].
    step E0. step E1. step E2. destruct a1.
    + bind_inv E. step E3. destruct a1; injection E as <- _.
      * exists true. now rewrite orb_true_r.
      * exists found. now rewrite Hrest.
    + injection E as <- _. cbn [bind]. exists found. now rewrite Hrest.
Qed.

(** When the short-circuit loop finds no UK director it has looked at every
    director, and the full scan returns as well. *)
Lemma short_circuit_false_full_scan officers : forall has_uk c,
  has_uk_director uk_variants officers = Ok false ->
  exists c', for_each (count_officer uk_variants) (has_uk, c) officers
             = Ok (has_uk, c').
Proof.
  induction officers as [|officer rest IH]; intros has_uk c Hshort;
    cbn [has_uk_director for_each] in Hshort |- *.
  - eauto.
  - bind_inv Hshort. bind_inv Hshort. bind_inv Hshort. bind_inv Hshort.
    destruct a2; [discriminate|].
    unfold count_officer at 1. step E. step E0. step E1.
    destruct a1.
    + step E2. now apply IH.
    + cbn [bind]. now apply IH.
Qed.

Lemma metrics_at_set_other m g i :
  metrics_at (metrics_set m g i) (other g) = metrics_at m (other g).
Proof. now destruct g. Qed.

Lemma metrics_at_set_same m g i : metrics_at (metrics_set m g i) g = i.
Proof. now destruct g. Qed.

Lemma flag_officer_other g m officer m' :
  flag_officer g m officer = Ok m' ->
  metrics_at m' (other g) = metrics_at m (other g).
Proof.
  unfold flag_officer. intros Hrun. bind_inv Hrun. bind_inv Hrun.
  injection Hrun as <-. destruct (flagged_value a0); [|reflexivity].
  apply metrics_at_set_other.
Qed.

Lemma flag_officers_other g officers : forall m m',
  for_each (flag_officer g) m officers = Ok m' ->
  metrics_at m' (other g) = metrics_at m (other g).
Proof.
  intros m m'.
  apply (for_each_invariant
           (fun s => metrics_at s (other g) = metrics_at m (other g))); [|reflexivity].
  intros s x s' Hs Hstep. apply flag_officer_other in Hstep. congruence.
Qed.

(** Closes the goals on the three counters after the late-filing steps. *)
Ltac late_cases :=
  repeat match goal with
         | |- context [is_late ?t ?d] => destruct (is_late t d)
         end.

(** [analyze_compliance] files a company under the group that the
    short-circuit loop computes, and leaves the other group alone. *)
Lemma analyze_company_group today m info m' :
  analyze_company uk_variants today m info = Ok m' ->
  exists has_uk,
    company_has_uk uk_variants info = Ok has_uk
    /\ let g := if has_uk then WithUk else WithoutUk in
       metrics_at m' (other g) = metrics_at m (other g).
Proof.
  unfold analyze_company. intros Hrun.
  bind_inv Hrun. exists a. split; [assumption|]. cbv zeta.
  set (g := if a then WithUk else WithoutUk) in *.
  bind_inv Hrun. bind_inv Hrun. bind_inv Hrun. bind_inv Hrun.
  match type of Hrun with
  | (if ?b then _ else _) = _ => destruct b
  end.
  - injection Hrun as <-. unfold incr_default_address.
    rewrite metrics_at_set_other.
    late_cases; unfold incr_late_accounts, incr_late_confstmt;
      now rewrite ?metrics_at_set_other.
  - bind_inv Hrun. apply flag_officers_other in Hrun. rewrite Hrun.
    late_cases; unfold incr_late_accounts, incr_late_confstmt;
      now rewrite ?metrics_at_set_other.
Qed.

(** What the counting pass adds for one company. *)
Lemma count_company_group info c c' :
  count_company uk_variants c info = Ok c' ->
  exists has_uk,
    company_has_uk uk_variants info = Ok has_uk
    /\ let g := if has_uk then WithUk else WithoutUk in
       counts_at c' g = counts_at c g + 1
       /\ counts_at c' (other g) = counts_at c (other g).
Proof.
  unfold count_company, company_has_uk. intros Hrun.
  bind_inv Hrun. bind_inv Hrun. destruct a0 as [has_uk d].
  injection Hrun as <-.
  pose proof (count_officers_counters _ _ _ _ _ E0) as [Hw Hwo].
  apply full_scan_has_uk in E0. destruct E0 as (found & Hshort & ->).
  simpl in Hshort |- *. exists found. step E. split; [assumption|].
  destruct found; simpl; lia.
Qed.

Lemma count_company_in_group g c info c' :
  count_company uk_variants c info = Ok c' ->
  counts_at c' g = counts_at c g + (if in_group uk_variants g info then 1 else 0).
Proof.
  intros Hrun. apply count_company_group in Hrun.
  destruct Hrun as (has_uk & Hshort & Hsame & Hother). unfold in_group.
  rewrite Hshort. destruct has_uk, g; simpl in *; lia.
Qed.

(** C3: whenever the counting pass returns on a company, the classifier of
    [analyze_compliance] returns the same has-UK-director outcome: the
    company is counted under the group that [analyze_compliance] files it
    under, and neither pass touches the other group.  Over a sample, the
    two company counts are the numbers of companies that
    [analyze_compliance] files under each group. *)
Theorem both_passes_assign_same_group :
  (forall info c c',
     count_company uk_variants c info = Ok c' ->
     exists has_uk,
       company_has_uk uk_variants info = Ok has_uk
       /\ let g := if has_uk then WithUk else WithoutUk in
          counts_at c' g = counts_at c g + 1
          /\ counts_at c' (other g) = counts_at c (other g)
          /\ forall today m m',
               analyze_company uk_variants today m info = Ok m' ->
               metrics_at m' (other g) = metrics_at m (other g))
  /\ (forall sampled_companies c,
        count_companies_by_uk_director_status sampled_companies uk_variants = Ok c ->
        exists infos,
          values sampled_companies = Ok infos
          /\ Forall (fun info => returns (company_has_uk uk_variants info)) infos
          /\ forall g,
               counts_at c g
               = Z.of_nat (length (List.filter (in_group uk_variants g) infos))).
Proof.
  split.
  - intros info c c' Hrun. apply count_company_group in Hrun.
    destruct Hrun as (has_uk & Hshort & Hsame & Hother).
    exists has_uk. do 3 (split; [assumption|]).
    intros today m m' Hrun. apply analyze_company_group in Hrun.
    destruct Hrun as (has_uk' & Hshort' & Hm).
    rewrite Hshort in Hshort'. now injection Hshort' as <-.
  - intros sampled_companies c.
    unfold count_companies_by_uk_director_status. intros Hrun.
    bind_inv Hrun. bind_inv Hrun. injection Hrun as <-.
    exists a. split; [assumption|]. split.
    + apply (for_each_each (count_company uk_variants)) in E0.
      apply List.Forall_forall. intros info Hin.
      destruct (proj1 (List.Forall_forall _ _) E0 info Hin) as (c1 & c2 & Hstep).
      apply count_company_group in Hstep. destruct Hstep as (has_uk & -> & _).
      now eexists.
    + intros g.
      apply (for_each_sum (fun d => counts_at d g) _ _ _
               (count_company_in_group g)) in E0.
      rewrite sum_of_flags in E0. destruct g; simpl in *; lia.
Qed.

(** ** Questionable residence *)

Lemma names_uk_Ok v b : names_uk uk_variants v = Ok b -> b = is_uk_country uk_variants v.
Proof.
  unfold names_uk, is_uk_country.
  destruct v; simpl; try (destruct (negb _); congruence); try congruence.
  - destruct b0; congruence.
  - destruct (String.eqb s ""); simpl; congruence.
  - destruct items; congruence.
  - destruct fields; congruence.
Qed.

Lemma names_uk_false v :
  names_uk uk_variants v = Ok false -> absent_or_not_uk uk_variants v = true.
Proof.
  unfold names_uk, absent_or_not_uk.
  destruct (truthy v) eqn:Ht; simpl; [|reflexivity].
  destruct v; try discriminate. intros [= ->]. reflexivity.
Qed.

Lemma names_uk_true v :
  names_uk uk_variants v = Ok true -> absent_or_not_uk uk_variants v = false.
Proof.
  unfold names_uk, absent_or_not_uk.
  destruct (truthy v) eqn:Ht; simpl; [|discriminate].
  destruct v; try discriminate. intros [= ->]. reflexivity.
Qed.

Lemma absent_or_not_uk_names v :
  absent_or_not_uk uk_variants v = true -> names_uk uk_variants v = Ok false.
Proof.
  unfold names_uk, absent_or_not_uk.
  destruct (truthy v) eqn:Ht; simpl; [|reflexivity].
  destruct v; try discriminate. now intros ->%negb_true_iff.
Qed.

Lemma is_uk_country_names v :
  is_uk_country uk_variants v = true -> names_uk uk_variants v = Ok true.
Proof.
  unfold names_uk, is_uk_country. destruct v; try discriminate.
  intros [Hs ->]%andb_true_iff. simpl. now rewrite Hs.
Qed.

(** A director adds to [questionable_residence] exactly when the claim's
    condition holds. *)
Lemma count_officer_questionable st officer st' :
  count_officer uk_variants st officer = Ok st' ->
  questionable_residence (snd st')
  = questionable_residence (snd st) + (if questionable uk_variants officer then 1 else 0).
Proof.
  destruct st as [has_uk c], st' as [has_uk' c'].
  unfold count_officer, questionable. intros Hrun.
  bind_inv Hrun. bind_inv Hrun. bind_inv Hrun. rewrite E, E0.
  rewrite <- (names_uk_Ok _ _ E1). destruct a1.
  - bind_inv Hrun. destruct a1; injection Hrun as <- <-; simpl.
    + rewrite (names_uk_true _ E2). lia.
    + rewrite (names_uk_false _ E2). lia.
  - injection Hrun as <- <-; simpl. lia.
Qed.

Lemma count_officer_total st officer st' :
  count_officer uk_variants st officer = Ok st' ->
  total_directors (snd st') = total_directors (snd st) + 1.
Proof.
  destruct st as [has_uk c], st' as [has_uk' c']. intros Hrun.
  apply count_officer_counters in Hrun. simpl. lia.
Qed.

Lemma count_company_questionable c info c' :
  count_company uk_variants c info = Ok c' ->
  questionable_residence c'
  = questionable_residence c
    + Z.of_nat (length (List.filter (questionable uk_variants) (directors_list info))).
Proof.
  unfold count_company, directors_list. intros Hrun.
  bind_inv Hrun. rewrite E. bind_inv Hrun. destruct a0 as [has_uk d].
  apply (for_each_sum (fun st => questionable_residence (snd st)) _ _ _
           count_officer_questionable) in E0.
  rewrite sum_of_flags in E0. simpl in E0.
  injection Hrun as <-. destruct has_uk; simpl; lia.
Qed.

Lemma count_company_total c info c' :
  count_company uk_variants c info = Ok c' ->
  total_directors c'
  = total_directors c + Z.of_nat (length (directors_list info)).
Proof.
  unfold count_company, directors_list. intros Hrun.
  bind_inv Hrun. rewrite E. bind_inv Hrun. destruct a0 as [has_uk d].
  apply (for_each_sum (fun st => total_directors (snd st)) _ _ _
           count_officer_total) in E0.
  rewrite sum_of_ones in E0. simpl in E0.
  injection Hrun as <-. destruct has_uk; simpl; lia.
Qed.

(** C4: a director whose resolved residence country is a member of the UK
    variant set, and whose address country is absent or not a member, adds
    exactly 1 to [questionable_residence] and leaves [has_uk] as it was; the
    counter returned for a sample is the number of such director
    occurrences over all companies, with no deduplication; a company whose
    only director is of that kind is counted under [without_uk] and adds
    exactly 1. *)
Theorem questionable_residence_per_director :
  (forall officer has_uk c,
     questionable uk_variants officer = true ->
     count_officer uk_variants (has_uk, c) officer
     = Ok (has_uk, incr_questionable_residence (incr_total_directors c)))
  /\ (forall sampled_companies c,
        count_companies_by_uk_director_status sampled_companies uk_variants = Ok c ->
        exists infos,
          values sampled_companies = Ok infos
          /\ questionable_residence c
             = Z.of_nat (length (List.filter (questionable uk_variants) (flat_map directors_list infos)))
          /\ total_directors c
             = Z.of_nat (length (flat_map directors_list infos)))
  /\ (forall info officer c,
        directors_of info = Ok [officer] ->
        questionable uk_variants officer = true ->
        count_company uk_variants c info
        = Ok (incr_without_uk (incr_questionable_residence (incr_total_directors c)))).
Proof.
  assert (Hone : forall officer has_uk c,
     questionable uk_variants officer = true ->
     count_officer uk_variants (has_uk, c) officer
     = Ok (has_uk, incr_questionable_residence (incr_total_directors c))).
  { intros officer has_uk c. unfold questionable, count_officer.
    destruct (residence_country_of officer) as [r|]; [|discriminate].
    destruct (address_country_of officer) as [a|]; [|discriminate].
    intros [Hr Ha]%andb_true_iff. cbn [bind].
    rewrite (is_uk_country_names _ Hr). cbn [bind].
    rewrite (absent_or_not_uk_names _ Ha). reflexivity. }
  split; [exact Hone|]. split.
  - intros sampled_companies c.
    unfold count_companies_by_uk_director_status. intros Hrun.
    bind_inv Hrun. bind_inv Hrun. injection Hrun as <-. simpl.
    exists a. split; [assumption|]. split.
    + apply (for_each_sum questionable_residence _ _ _
               count_company_questionable) in E0.
      rewrite sum_of_lengths in E0. simpl in E0. lia.
    + apply (for_each_sum total_directors _ _ _ count_company_total) in E0.
      rewrite sum_of_all_lengths in E0. simpl in E0. lia.
  - intros info officer c Hd Hq. unfold count_company. step Hd.
    cbn [for_each]. step (Hone officer false c Hq). reflexivity.
Qed.

(** ** The resolved residence country *)

Lemma assoc_remove_key_same k fields : assoc k (remove_key k fields) = None.
Proof.
  induction fields as [|[k' v] fields IH]; [reflexivity|].
  simpl. destruct (String.eqb k k') eqn:Hk; simpl; [assumption|].
  now rewrite Hk.
Qed.

Lemma assoc_remove_key_other k k' fields :
  String.eqb k k' = false ->
  assoc k (remove_key k' fields) = assoc k fields.
Proof.
  intros Hne. induction fields as [|[k0 v] fields IH]; [reflexivity|].
  simpl. destruct (String.eqb k' k0) eqn:Hk; simpl.
  - apply String.eqb_eq in Hk. subst k0. now rewrite Hne.
  - now rewrite IH.
Qed.

(** The residence country read from a director is that of
    [country_of_residence] when the key is present with a truthy value, and
    that of [residence_country] otherwise. *)
Lemma residence_country_of_fields fields :
  residence_country_of (JObj fields)
  = Ok (match assoc "country_of_residence" fields with
        | Some v =>
            if truthy v then v else default JNull (assoc "residence_country" fields)
        | None => default JNull (assoc "residence_country" fields)
        end).
Proof.
  unfold residence_country_of, get, get_default. cbn [bind].
  destruct (assoc "country_of_residence" fields) as [v|]; simpl.
  - now destruct (truthy v).
  - reflexivity.
Qed.

(** A falsy [country_of_residence] reads as a missing one. *)
Lemma falsy_residence_as_absent fields v :
  assoc "country_of_residence" fields = Some v ->
  truthy v = false ->
  residence_country_of (JObj (remove_key "country_of_residence" fields))
  = residence_country_of (JObj fields)
  /\ address_country_of (JObj (remove_key "country_of_residence" fields))
     = address_country_of (JObj fields).
Proof.
  intros Hv Hfalsy. split.
  - rewrite !residence_country_of_fields, assoc_remove_key_same, Hv, Hfalsy.
    now rewrite assoc_remove_key_other.
  - unfold address_country_of, get_default.
    now rewrite assoc_remove_key_other.
Qed.

(** C10: the resolved residence country of a director is the value of
    [country_of_residence] only when that key is present with a truthy
    value, and the value of [residence_country] otherwise; a director whose
    [country_of_residence] is the empty string (or any other falsy value)
    is treated as the same director without the key by the counting pass,
    by the short-circuit classifier and by the country extraction. *)
Theorem empty_country_of_residence_is_absent :
  (forall fields,
     residence_country_of (JObj fields)
     = Ok (match assoc "country_of_residence" fields with
           | Some v =>
               if truthy v then v
               else default JNull (assoc "residence_country" fields)
           | None => default JNull (assoc "residence_country" fields)
           end))
  /\ truthy (JStr "") = false
  /\ (forall fields v,
        assoc "country_of_residence" fields = Some v ->
        truthy v = false ->
        let officer := JObj fields in
        let officer' := JObj (remove_key "country_of_residence" fields) in
        residence_country_of officer
        = Ok (default JNull (assoc "residence_country" fields))
        /\ (forall st, count_officer uk_variants st officer
                       = count_officer uk_variants st officer')
        /\ (forall rest, has_uk_director uk_variants (officer :: rest)
                         = has_uk_director uk_variants (officer' :: rest))
        /\ (forall countries, extract_officer countries officer
                              = extract_officer countries officer')).
Proof.
  split; [exact residence_country_of_fields|]. split; [reflexivity|].
  intros fields v Hv Hfalsy officer officer'.
  destruct (falsy_residence_as_absent fields v Hv Hfalsy) as [Hr Ha].
  fold officer officer' in Hr, Ha. repeat split.
  - unfold officer. now rewrite residence_country_of_fields, Hv, Hfalsy.
  - intros [has_uk c]. unfold count_officer. now rewrite Hr, Ha.
  - intros rest. cbn [has_uk_director]. now rewrite Hr, Ha.
  - intros countries. unfold extract_officer. now rewrite Hr, Ha.
Qed.

(** ** The compliance pass *)

Lemma date_ltb_lt a b : date_ltb a b = true <-> date_lt a b.
Proof.
  unfold date_ltb, date_lt.
  rewrite !orb_true_iff, !andb_true_iff, !orb_true_iff, !andb_true_iff.
  rewrite !Z.ltb_lt, !Z.eqb_eq. reflexivity.
Qed.

Lemma date_lt_irrefl a : ~ date_lt a a.
Proof. unfold date_lt. lia. Qed.

(** The counter moves exactly when the text parses as a date before
    [today]. *)
Lemma is_late_iff today due :
  is_late today due = true
  <-> exists d, strptime_dmY due = Ok d /\ date_lt d today.
Proof.
  unfold is_late. destruct (strptime_dmY due) as [d|e].
  - rewrite date_ltb_lt. split; [eauto|]. now intros (d' & [= <-] & Hlt).
  - split; [discriminate|]. now intros (d' & Hd & _).
Qed.

Lemma flag_officer_effect g m officer m' :
  flag_officer g m officer = Ok m' ->
  m' = if has_default_address officer then incr_default_address m g else m.
Proof.
  unfold flag_officer, has_default_address. intros Hrun.
  bind_inv Hrun. rewrite E. bind_inv Hrun. rewrite E0. congruence.
Qed.

Lemma incr_default_address_at m g :
  metrics_at (incr_default_address m g) g
  = Indicators (late_confstmt (metrics_at m g)) (late_accounts (metrics_at m g))
               (default_address (metrics_at m g) + 1).
Proof. now destruct g. Qed.

Lemma incr_late_confstmt_at m g :
  metrics_at (incr_late_confstmt m g) g
  = Indicators (late_confstmt (metrics_at m g) + 1) (late_accounts (metrics_at m g))
               (default_address (metrics_at m g)).
Proof. now destruct g. Qed.

Lemma incr_late_accounts_at m g :
  metrics_at (incr_late_accounts m g) g
  = Indicators (late_confstmt (metrics_at m g)) (late_accounts (metrics_at m g) + 1)
               (default_address (metrics_at m g)).
Proof. now destruct g. Qed.

(** The loop over the directors moves only [default_address], once for
    every director with a default address. *)
Lemma flag_officers_effect g officers : forall m m',
  for_each (flag_officer g) m officers = Ok m' ->
  late_confstmt (metrics_at m' g) = late_confstmt (metrics_at m g)
  /\ late_accounts (metrics_at m' g) = late_accounts (metrics_at m g)
  /\ default_address (metrics_at m' g)
     = default_address (metrics_at m g)
       + Z.of_nat (length (List.filter has_default_address officers)).
Proof.
  induction officers as [|officer rest IH]; intros m m' Hrun;
    cbn [for_each] in Hrun.
  - injection Hrun as <-. simpl. lia.
  - bind_inv Hrun. apply IH in Hrun. apply flag_officer_effect in E. subst a.
    cbn [List.filter]. destruct (has_default_address officer).
    + rewrite incr_default_address_at in Hrun. cbn [length] in *. simpl in Hrun. lia.
    + exact Hrun.
Qed.

(** What one company adds to the indicators of its group. *)
Lemma analyze_company_effect today m info m' :
  analyze_company uk_variants today m info = Ok m' ->
  exists has_uk data,
    company_has_uk uk_variants info = Ok has_uk
    /\ get_default info "company_data" (JObj []) = Ok data
    /\ let g := if has_uk then WithUk else WithoutUk in
       let before := metrics_at m g in
       let after := metrics_at m' g in
       late_confstmt after
       = late_confstmt before
         + (if is_late today (strip (py_str (field_of data "ConfStmtNextDueDate")))
            then 1 else 0)
       /\ late_accounts after
          = late_accounts before
            + (if is_late today (strip (py_str (field_of data "Accounts.NextDueDate")))
               then 1 else 0)
       /\ default_address after
          = default_address before
            + (if mentions_default
                    (strip (py_str (field_of data "RegAddress.AddressLine1")))
               then 1
               else Z.of_nat (length (List.filter has_default_address
                                        (directors_list info)))).
Proof.
  unfold analyze_company. intros Hrun.
  bind_inv Hrun. bind_inv Hrun. exists a, a0.
  do 2 (split; [assumption|]). cbv zeta.
  set (g := if a then WithUk else WithoutUk) in *.
  bind_inv Hrun. bind_inv Hrun. bind_inv Hrun.
  assert (Hf : forall k v, get_default a0 k (JStr "") = Ok v -> v = field_of a0 k).
  { intros k v. unfold get_default, field_of. destruct a0; congruence. }
  apply Hf in E1, E2, E3. subst a1 a2 a3.
  destruct (mentions_default _).
  - injection Hrun as <-. rewrite incr_default_address_at.
    cbn [late_confstmt late_accounts default_address].
    late_cases; rewrite ?incr_late_accounts_at, ?incr_late_confstmt_at; simpl; lia.
  - bind_inv Hrun. unfold directors_list. rewrite E1.
    apply flag_officers_effect in Hrun. destruct Hrun as (Hc & Ha & Hd).
    rewrite Hc, Ha, Hd.
    late_cases; rewrite ?incr_late_accounts_at, ?incr_late_confstmt_at; simpl; lia.
Qed.

(** ** Well-formed records *)

Lemma names_uk_returns v : country_like v -> returns (names_uk uk_variants v).
Proof.
  unfold names_uk. intros [Hf|[s ->]].
  - rewrite Hf. now eexists.
  - destruct (truthy (JStr s)); now eexists.
Qed.

Lemma count_officer_returns st officer :
  wf_officer officer -> returns (count_officer uk_variants st officer).
Proof.
  intros (r & a & Hr & Hlr & Ha & Hla). destruct st as [has_uk c].
  unfold count_officer. step Hr. step Ha.
  destruct (names_uk_returns r Hlr) as [b ->]. cbn [bind]. destruct b.
  - destruct (names_uk_returns a Hla) as [b' ->]. cbn [bind].
    destruct b'; now eexists.
  - now eexists.
Qed.

Lemma has_uk_director_returns officers :
  Forall wf_officer officers -> returns (has_uk_director uk_variants officers).
Proof.
  induction 1 as [|officer rest (r & a & Hr & Hlr & Ha & Hla) _ IH];
    cbn [has_uk_director].
  - now eexists.
  - step Hr. step Ha. destruct (names_uk_returns r Hlr) as [b ->]. cbn [bind].
    destruct b; cbn [bind].
    + destruct (names_uk_returns a Hla) as [b' ->]. cbn [bind].
      destruct b'; [now eexists | assumption].
    + assumption.
Qed.

Lemma flag_officer_returns g m officer :
  wf_officer officer -> returns (flag_officer g m officer).
Proof.
  intros (r & a & _ & _ & Ha & _). unfold address_country_of in Ha.
  bind_inv Ha. unfold flag_officer. step E.
  destruct a0; try discriminate. destruct (truthy (JObj fields)); now eexists.
Qed.

Lemma count_company_returns c info :
  wf_company info -> returns (count_company uk_variants c info).
Proof.
  intros (officers & fields & Hd & Hwf & _). unfold count_company. step Hd.
  destruct (for_each_returns (count_officer uk_variants) officers) with (s := (false, c))
    as [[has_uk d] ->].
  - intros st x Hx. apply count_officer_returns.
    now apply (proj1 (List.Forall_forall _ _) Hwf).
  - cbn [bind]. now eexists.
Qed.

Lemma company_has_uk_returns info :
  wf_company info -> returns (company_has_uk uk_variants info).
Proof.
  intros (officers & fields & Hd & Hwf & _). unfold company_has_uk. step Hd.
  now apply has_uk_director_returns.
Qed.

Lemma analyze_company_returns today m info :
  wf_company info -> returns (analyze_company uk_variants today m info).
Proof.
  intros Hwf. destruct (company_has_uk_returns info Hwf) as [has_uk Hshort].
  destruct Hwf as (officers & fields & Hd & Hwf & Hdata).
  unfold analyze_company. step Hshort. step Hdata. cbn [get_default bind].
  destruct (mentions_default _); [now eexists|]. step Hd.
  apply for_each_returns. intros s x Hx. apply flag_officer_returns.
  now apply (proj1 (List.Forall_forall _ _) Hwf).
Qed.

(** On a sample of well-formed companies both passes return. *)
Lemma passes_return sampled_companies infos today :
  values sampled_companies = Ok infos ->
  Forall wf_company infos ->
  returns (count_companies_by_uk_director_status sampled_companies uk_variants)
  /\ returns (analyze_compliance sampled_companies uk_variants today).
Proof.
  intros Hv Hwf. split.
  - unfold count_companies_by_uk_director_status. step Hv.
    destruct (for_each_returns (count_company uk_variants) infos) with (s := zero_counts)
      as [c ->].
    + intros c x Hx. apply count_company_returns.
      now apply (proj1 (List.Forall_forall _ _) Hwf).
    + cbn [bind]. now eexists.
  - unfold analyze_compliance. step Hv. apply for_each_returns.
    intros m x Hx. apply analyze_company_returns.
    now apply (proj1 (List.Forall_forall _ _) Hwf).
Qed.

(** A director record typed as the data model has it is well formed. *)
Lemma wf_officer_typed fields :
  optional_str (assoc "country_of_residence" fields) ->
  optional_str (assoc "residence_country" fields) ->
  (assoc "address" fields = None
   \/ exists address,
        assoc "address" fields = Some (JObj address)
        /\ optional_str (assoc "country" address)) ->
  wf_officer (JObj fields).
Proof.
  intros Hfirst Hsecond Haddress.
  assert (Hlike : forall o, optional_str o -> country_like (default JNull o)).
  { intros [[]|]; simpl; try contradiction; intros _;
      first [left; reflexivity | right; eexists; reflexivity]. }
  assert (Hres : country_like
            (match assoc "country_of_residence" fields with
             | Some v =>
                 if truthy v then v
                 else default JNull (assoc "residence_country" fields)
             | None => default JNull (assoc "residence_country" fields)
             end)).
  { destruct (assoc "country_of_residence" fields) as [v|]; [|now apply Hlike].
    destruct (truthy v) eqn:Hv; [|now apply Hlike].
    destruct v; simpl in Hfirst; try contradiction;
      first [discriminate Hv | right; eexists; reflexivity]. }
  unfold wf_officer. rewrite residence_country_of_fields.
  unfold address_country_of, get, get_default. cbn [bind].
  destruct Haddress as [->|(address & -> & Hcountry)]; simpl;
    eexists _, _; (split; [reflexivity|]); (split; [exact Hres|]);
    (split; [reflexivity|]).
  - now left.
  - now apply Hlike.
Qed.

(** When the first line of the registered address mentions the default
    address the pass adds 1 to [default_address] and returns without
    reading the address of any director. *)
Lemma registered_default_address_once today m info has_uk fields :
  company_has_uk uk_variants info = Ok has_uk ->
  get_default info "company_data" (JObj []) = Ok (JObj fields) ->
  mentions_default
    (strip (py_str (field_of (JObj fields) "RegAddress.AddressLine1"))) = true ->
  exists m',
    analyze_company uk_variants today m info = Ok m'
    /\ let g := if has_uk then WithUk else WithoutUk in
       default_address (metrics_at m' g) = default_address (metrics_at m g) + 1.
Proof.
  intros Hshort Hdata Hline. unfold analyze_company.
  step Hshort. step Hdata. cbn [get_default bind field_of] in Hline |- *.
  rewrite Hline. eexists. split; [reflexivity|]. cbv zeta.
  rewrite incr_default_address_at. cbn [default_address].
  late_cases; rewrite ?incr_late_accounts_at, ?incr_late_confstmt_at; simpl; lia.
Qed.

(** C5: whenever the compliance pass returns on a company, [late_confstmt]
    (and likewise [late_accounts]) of the company's group has gone up by
    exactly 1 if and only if the text of the field parses as a
    day/month/year date that is strictly before [today]; otherwise, in
    particular when the key is missing or when the parse raises, it has not
    moved.  The due dates raise nothing: on a well-formed company the pass
    returns whatever the two fields hold. *)
Theorem late_counters_follow_due_dates today m info :
  (wf_company info -> returns (analyze_company uk_variants today m info))
  /\ ~ date_lt today today
  /\ forall m',
       analyze_company uk_variants today m info = Ok m' ->
       exists has_uk data,
         company_has_uk uk_variants info = Ok has_uk
         /\ get_default info "company_data" (JObj []) = Ok data
         /\ let g := if has_uk then WithUk else WithoutUk in
            let conf_due := strip (py_str (field_of data "ConfStmtNextDueDate")) in
            let acc_due := strip (py_str (field_of data "Accounts.NextDueDate")) in
            let conf_late :=
              exists d, strptime_dmY conf_due = Ok d /\ date_lt d today in
            let acc_late :=
              exists d, strptime_dmY acc_due = Ok d /\ date_lt d today in
            let moved (after before : Z) (late : Prop) :=
              (after = before + 1 <-> late) /\ (after = before <-> ~ late) in
            moved (late_confstmt (metrics_at m' g))
                  (late_confstmt (metrics_at m g)) conf_late
            /\ moved (late_accounts (metrics_at m' g))
                     (late_accounts (metrics_at m g)) acc_late
            /\ metrics_at m' (other g) = metrics_at m (other g)
            /\ (field_of data "ConfStmtNextDueDate" = JStr "" -> ~ conf_late)
            /\ (field_of data "Accounts.NextDueDate" = JStr "" -> ~ acc_late)
            /\ (forall e, strptime_dmY conf_due = Raise e -> ~ conf_late)
            /\ (forall e, strptime_dmY acc_due = Raise e -> ~ acc_late).
Proof.
  split; [apply analyze_company_returns|]. split; [apply date_lt_irrefl|].
  intros m' Hrun.
  pose proof (analyze_company_group _ _ _ _ Hrun) as (has_uk' & Hs' & Hother).
  destruct (analyze_company_effect _ _ _ _ Hrun)
    as (has_uk & data & Hs & Hdata & Hc & Ha & _).
  rewrite Hs in Hs'. injection Hs' as <-.
  exists has_uk, data. do 2 (split; [assumption|]).
  cbv beta zeta in *.
  assert (Hblank : forall d, strptime_dmY (strip (py_str (JStr ""))) <> Ok d).
  { intros d. cbn [py_str]. rewrite strip_empty. apply strptime_empty. }
  assert (Hmoved : forall after before due,
    after = before + (if is_late today due then 1 else 0) ->
    (after = before + 1 <-> exists d, strptime_dmY due = Ok d /\ date_lt d today)
    /\ (after = before <-> ~ exists d, strptime_dmY due = Ok d /\ date_lt d today)).
  { intros after before due ->. rewrite <- is_late_iff.
    destruct (is_late today due); split; split; intros; try lia; congruence. }
  split; [now apply Hmoved|]. split; [now apply Hmoved|].
  split; [assumption|].
  split; [intros -> (d & Hp & _); now apply Hblank in Hp|].
  split; [intros -> (d & Hp & _); now apply Hblank in Hp|].
  split; intros e Hraise (d & Hp & _); congruence.
Qed.

End Passes.

(** ** The UK variant set *)

Section Variants.

Context `{Text}.

(** The set holds the case-folded strippings of the lines that are not
    blank, and nothing else. *)
Lemma elem_of_load_UK_variants lines x :
  x ∈ load_UK_variants lines
  <-> exists line, In line lines /\ strip line <> "" /\ x = casefold (strip line).
Proof.
  unfold load_UK_variants.
  rewrite elem_of_list_to_set, list_elem_of_In, in_map_iff. split.
  - intros (y & <- & Hy). apply in_map_iff in Hy as (line & <- & Hl).
    apply list_elem_of_In, list_elem_of_filter in Hl as [Hne Hl].
    exists line. repeat split; [now apply list_elem_of_In | assumption].
  - intros (line & Hl & Hne & ->). exists (strip line). split; [reflexivity|].
    apply in_map_iff. exists line. split; [reflexivity|].
    apply list_elem_of_In, list_elem_of_filter. split; [assumption|].
    now apply list_elem_of_In.
Qed.

Lemma empty_not_UK_variant lines : "" ∉ load_UK_variants lines.
Proof.
  intros (line & _ & Hne & Hfold)%elem_of_load_UK_variants.
  apply Hne, casefold_eq_empty. now symmetry.
Qed.

Lemma casefold_strip_empty : casefold (strip "") = "".
Proof. rewrite strip_empty. now apply casefold_eq_empty. Qed.

(** The test on a str: falsy when empty, else membership of its
    case-folded stripping. *)
Lemma names_uk_str lines s :
  names_uk (load_UK_variants lines) (JStr s)
  = Ok (bool_decide (casefold (strip s) ∈ load_UK_variants lines)).
Proof.
  unfold names_uk, truthy. destruct (String.eqb_spec s "") as [->|Hne]; [|reflexivity].
  simpl. rewrite casefold_strip_empty.
  now rewrite (bool_decide_eq_false_2 _ (empty_not_UK_variant lines)).
Qed.

(** C6: two country strings that are equal after stripping and
    case-folding get the same answer from the UK-membership test of the
    classifiers; the variant set holds exactly the case-folded strippings
    of the non-blank lines, so a line that case-folds to an entry already
    there adds nothing. *)
Theorem uk_membership_modulo_case_and_space lines :
  (forall s1 s2,
     casefold (strip s1) = casefold (strip s2) ->
     names_uk (load_UK_variants lines) (JStr s1)
     = names_uk (load_UK_variants lines) (JStr s2))
  /\ (forall x,
        x ∈ load_UK_variants lines
        <-> exists line, In line lines /\ strip line <> "" /\ x = casefold (strip line))
  /\ (forall line line',
        In line lines ->
        casefold (strip line') = casefold (strip line) ->
        load_UK_variants (line' :: lines) = load_UK_variants lines).
Proof.
  split; [|split].
  - intros s1 s2 Heq. now rewrite !names_uk_str, Heq.
  - apply elem_of_load_UK_variants.
  - intros line line' Hin Heq. apply set_eq. intros x.
    rewrite !elem_of_load_UK_variants. split.
    + intros (l & [<-|Hl] & Hne & ->); [|eauto].
      exists line. repeat split; [assumption| |assumption].
      intros Hblank. apply Hne. apply casefold_eq_empty.
      rewrite Heq, Hblank. now apply casefold_eq_empty.
    + intros (l & Hl & Hne & ->). exists l. repeat split; [now right|assumption].
Qed.

End Variants.

(** ** Facts about binary64

    The conversion of an int to a float rounds the integer to 53 bits.  The
    lemmas below follow the rounding of [SpecFloat] far enough to know that
    the result is a float of the format, hence not zero, unless the integer
    has more than 1023 bits. *)

Lemma digits2_pos_size m : digits2_pos m = Pos.size m.
Proof. induction m; simpl; congruence. Qed.

Lemma digits2_pos_bounds m :
  2 ^ (Zpos (digits2_pos m) - 1) <= Zpos m < 2 ^ Zpos (digits2_pos m).
Proof.
  rewrite digits2_pos_size.
  pose proof (Pos.size_gt m) as Hgt. pose proof (Pos.size_le m) as Hle.
  apply Pos2Z.pos_lt_pos in Hgt. apply Pos2Z.pos_le_pos in Hle.
  rewrite Pos2Z.inj_pow in Hgt, Hle. change (Z.pos m~0) with (2 * Z.pos m) in Hle.
  split; [|exact Hgt].
  replace (Z.pos (Pos.size m)) with (Z.succ (Z.pos (Pos.size m) - 1)) in Hle by lia.
  rewrite Z.pow_succ_r in Hle by lia. lia.
Qed.

Lemma digits2_pos_unique m k :
  2 ^ (k - 1) <= Zpos m < 2 ^ k -> Zpos (digits2_pos m) = k.
Proof.
  intros [Hlo Hhi]. pose proof (digits2_pos_bounds m) as [Hlo' Hhi'].
  set (d := Zpos (digits2_pos m)) in *.
  assert (0 < k).
  { destruct (Z.lt_trichotomy k 0) as [Hk|[->|Hk]]; [|simpl in Hhi; lia|assumption].
    rewrite Z.pow_neg_r in Hhi by lia. lia. }
  destruct (Z.lt_trichotomy d k) as [Hlt|[Heq|Hgt]]; [|assumption|].
  - assert (2 ^ d <= 2 ^ (k - 1)) by (apply Z.pow_le_mono_r; lia). lia.
  - assert (2 ^ k <= 2 ^ (d - 1)) by (apply Z.pow_le_mono_r; lia). lia.
Qed.

Lemma shr_1_m r : 0 <= shr_m r -> shr_m (shr_1 r) = shr_m r / 2.
Proof.
  destruct r as [m b s]. simpl. intros Hm.
  destruct m as [|[p|p|]|p]; simpl; try reflexivity; try lia.
  - apply Z.div_unique with (r := 1); lia.
  - apply Z.div_unique with (r := 0); lia.
Qed.

Lemma iter_shr_1_m p : forall r,
  0 <= shr_m r -> shr_m (SpecFloat.iter_pos shr_1 p r) = shr_m r / 2 ^ Zpos p.
Proof.
  induction p as [p IH|p IH|]; intros r Hr; simpl SpecFloat.iter_pos.
  - assert (H1 : 0 <= shr_m (shr_1 r)) by (rewrite shr_1_m by assumption; apply Z.div_pos; lia).
    assert (H2 : 0 <= shr_m (SpecFloat.iter_pos shr_1 p (shr_1 r)))
      by (rewrite IH by assumption; apply Z.div_pos; [lia|apply Z.pow_pos_nonneg; lia]).
    rewrite IH, IH, shr_1_m by assumption.
    rewrite !Z.div_div by (try apply Z.pow_pos_nonneg; lia).
    f_equal. change (Z.pos p~1) with (2 * Z.pos p + 1).
    replace (2 * Z.pos p + 1) with (1 + Z.pos p + Z.pos p) by lia.
    rewrite !Z.pow_add_r by lia. lia.
  - assert (H2 : 0 <= shr_m (SpecFloat.iter_pos shr_1 p r))
      by (rewrite IH by assumption; apply Z.div_pos; [lia|apply Z.pow_pos_nonneg; lia]).
    rewrite IH, IH by assumption.
    rewrite !Z.div_div by (try apply Z.pow_pos_nonneg; lia).
    f_equal. change (Z.pos p~0) with (2 * Z.pos p).
    replace (2 * Z.pos p) with (Z.pos p + Z.pos p) by lia.
    rewrite !Z.pow_add_r by lia. lia.
  - rewrite shr_1_m by assumption. reflexivity.
Qed.

Lemma fexp_normal e : -1021 <= e -> fexp prec emax e = e - 53.
Proof. unfold fexp, SpecFloat.emin, prec, emax. lia. Qed.

(** Shifting a mantissa of at least 53 digits down to 53 digits. *)
Lemma shr_fexp_m q e l :
  let dq := Zpos (digits2_pos q) in
  53 <= dq -> -1021 <= dq + e ->
  exists r, shr_fexp prec emax (Zpos q) e l = (r, e + (dq - 53))
            /\ shr_m r = Zpos q / 2 ^ (dq - 53).
Proof.
  intros dq Hd He. unfold shr_fexp. cbn [Zdigits2]. fold dq.
  rewrite fexp_normal by assumption.
  replace (dq + e - 53 - e) with (dq - 53) by lia. unfold shr.
  destruct (dq - 53) as [|s|s] eqn:Hs; try lia.
  - eexists. split; [f_equal; lia|].
    rewrite Z.pow_0_r, Z.div_1_r. now destruct l as [|[]].
  - eexists. split; [reflexivity|].
    rewrite iter_shr_1_m; now destruct l as [|[]].
Qed.

Lemma round_nearest_even_bounds m l :
  m <= round_nearest_even m l <= m + 1.
Proof.
  unfold round_nearest_even. destruct l as [|[]]; try lia.
  destruct (Z.even m); lia.
Qed.

(** Rounding a mantissa of at least 53 digits gives a float in the format,
    or overflows. *)
Lemma binary_round_aux_valid sx q e l :
  let dq := Zpos (digits2_pos q) in
  53 <= dq -> -1021 <= dq + e ->
  let sf := binary_round_aux prec emax sx (Zpos q) e l in
  (sf = S754_infinity sx /\ 1023 < dq + e)
  \/ exists m' e', sf = S754_finite sx m' e' /\ bounded prec emax m' e' = true.
Proof.
  intros dq Hd He sf. subst sf. unfold binary_round_aux.
  destruct (shr_fexp_m q e l Hd He) as (r1 & -> & Hr1). fold dq in Hr1 |- *.
  pose proof (digits2_pos_bounds q) as [Hlo Hhi]. fold dq in Hlo, Hhi.
  assert (Hm1 : 2 ^ 52 <= shr_m r1 < 2 ^ 53).
  { rewrite Hr1. split.
    - apply Z.div_le_lower_bound; [apply Z.pow_pos_nonneg; lia|].
      rewrite <- Z.pow_add_r by lia. replace (dq - 53 + 52) with (dq - 1) by lia. assumption.
    - apply Z.div_lt_upper_bound; [apply Z.pow_pos_nonneg; lia|].
      rewrite <- Z.pow_add_r by lia. replace (dq - 53 + 53) with dq by lia. assumption. }
  pose proof (round_nearest_even_bounds (shr_m r1) (loc_of_shr_record r1)) as Hm2.
  destruct (round_nearest_even (shr_m r1) (loc_of_shr_record r1)) as [|q2|q2] eqn:Hq2;
    try lia.
  assert (Hd2 : (Zpos q2 < 2 ^ 53 /\ Zpos (digits2_pos q2) = 53)
                \/ (Zpos q2 = 2 ^ 53 /\ Zpos (digits2_pos q2) = 54)).
  { destruct (Z.ltb_spec (Zpos q2) (2 ^ 53)).
    - left. split; [assumption|]. apply digits2_pos_unique. lia.
    - right. split; [lia|]. apply digits2_pos_unique. change (54 - 1) with 53.
      change (2 ^ 54) with (2 * 2 ^ 53). lia. }
  destruct (shr_fexp_m q2 (e + (dq - 53)) loc_Exact) as (r2 & -> & Hr2); try lia.
  assert (Hm3 : 2 ^ 52 <= shr_m r2 < 2 ^ 53).
  { rewrite Hr2. destruct Hd2 as [[Hlt ->]|[-> ->]].
    - change (53 - 53) with 0. rewrite Z.pow_0_r, Z.div_1_r. lia.
    - now vm_compute. }
  destruct (shr_m r2) as [|q3|q3] eqn:Hq3; try lia.
  set (e3 := e + (dq - 53) + (Z.pos (digits2_pos q2) - 53)) in *.
  destruct (Z.leb_spec e3 (emax - prec)) as [Hle|Hgt].
  - right. exists q3, e3. split; [reflexivity|].
    unfold bounded, canonical_mantissa.
    rewrite (digits2_pos_unique q3 53) by (change (53 - 1) with 52; lia).
    rewrite fexp_normal by lia.
    apply andb_true_intro. split; [apply Z.eqb_eq; lia | apply Z.leb_le; assumption].
  - left. split; [reflexivity|]. unfold emax, prec in Hgt. lia.
Qed.

Lemma iter_xO_pow m k : Zpos (Pos.iter xO m k) = Zpos m * 2 ^ Zpos k.
Proof.
  induction k as [|k IH] using Pos.peano_ind.
  - simpl. lia.
  - rewrite Pos.iter_succ, Pos2Z.inj_succ, Z.pow_succ_r by lia.
    change (Z.pos (Pos.iter xO m k)~0) with (2 * Z.pos (Pos.iter xO m k)). lia.
Qed.

(** Rounding an integer to binary64: a float in the format, or overflow
    for an integer of more than 1023 bits. *)
Lemma binary_round_int_valid sx m :
  let sf := binary_round prec emax sx m 0 in
  (sf = S754_infinity sx /\ 1023 < Zpos (digits2_pos m))
  \/ exists m' e', sf = S754_finite sx m' e' /\ bounded prec emax m' e' = true.
Proof.
  intros sf. subst sf. unfold binary_round.
  pose proof (digits2_pos_bounds m) as [Hlo Hhi].
  set (d := Zpos (digits2_pos m)) in *.
  assert (Hd : 0 < d) by (unfold d; lia).
  rewrite fexp_normal by lia. unfold shl_align.
  destruct (d + 0 - 53 - 0) as [|k|k] eqn:Hk.
  - destruct (binary_round_aux_valid sx m 0 loc_Exact) as [[-> Hbig]|Hfin];
      fold d; try lia; now right.
  - destruct (binary_round_aux_valid sx m 0 loc_Exact) as [[-> Hbig]|Hfin];
      fold d; try lia; try (now right).
    fold d in Hbig. left. split; [reflexivity|lia].
  - assert (Hdz : Zpos (digits2_pos (Pos.iter xO m k)) = 53).
    { apply digits2_pos_unique. rewrite iter_xO_pow.
      assert (Hp : 0 < 2 ^ Zpos k) by (apply Z.pow_pos_nonneg; lia).
      assert (H52 : 2 ^ (53 - 1) = 2 ^ (d - 1) * 2 ^ Zpos k)
        by (rewrite <- Z.pow_add_r by lia; f_equal; lia).
      assert (H53 : 2 ^ 53 = 2 ^ d * 2 ^ Zpos k)
        by (rewrite <- Z.pow_add_r by lia; f_equal; lia).
      rewrite H52, H53.
      split; [apply Z.mul_le_mono_nonneg_r | apply Z.mul_lt_mono_pos_r]; lia. }
    destruct (binary_round_aux_valid sx (Pos.iter xO m k) (d + 0 - 53) loc_Exact)
      as [[-> Hbig]|Hfin]; rewrite ?Hdz in *; try lia; now right.
Qed.

Lemma Prim2SF_zero : Prim2SF 0 = S754_zero false.
Proof. reflexivity. Qed.

Lemma Prim2SF_infinity : Prim2SF infinity = S754_infinity false.
Proof. reflexivity. Qed.

(** A finite float of the format is neither infinite nor zero. *)
Lemma SF2Prim_finite sx m e :
  bounded prec emax m e = true ->
  let y := SF2Prim (S754_finite sx m e) in
  is_infinity y = false /\ (y =? 0)%float = false.
Proof.
  intros Hb y.
  assert (Hy : Prim2SF y = S754_finite sx m e) by (apply Prim2SF_SF2Prim; exact Hb).
  unfold is_infinity. rewrite !FloatAxioms.eqb_spec, FloatAxioms.abs_spec, Hy, Prim2SF_zero, Prim2SF_infinity.
  now destruct sx.
Qed.

(** *** Signs *)

Lemma binary_round_aux_not_negative m e l :
  not_negative (binary_round_aux prec emax false m e l).
Proof.
  unfold binary_round_aux.
  destruct (shr_fexp prec emax m e l) as [r1 e1].
  destruct (shr_fexp prec emax _ e1 loc_Exact) as [r2 e2].
  destruct (shr_m r2); simpl; auto. now destruct (e2 <=? _).
Qed.

Lemma binary_normalize_not_negative z e :
  0 <= z -> not_negative (binary_normalize prec emax z e false).
Proof.
  destruct z as [|m|m]; try lia; intros _; simpl; [exact I|].
  unfold binary_round. destruct (shl_align _ _ _) as [mz ez].
  apply binary_round_aux_not_negative.
Qed.

Lemma SFmul_not_negative x y :
  not_negative x -> not_negative y -> not_negative (SFmul prec emax x y).
Proof.
  destruct x as [sx|sx| |sx mx ex], y as [sy|sy| |sy my ey]; simpl;
    try (intros; exact I); try (intros -> ->; reflexivity);
    try (intros _ ->; reflexivity); try (intros -> _; reflexivity).
  intros -> ->. apply binary_round_aux_not_negative.
Qed.

Lemma SFdiv_not_negative x my ey :
  not_negative x ->
  not_negative (SFdiv prec emax x (S754_finite false my ey)).
Proof.
  destruct x as [sx|sx| |sx mx ex]; simpl; try (intros; exact I);
    try (intros ->; reflexivity).
  intros ->. destruct (SFdiv_core_binary _ _ _ _ _ _) as [[mz ez] lz].
  apply binary_round_aux_not_negative.
Qed.

Lemma not_negative_ltb_zero x :
  not_negative x -> SFltb x (S754_zero false) = false.
Proof. destruct x as [sx|sx| |sx mx ex]; simpl; try reflexivity; now intros ->. Qed.

Lemma Prim2SF_one : Prim2SF 1 = sf_one.
Proof. reflexivity. Qed.

Lemma bounded_mantissa m e : bounded prec emax m e = true -> Zpos m < 2 ^ 53.
Proof.
  unfold bounded, canonical_mantissa, fexp, SpecFloat.emin, prec, emax.
  intros [Hc _]%andb_true_iff. apply Z.eqb_eq in Hc.
  pose proof (digits2_pos_bounds m) as [_ Hhi].
  assert (2 ^ Zpos (digits2_pos m) <= 2 ^ 53) by (apply Z.pow_le_mono_r; lia).
  lia.
Qed.

Lemma shl_align_value m e e' :
  e' <= e ->
  Zpos (fst (shl_align m e e')) = Zpos m * 2 ^ (e - e').
Proof.
  intros Hle. unfold shl_align.
  destruct (e' - e) as [|d|d] eqn:Hd; try lia; cbn [fst].
  - replace (e - e') with 0 by lia. rewrite Z.pow_0_r. lia.
  - rewrite iter_xO_pow. f_equal. f_equal. lia.
Qed.

(** [1 - p] is not below zero when [p <= 1]. *)
Lemma SFsub_one_not_negative x :
  SpecFloat.valid_binary prec emax x = true ->
  SFleb x sf_one = true ->
  not_negative (SFsub prec emax sf_one x).
Proof.
  destruct x as [s|s| |s m e].
  - intros _ _. reflexivity.
  - intros _. destruct s; [reflexivity|discriminate].
  - discriminate.
  - intros Hvalid Hle. unfold SFsub, sf_one.
    apply binary_normalize_not_negative.
    destruct s; unfold cond_Zopp; [lia|].
    apply bounded_mantissa in Hvalid.
    unfold SFleb, SFcompare, sf_one in Hle.
    change IntDef.Z.min with Z.min.
    destruct (Z.compare_spec e (-52)) as [->|Hlt|Hgt]; [| |discriminate].
    + rewrite Z.min_id, !shl_align_value by lia.
      rewrite Z.sub_diag, Z.pow_0_r, 2!Z.mul_1_r.
      pose proof (Pos.compare_spec m 4503599627370496) as Hs.
      unfold Pos.compare in Hs.
      revert Hle. destruct Hs as [->|Hm|Hm]; intros Hle; try discriminate.
      apply Pos2Z.pos_lt_pos in Hm. clear Hle Hvalid. lia.
    + rewrite Z.min_r by lia. rewrite !shl_align_value by lia.
      rewrite Z.sub_diag, Z.pow_0_r, Z.mul_1_r.
      assert (Hpow : 2 ^ 1 <= 2 ^ (-52 - e)) by (apply Z.pow_le_mono_r; lia).
      set (t := 2 ^ (-52 - e)) in *.
      change (2 ^ 1) with 2 in Hpow.
      change (2 ^ 53) with 9007199254740992 in Hvalid.
      clear Hle. lia.
Qed.

(** *** The quotient of two ints *)

Lemma digits2_pos_lower q k : 2 ^ k <= Zpos q -> k < Zpos (digits2_pos q).
Proof.
  intros Hq. pose proof (digits2_pos_bounds q) as [_ Hhi].
  destruct (Z.ltb_spec k (Zpos (digits2_pos q))) as [|Hge]; [assumption|].
  assert (2 ^ Zpos (digits2_pos q) <= 2 ^ k) by (apply Z.pow_le_mono_r; lia).
  lia.
Qed.

Lemma digits2_pos_upper q k : 0 <= k -> Zpos q < 2 ^ k -> Zpos (digits2_pos q) <= k.
Proof.
  intros Hk Hq. pose proof (digits2_pos_bounds q) as [Hlo _].
  destruct (Z.leb_spec (Zpos (digits2_pos q)) k) as [|Hgt]; [assumption|].
  assert (2 ^ k <= 2 ^ (Zpos (digits2_pos q) - 1)) by (apply Z.pow_le_mono_r; lia).
  lia.
Qed.

(** The integer quotient that [SFdiv] hands to the rounding has at least 53
    bits and does not exceed the dividend in magnitude. *)
Lemma SFdiv_core_int c m2 :
  let d1 := Zpos (digits2_pos c) in
  let d2 := Zpos (digits2_pos m2) in
  d2 <= 1021 ->
  exists q ez lz,
    SFdiv_core_binary prec emax (Zpos c) 0 (Zpos m2) 0 = (Zpos q, ez, lz)
    /\ 53 <= Zpos (digits2_pos q)
    /\ -1021 <= Zpos (digits2_pos q) + ez
    /\ Zpos (digits2_pos q) + ez <= d1.
Proof.
  intros d1 d2 Hd2. unfold SFdiv_core_binary. cbn [Zdigits2]. fold d1 d2.
  assert (Hd1 : 0 < d1) by (unfold d1; lia).
  assert (Hd2' : 0 < d2) by (unfold d2; lia).
  rewrite fexp_normal by lia. change IntDef.Z.min with Z.min.
  set (e' := Z.min (d1 + 0 - (d2 + 0) - 53) (0 - 0)).
  set (s := 0 - 0 - e').
  assert (Hs : 0 <= s /\ 53 + d2 - d1 <= s /\ (s = 0 \/ s = 53 + d2 - d1))
    by (unfold s, e'; lia).
  pose proof (digits2_pos_bounds c) as [Hclo Hchi].
  pose proof (digits2_pos_bounds m2) as [Hmlo Hmhi].
  fold d1 in Hclo, Hchi. fold d2 in Hmlo, Hmhi.
  assert (Hm' : match s with
                | Z.pos _ => Z.shiftl (Zpos c) s
                | 0 => Zpos c
                | Z.neg _ => 0
                end = Zpos c * 2 ^ s).
  { destruct s as [|p|p] eqn:Hsp; try lia.
    apply Z.shiftl_mul_pow2. lia. }
  rewrite Hm'. clear Hm'.
  assert (Hpow : 0 < 2 ^ s) by (apply Z.pow_pos_nonneg; lia).
  assert (Hlow : 2 ^ 52 * Zpos m2 <= Zpos c * 2 ^ s).
  { assert (H1 : 2 ^ 52 * Zpos m2 <= 2 ^ 52 * 2 ^ d2)
      by (apply Z.mul_le_mono_nonneg_l; [apply Z.pow_nonneg|]; lia).
    assert (H2 : 2 ^ (d1 - 1) * 2 ^ s <= Zpos c * 2 ^ s)
      by (apply Z.mul_le_mono_nonneg_r; lia).
    rewrite <- Z.pow_add_r in H1, H2 by lia.
    assert (H3 : 2 ^ (52 + d2) <= 2 ^ (d1 - 1 + s)) by (apply Z.pow_le_mono_r; lia).
    lia. }
  pose proof (Z.div_le_lower_bound (Zpos c * 2 ^ s) (Zpos m2) (2 ^ 52)) as Hq52.
  pose proof (Z.div_le_upper_bound (Zpos c * 2 ^ s) (Zpos m2) (Zpos c * 2 ^ s)) as Hqle.
  unfold Z.div in Hq52, Hqle.
  destruct (Z.div_eucl (Zpos c * 2 ^ s) (Zpos m2)) as [q r].
  assert (H52 : 2 ^ 52 <= q) by (apply Hq52; lia).
  assert (Hle : q <= Zpos c * 2 ^ s).
  { apply Hqle; [lia|]. set (a := Zpos c * 2 ^ s) in *.
    assert (0 <= a) by (unfold a; lia). nia. }
  assert (Hqhi : q < 2 ^ (d1 + s)).
  { rewrite Z.pow_add_r by lia.
    assert (Zpos c * 2 ^ s < 2 ^ d1 * 2 ^ s) by (apply Z.mul_lt_mono_pos_r; lia).
    lia. }
  destruct q as [|q|q]; try (assert (0 < 2 ^ 52) by (apply Z.pow_pos_nonneg; lia); lia).
  exists q, e', (new_location (Zpos m2) r).
  split; [reflexivity|].
  pose proof (digits2_pos_lower q 52 H52) as Hdq.
  pose proof (digits2_pos_upper q (d1 + s) ltac:(lia) Hqhi) as Hdq'.
  unfold s, e' in *. lia.
Qed.

Lemma is_infinity_SF2Prim_infinity sx : is_infinity (SF2Prim (S754_infinity sx)) = true.
Proof. now destruct sx. Qed.

(** [float(n)] of a nonzero int is a nonzero float. *)
Lemma float_of_int_nonzero n y :
  float_of_int n = Ok y -> n <> 0 -> (y =? 0)%float = false.
Proof.
  unfold float_of_int. intros Hy Hn.
  destruct n as [|m|m]; [congruence| |]; unfold binary_normalize in Hy.
  - destruct (binary_round_int_valid false m) as [[Hinf _]|(m' & e' & Hfin & Hb)].
    + rewrite Hinf, is_infinity_SF2Prim_infinity in Hy. discriminate.
    + rewrite Hfin in Hy. destruct (SF2Prim_finite false m' e' Hb) as [Hi Hz].
      rewrite Hi in Hy. now injection Hy as <-.
  - destruct (binary_round_int_valid true m) as [[Hinf _]|(m' & e' & Hfin & Hb)].
    + rewrite Hinf, is_infinity_SF2Prim_infinity in Hy. discriminate.
    + rewrite Hfin in Hy. destruct (SF2Prim_finite true m' e' Hb) as [Hi Hz].
      rewrite Hi in Hy. now injection Hy as <-.
Qed.

(** [float(n)] returns for every int of at most 1023 bits. *)
Lemma float_of_int_returns n : Z.abs n < 2 ^ 1023 -> returns (float_of_int n).
Proof.
  intros Hn. unfold float_of_int.
  assert (Hbits : forall m, Zpos m < 2 ^ 1023 -> Zpos (digits2_pos m) <= 1023).
  { intros m Hm. pose proof (digits2_pos_bounds m) as [Hlo _].
    destruct (Z.leb_spec (Zpos (digits2_pos m)) 1023) as [|Hgt]; [assumption|].
    assert (2 ^ 1023 <= 2 ^ (Zpos (digits2_pos m) - 1)) by (apply Z.pow_le_mono_r; lia).
    lia. }
  destruct n as [|m|m]; unfold binary_normalize.
  - now eexists.
  - destruct (binary_round_int_valid false m) as [[_ Hbig]|(m' & e' & -> & Hb)].
    + specialize (Hbits m). lia.
    + destruct (SF2Prim_finite false m' e' Hb) as [-> _]. now eexists.
  - destruct (binary_round_int_valid true m) as [[_ Hbig]|(m' & e' & -> & Hb)].
    + specialize (Hbits m). lia.
    + destruct (SF2Prim_finite true m' e' Hb) as [-> _]. now eexists.
Qed.

(** A float equal to zero is not above zero. *)
Lemma eqb_zero_not_positive x : (x =? 0)%float = true -> (0 <? x)%float = false.
Proof.
  rewrite FloatAxioms.eqb_spec, FloatAxioms.ltb_spec, Prim2SF_zero.
  now destruct (Prim2SF x) as [[]|[]| |[] m e].
Qed.

(** Zero divided by any float is not below zero. *)
Lemma zero_div_not_negative y : ((0 / y) <? 0)%float = false.
Proof.
  rewrite FloatAxioms.ltb_spec, FloatAxioms.div_spec, Prim2SF_zero.
  now destruct (Prim2SF y) as [[]|[]| |[] m e].
Qed.

(** ** The estimators *)

Lemma bind_no_zero_division {A B : Type} (m : result A) (f : A -> result B) :
  no_zero_division m ->
  (forall a, m = Ok a -> no_zero_division (f a)) ->
  no_zero_division (bind m f).
Proof.
  unfold no_zero_division. intros Hm Hf Hraise.
  apply bind_Raise in Hraise as [Hraise|(a & Ha & Hraise)]; [auto|].
  now apply (Hf a).
Qed.

Lemma to_float_no_zero_division a : no_zero_division (to_float a).
Proof.
  destruct a as [n|x]; [|discriminate]. unfold to_float, float_of_int.
  now destruct (is_infinity _).
Qed.

Lemma sub_no_zero_division a b : no_zero_division (sub a b).
Proof.
  destruct a, b; try discriminate; unfold sub;
    (apply bind_no_zero_division; [apply to_float_no_zero_division|]; intros ? _;
     apply bind_no_zero_division; [apply to_float_no_zero_division|]; discriminate).
Qed.

Lemma mul_no_zero_division a b : no_zero_division (mul a b).
Proof.
  destruct a, b; try discriminate; unfold mul;
    (apply bind_no_zero_division; [apply to_float_no_zero_division|]; intros ? _;
     apply bind_no_zero_division; [apply to_float_no_zero_division|]; discriminate).
Qed.

Lemma int_truediv_no_zero_division k n :
  n <> 0 -> no_zero_division (int_truediv k n).
Proof.
  intros Hn. unfold int_truediv. destruct (Z.eqb_spec n 0); [contradiction|].
  now destruct (is_infinity _).
Qed.

(** A division by a nonzero int does not raise [ZeroDivisionError],
    whatever the dividend. *)
Lemma truediv_no_zero_division a n :
  n <> 0 -> no_zero_division (truediv a (NInt n)).
Proof.
  intros Hn. destruct a as [k|x]; unfold truediv.
  - apply bind_no_zero_division; [now apply int_truediv_no_zero_division|discriminate].
  - apply bind_no_zero_division; [discriminate|]. intros x' _.
    apply bind_no_zero_division; [apply to_float_no_zero_division|]. intros y Hy.
    cbn [to_float] in Hy. unfold float_truediv.
    rewrite (float_of_int_nonzero n y Hy Hn). discriminate.
Qed.

Lemma math_sqrt_no_zero_division a : no_zero_division (math_sqrt a).
Proof.
  unfold math_sqrt. apply bind_no_zero_division; [apply to_float_no_zero_division|].
  intros x _. now destruct (x <? 0)%float.
Qed.

Lemma wald_no_zero_division z95 p n :
  n <> 0 -> no_zero_division (wald z95 p n).
Proof.
  intros Hn. unfold wald.
  apply bind_no_zero_division; [apply sub_no_zero_division|]. intros q _.
  apply bind_no_zero_division; [apply mul_no_zero_division|]. intros v _.
  apply bind_no_zero_division; [now apply truediv_no_zero_division|]. intros w _.
  apply bind_no_zero_division; [apply math_sqrt_no_zero_division|]. discriminate.
Qed.

(** C7: for every count [k] and base [n] the proportion is [k / n], and [0]
    when [n = 0]; the margin of error is [1.96 * sqrt(p * (1 - p) / n)], and
    [0] when [n = 0]; neither raises a division by zero; with [k = 0] and
    [n = 10] both are the float [0]. *)
Theorem proportion_and_margin_guard_zero_base k n p :
  (n = 0 -> proportion k n = Ok (NInt 0) /\ margin p n = Ok (NInt 0))
  /\ (n <> 0 ->
      proportion k n = (let* q := int_truediv k n in Ok (NFloat q))
      /\ margin p n = (let* e := wald 1.96 p n in Ok (NFloat e)))
  /\ no_zero_division (proportion k n)
  /\ no_zero_division (margin p n)
  /\ proportion 0 10 = Ok (NFloat 0)
  /\ margin (NFloat 0) 10 = Ok (NFloat 0).
Proof.
  assert (Hten : proportion 0 10 = Ok (NFloat 0)
                 /\ margin (NFloat 0) 10 = Ok (NFloat 0))
    by (split; vm_compute; reflexivity).
  revert Hten. generalize (proportion 0 10), (margin (NFloat 0) 10).
  intros r r' Hten. unfold proportion, margin, nonzero.
  destruct (Z.eqb_spec n 0) as [->|Hn]; cbn [negb].
  - split; [intros _; split; reflexivity|].
    split; [intros Hn; now elim Hn|].
    split; [discriminate|]. split; [discriminate|]. exact Hten.
  - split; [intros ->; now elim Hn|].
    split; [intros _; split; reflexivity|].
    split; [now apply truediv_no_zero_division|].
    split; [|exact Hten].
    apply bind_no_zero_division; [now apply wald_no_zero_division|discriminate].
Qed.

(** *** The ratio of the two default-address rates *)

Lemma int_truediv_zero n : 0 < n -> int_truediv 0 n = Ok 0%float.
Proof. destruct n; try lia. reflexivity. Qed.

(** With no occurrence in a group of [n > 0] companies the statistics of
    the group are computed and the proportion is the float zero. *)
Lemma stats_for_ratio_zero_count z95 n :
  0 < n < 2 ^ 1023 ->
  exists moe_p, stats_for_ratio z95 n 0 = Ok (0%float, moe_p).
Proof.
  intros [Hpos Hbig]. unfold stats_for_ratio.
  rewrite (proj2 (Z.ltb_lt 0 n) Hpos), (int_truediv_zero n Hpos). cbn [bind].
  change ((true && (0 <? 0)%float && (0 <? 1)%float)) with false.
  change (true && ((0 =? 0)%float || (0 =? 1)%float)) with true. cbv iota.
  unfold wald.
  change (sub (NInt 1) (NFloat 0)) with (Ok (NFloat 1)). cbn [bind].
  change (mul (NFloat 0) (NFloat 1)) with (Ok (NFloat 0)). cbn [bind].
  unfold truediv. cbn [to_float bind].
  destruct (float_of_int_returns n) as [y Hy]; [lia|]. step Hy.
  unfold float_truediv. rewrite (float_of_int_nonzero n y Hy) by lia. cbn [bind].
  unfold math_sqrt. cbn [to_float bind]. rewrite zero_div_not_negative.
  cbn [bind]. now eexists.
Qed.

(** *** Python's operations on floats of known sign *)

(** [float(n)] of a positive int is a positive float. *)
Lemma float_of_int_positive n y :
  float_of_int n = Ok y -> 0 < n ->
  exists m e, Prim2SF y = S754_finite false m e.
Proof.
  unfold float_of_int. intros Hy Hn. destruct n as [|m|m]; try lia.
  unfold binary_normalize in Hy.
  destruct (binary_round_int_valid false m) as [[Hinf _]|(m' & e' & Hfin & Hb)].
  - rewrite Hinf, is_infinity_SF2Prim_infinity in Hy. discriminate.
  - rewrite Hfin in Hy. destruct (SF2Prim_finite false m' e' Hb) as [Hi _].
    rewrite Hi in Hy. injection Hy as <-. exists m', e'.
    exact (Prim2SF_SF2Prim (S754_finite false m' e') Hb).
Qed.

Lemma one_minus_not_negative p :
  (p <=? 1)%float = true -> not_negative (Prim2SF (1 - p)).
Proof.
  rewrite FloatAxioms.leb_spec, FloatAxioms.sub_spec, Prim2SF_one. intros Hle.
  apply SFsub_one_not_negative; [apply Prim2SF_valid | assumption].
Qed.

(** The argument of the square root in the margin of a proportion between
    0 and 1 is not below zero. *)
Lemma wald_argument_not_negative p y m e :
  not_negative (Prim2SF p) ->
  (p <=? 1)%float = true ->
  Prim2SF y = S754_finite false m e ->
  ((p * (1 - p) / y) <? 0)%float = false.
Proof.
  intros Hp Hle Hy.
  rewrite FloatAxioms.ltb_spec, FloatAxioms.div_spec, FloatAxioms.mul_spec,
    Hy, Prim2SF_zero.
  apply not_negative_ltb_zero, SFdiv_not_negative, SFmul_not_negative;
    [assumption | now apply one_minus_not_negative].
Qed.

(** The margin of a proportion between 0 and 1 over a positive base is
    computed. *)
Lemma wald_returns z95 p n :
  0 < n < 2 ^ 1023 ->
  not_negative (Prim2SF p) ->
  (p <=? 1)%float = true ->
  returns (wald z95 (NFloat p) n).
Proof.
  intros [Hpos Hbig] Hp Hle. unfold wald.
  change (sub (NInt 1) (NFloat p)) with (Ok (NFloat (1 - p)%float)). cbn [bind].
  cbn [mul to_float bind]. unfold truediv. cbn [to_float bind].
  destruct (float_of_int_returns n) as [y Hy]; [lia|]. step Hy.
  unfold float_truediv. rewrite (float_of_int_nonzero n y Hy) by lia. cbn [bind].
  unfold math_sqrt. cbn [to_float bind].
  destruct (float_of_int_positive n y Hy Hpos) as (m & e & Hsf).
  rewrite (wald_argument_not_negative p y m e Hp Hle Hsf). cbn [bind].
  now eexists.
Qed.

(** The quotient of a count by a positive base is computed and is not
    below zero. *)
Lemma int_truediv_returns k n :
  0 <= k < 2 ^ 1023 -> 0 < n < 2 ^ 1021 ->
  exists p, int_truediv k n = Ok p /\ not_negative (Prim2SF p).
Proof.
  intros [Hk Hkbig] [Hn Hnbig].
  destruct k as [|c|c]; try lia.
  { exists 0%float. split; [now apply int_truediv_zero | exact I]. }
  destruct n as [|m2|m2]; try lia.
  unfold int_truediv. change (Z.pos m2 =? 0) with false. cbv iota.
  cbn [Z2SF SFdiv xorb].
  destruct (SFdiv_core_int c m2) as (q & ez & lz & -> & Hq53 & Hqlo & Hqhi).
  { apply digits2_pos_upper; [lia | assumption]. }
  pose proof (digits2_pos_upper c 1023 ltac:(lia) Hkbig) as Hd1.
  destruct (binary_round_aux_valid false q ez lz Hq53 Hqlo)
    as [[_ Hover]|(m' & e' & -> & Hb)]; [lia|].
  destruct (SF2Prim_finite false m' e' Hb) as [-> _].
  eexists. split; [reflexivity|].
  now rewrite (Prim2SF_SF2Prim (S754_finite false m' e') Hb).
Qed.

Lemma ltb_leb p q : (p <? q)%float = true -> (p <=? q)%float = true.
Proof.
  rewrite FloatAxioms.ltb_spec, FloatAxioms.leb_spec. unfold SFltb, SFleb.
  now destruct (SFcompare _ _) as [[]|].
Qed.

Lemma eqb_leb p q : (p =? q)%float = true -> (p <=? q)%float = true.
Proof.
  rewrite FloatAxioms.eqb_spec, FloatAxioms.leb_spec. unfold SFeqb, SFleb.
  now destruct (SFcompare _ _) as [[]|].
Qed.

Lemma eqb_zero_leb_one p : (p =? 0)%float = true -> (p <=? 1)%float = true.
Proof.
  rewrite FloatAxioms.eqb_spec, FloatAxioms.leb_spec, Prim2SF_zero, Prim2SF_one.
  now destruct (Prim2SF p) as [[]|[]| |[] m e].
Qed.

(** The statistics of a group are computed for every count and base that a
    sample can give. *)
Lemma stats_for_ratio_returns z95 n count :
  0 <= count < 2 ^ 1023 -> n < 2 ^ 1021 ->
  returns (stats_for_ratio z95 n count).
Proof.
  intros Hcount Hn. unfold stats_for_ratio.
  destruct (Z.ltb_spec 0 n) as [Hpos|Hneg]; [|now eexists].
  destruct (int_truediv_returns count n Hcount (conj Hpos Hn)) as (p & -> & Hp).
  cbn [bind andb].
  assert (Hbase : 0 < n < 2 ^ 1023).
  { split; [assumption|].
    assert (2 ^ 1021 <= 2 ^ 1023) by (apply Z.pow_le_mono_r; lia). lia. }
  destruct ((0 <? p)%float && (p <? 1)%float) eqn:Hinside.
  - apply andb_true_iff in Hinside as [_ Hlt].
    destruct (wald_returns z95 p n Hbase Hp (ltb_leb _ _ Hlt)) as [moe ->].
    now eexists.
  - destruct ((p =? 0)%float || (p =? 1)%float) eqn:Hedge; [|now eexists].
    assert (Hle : (p <=? 1)%float = true).
    { apply orb_true_iff in Hedge as [Hz|Ho];
        [now apply eqb_zero_leb_one | now apply eqb_leb]. }
    destruct (wald_returns z95 p n Hbase Hp Hle) as [moe ->]. now eexists.
Qed.

(** The proportion of a group is the quotient, under the guard [n > 0]. *)
Lemma stats_for_ratio_proportion z95 n count p moe_p :
  stats_for_ratio z95 n count = Ok (p, moe_p) ->
  (if 0 <? n then int_truediv count n else Ok 0%float) = Ok p.
Proof.
  unfold stats_for_ratio. intros Hrun. bind_inv Hrun. bind_inv Hrun.
  now injection Hrun as <- _.
Qed.

(** C2: the ratio estimator divides by [p_uk] without a guard.  Whenever
    the proportion of the [with_uk] group is zero,
    [calculate_and_print_default_address_ratio] returns no result, and what
    it raises is [ZeroDivisionError] as soon as the statistics of the
    [without_uk] group, which it evaluates first, are computed.  So it is
    when [with_uk] counts no company, and when it counts some company but
    none with a default address: for all counts that a sample can give
    the outcome is [ZeroDivisionError], and for no counts at all is there a
    result.  Every other proportion and margin over a base of zero is
    [0]. *)
Theorem ratio_raises_on_zero_uk_proportion `{Libm} c m z95 :
  let uk := stats_for_ratio z95 (with_uk c) (default_address (of_with_uk m)) in
  let foreign :=
    stats_for_ratio z95 (without_uk c) (default_address (of_without_uk m)) in
  let outcome := calculate_and_print_default_address_ratio c m z95 in
  let no_uk_default :=
    with_uk c = 0 \/ (0 < with_uk c /\ default_address (of_with_uk m) = 0) in
  (forall p_uk moe_p_uk,
     uk = Ok (p_uk, moe_p_uk) ->
     (p_uk =? 0)%float = true ->
     ~ returns outcome
     /\ (returns foreign -> outcome = Raise ZeroDivisionError))
  /\ (no_uk_default -> ~ returns outcome)
  /\ (no_uk_default ->
      with_uk c < 2 ^ 1021 ->
      without_uk c < 2 ^ 1021 ->
      0 <= default_address (of_without_uk m) < 2 ^ 1023 ->
      outcome = Raise ZeroDivisionError)
  /\ (forall k p,
        proportion k 0 = Ok (NInt 0)
        /\ margin p 0 = Ok (NInt 0)
        /\ indicator_line k 0 = Ok (k, NInt 0, NInt 0)
        /\ stats_for_ratio z95 0 k = Ok (0%float, 0%float)).
Proof.
  intros uk foreign outcome no_uk_default.
  assert (Hgen : forall p_uk moe_p_uk,
     uk = Ok (p_uk, moe_p_uk) ->
     (p_uk =? 0)%float = true ->
     ~ returns outcome
     /\ (returns foreign -> outcome = Raise ZeroDivisionError)).
  { intros p_uk moe_p_uk Huk Hzero. subst outcome.
    unfold calculate_and_print_default_address_ratio. cbn [counts_at metrics_at].
    fold uk foreign. step Huk.
    destruct foreign as [[p_foreign moe_p_foreign]|e]; cbn [bind].
    - unfold float_truediv. rewrite Hzero. cbn [bind].
      split; [now intros [r Hr] | reflexivity].
    - split; [now intros [r Hr] | now intros [r Hr]]. }
  assert (Hnever : no_uk_default -> ~ returns outcome).
  { intros [Hn|[Hn Hk]].
    - apply (Hgen 0%float 0%float); [|reflexivity]. subst uk. now rewrite Hn.
    - subst uk. rewrite Hk in Hgen.
      destruct (stats_for_ratio z95 (with_uk c) 0) as [[p_uk moe_p_uk]|e] eqn:Huk.
      + apply (Hgen p_uk moe_p_uk eq_refl).
        apply stats_for_ratio_proportion in Huk.
        rewrite (proj2 (Z.ltb_lt 0 _) Hn), (int_truediv_zero _ Hn) in Huk.
        now injection Huk as <-.
      + subst outcome. unfold calculate_and_print_default_address_ratio.
        cbn [counts_at metrics_at]. rewrite Hk, Huk. now intros [r Hr]. }
  split; [exact Hgen|]. split; [exact Hnever|]. split.
  - intros Hzero Huk Hbase Hcount.
    assert (Hforeign : returns foreign) by now apply stats_for_ratio_returns.
    destruct Hzero as [Hn|[Hn Hk]].
    + apply (Hgen 0%float 0%float); [|reflexivity|assumption].
      subst uk. now rewrite Hn.
    + assert (Hbig : 0 < with_uk c < 2 ^ 1023).
      { split; [assumption|].
        assert (2 ^ 1021 <= 2 ^ 1023) by (apply Z.pow_le_mono_r; lia). lia. }
      destruct (stats_for_ratio_zero_count z95 (with_uk c) Hbig) as [moe_p Hstats].
      subst uk. rewrite Hk in Hgen. now apply (Hgen 0%float moe_p).
  - intros k p. repeat split.
Qed.

Lemma rel_err_sq_Ok `{Libm} p moe_p term :
  rel_err_sq p moe_p = Ok term -> is_rel_err_sq p moe_p term.
Proof.
  unfold rel_err_sq, is_rel_err_sq.
  destruct ((0 <? p)%float && (0 <? moe_p)%float) eqn:Hcond; intros Hrun.
  - split; [intros _|discriminate].
    bind_inv Hrun. unfold float_truediv in E.
    destruct (p =? 0)%float; [discriminate|]. now injection E as <-.
  - split; [discriminate|intros _]. now injection Hrun as <-.
Qed.

Lemma moe_of_ratio_Ok ratio rel_f rel_uk moe_ratio :
  moe_of_ratio ratio rel_f rel_uk = Ok moe_ratio ->
  ((ratio =? 0)%float = false ->
   (0 <? rel_f)%float || (0 <? rel_uk)%float = true ->
   moe_ratio = (abs ratio * sqrt (rel_f + rel_uk))%float)
  /\ ((ratio =? 0)%float = true \/ (rel_f =? 0)%float && (rel_uk =? 0)%float = true ->
      moe_ratio = 0%float).
Proof.
  unfold moe_of_ratio. intros Hrun. split.
  - intros Hratio Hterms. rewrite Hratio, Hterms in Hrun. cbn [negb] in Hrun.
    bind_inv Hrun. unfold math_sqrt in E. cbn [to_float bind] in E.
    destruct (_ <? 0)%float; [discriminate|]. injection E as <-.
    now injection Hrun as <-.
  - intros [Hratio|[Hf Huk]%andb_true_iff].
    + rewrite Hratio in Hrun. now injection Hrun as <-.
    + rewrite (eqb_zero_not_positive _ Hf), (eqb_zero_not_positive _ Huk) in Hrun.
      destruct (negb _); now injection Hrun as <-.
Qed.

(** C9: whenever the ratio estimator returns, the term of each side is
    [(moe_p / p)²] when [p > 0] and [moe_p > 0] and [0] otherwise;
    [moe_ratio] is [|ratio| * sqrt] of the sum of the two terms when
    [ratio] is not zero and a term is positive, and [0] when [ratio] is
    zero or both terms are. *)
Theorem ratio_margin_in_quadrature `{Libm} c m z95 ratio moe_ratio :
  calculate_and_print_default_address_ratio c m z95 = Ok (ratio, moe_ratio) ->
  exists p_uk moe_p_uk p_foreign moe_p_foreign rel_err_sq_foreign rel_err_sq_uk,
    stats_for_ratio z95 (with_uk c) (default_address (of_with_uk m))
    = Ok (p_uk, moe_p_uk)
    /\ stats_for_ratio z95 (without_uk c) (default_address (of_without_uk m))
       = Ok (p_foreign, moe_p_foreign)
    /\ (p_uk =? 0)%float = false
    /\ ratio = (p_foreign / p_uk)%float
    /\ is_rel_err_sq p_foreign moe_p_foreign rel_err_sq_foreign
    /\ is_rel_err_sq p_uk moe_p_uk rel_err_sq_uk
    /\ ((ratio =? 0)%float = false ->
        (0 <? rel_err_sq_foreign)%float || (0 <? rel_err_sq_uk)%float = true ->
        moe_ratio = (abs ratio * sqrt (rel_err_sq_foreign + rel_err_sq_uk))%float)
    /\ ((ratio =? 0)%float = true
        \/ (rel_err_sq_foreign =? 0)%float && (rel_err_sq_uk =? 0)%float = true ->
        moe_ratio = 0%float).
Proof.
  unfold calculate_and_print_default_address_ratio. cbn [counts_at metrics_at].
  intros Hrun. bind_inv Hrun. bind_inv Hrun.
  destruct a as [p_uk moe_p_uk], a0 as [p_foreign moe_p_foreign].
  bind_inv Hrun. bind_inv Hrun. bind_inv Hrun. bind_inv Hrun.
  injection Hrun as <- <-.
  exists p_uk, moe_p_uk, p_foreign, moe_p_foreign, a0, a1.
  unfold float_truediv in E1. destruct (p_uk =? 0)%float eqn:Hz; [discriminate|].
  injection E1 as <-.
  do 4 (split; [assumption || reflexivity|]).
  split; [now apply rel_err_sq_Ok|]. split; [now apply rel_err_sq_Ok|].
  now apply moe_of_ratio_Ok.
Qed.

(** * Further properties *)

(** ** The variant set, continued *)

Section VariantLines.

Context `{Text}.

(** X1: the variant set depends only on which lines the file holds, not on
    their order or number; the set of two files joined is the union of
    their sets; a blank line adds nothing; the empty string is never a
    variant. *)
Theorem variant_set_depends_on_the_lines_only :
  (forall lines lines',
     (forall line, In line lines <-> In line lines') ->
     load_UK_variants lines = load_UK_variants lines')
  /\ (forall lines lines',
        load_UK_variants (lines ++ lines')
        = load_UK_variants lines ∪ load_UK_variants lines')
  /\ (forall line lines,
        strip line = "" -> load_UK_variants (line :: lines) = load_UK_variants lines)
  /\ (forall lines, "" ∉ load_UK_variants lines).
Proof.
  split; [|split; [|split]].
  - intros lines lines' Hsame. apply set_eq. intros x.
    rewrite !elem_of_load_UK_variants. split; intros (line & Hl & Hne & ->);
      exists line; (split; [now apply Hsame | now split]).
  - intros lines lines'. apply set_eq. intros x.
    rewrite elem_of_union, !elem_of_load_UK_variants. split.
    + intros (line & Hl & Hne & ->). apply in_app_or in Hl as [Hl|Hl];
        [left | right]; now exists line.
    + intros [(line & Hl & Hne & ->)|(line & Hl & Hne & ->)]; exists line;
        (split; [apply in_or_app; auto | now split]).
  - intros line lines Hblank. apply set_eq. intros x.
    rewrite !elem_of_load_UK_variants. split.
    + intros (l & [<-|Hl] & Hne & ->); [contradiction|]. now exists l.
    + intros (l & Hl & Hne & ->). exists l. split; [now right | now split].
  - apply empty_not_UK_variant.
Qed.

(** A file of blank lines gives no variant. *)
Lemma load_UK_variants_blank lines :
  (forall line, In line lines -> strip line = "") -> load_UK_variants lines = ∅.
Proof.
  intros Hblank. apply set_eq. intros x. rewrite elem_of_load_UK_variants. split.
  - intros (line & Hl & Hne & _). now elim Hne; apply Hblank.
  - intros Hx. now apply elem_of_empty in Hx.
Qed.

End VariantLines.

(** ** The order of [str] and sorted listings *)

Lemma str_le_trans a : forall b c, str_le a b -> str_le b c -> str_le a c.
Proof.
  unfold str_le, String.leb.
  induction a as [|x a IH]; intros [|y b] [|z c]; simpl; try congruence.
  unfold Ascii.compare.
  destruct (N.compare_spec (N_of_ascii x) (N_of_ascii y)) as [Hxy|Hxy|Hxy];
    destruct (N.compare_spec (N_of_ascii y) (N_of_ascii z)) as [Hyz|Hyz|Hyz];
    destruct (N.compare_spec (N_of_ascii x) (N_of_ascii z)) as [Hxz|Hxz|Hxz];
    try lia; try congruence.
  apply IH.
Qed.

#[global] Instance str_le_transitive : Transitive str_le.
Proof. intros a b c. apply str_le_trans. Qed.

#[global] Instance str_le_total : Total str_le.
Proof. intros a b. apply String.leb_total. Qed.

Lemma StronglySorted_filter {A : Type} (R : relation A) (f : A -> bool) l :
  StronglySorted R l -> StronglySorted R (List.filter f l).
Proof.
  induction 1 as [|x l Hl IH Hx]; simpl; [constructor|].
  destruct (f x); [|assumption]. constructor; [assumption|].
  apply List.Forall_forall. intros y Hy. apply filter_In in Hy as [Hy _].
  now apply (proj1 (List.Forall_forall _ _) Hx).
Qed.

(** A filter keeps at most the items of the list, and all of them exactly
    when all pass. *)
Lemma filter_length_all {A : Type} (f : A -> bool) (l : list A) :
  (length (List.filter f l) <= length l)%nat
  /\ (length (List.filter f l) = length l <-> forall x, In x l -> f x = true).
Proof.
  induction l as [|x l [IHle IHeq]]; simpl.
  - split; [lia|]. split; [contradiction | reflexivity].
  - destruct (f x) eqn:Hx; simpl.
    + split; [lia|]. split.
      * intros Hlen y [<-|Hy]; [assumption|]. apply IHeq; [lia | assumption].
      * intros Hall. f_equal. apply IHeq. auto.
    + split; [lia|]. split; [lia|]. intros Hall.
      rewrite (Hall x) in Hx by now left. discriminate.
Qed.

Lemma filter_length_mono {A : Type} (f g : A -> bool) (l : list A) :
  (forall x, In x l -> f x = true -> g x = true) ->
  (length (List.filter f l) <= length (List.filter g l))%nat.
Proof.
  induction l as [|x l IH]; intros Himp; [reflexivity|].
  specialize (IH (fun y Hy => Himp y (or_intror Hy))).
  specialize (Himp x (or_introl eq_refl)). cbn [List.filter].
  destruct (f x), (g x); cbn [length];
    first [lia | now specialize (Himp eq_refl)].
Qed.

Lemma filter_none {A : Type} (f : A -> bool) (l : list A) :
  (forall x, f x = false) -> List.filter f l = [].
Proof.
  intros Hf. induction l as [|x l IH]; [reflexivity|]. simpl. now rewrite Hf.
Qed.

Lemma filter_both {A : Type} (f g : A -> bool) (l : list A) :
  List.filter (fun x => f x && g x) l = List.filter g (List.filter f l).
Proof.
  induction l as [|x l IH]; [reflexivity|].
  cbn [List.filter]. destruct (f x); cbn [andb List.filter]; now rewrite IH.
Qed.

(** [sorted] lists the elements of the set, each once, in ascending order. *)
Lemma sorted_spec (countries : gset string) :
  (forall c, In c (sorted countries) <-> c ∈ countries)
  /\ NoDup (sorted countries)
  /\ StronglySorted str_le (sorted countries)
  /\ length (sorted countries) = size countries.
Proof.
  unfold sorted.
  pose proof (merge_sort_Permutation str_le (elements countries)) as Hperm.
  split; [|split; [|split]].
  - intros c. rewrite <- list_elem_of_In, Hperm. apply elem_of_elements.
  - rewrite Hperm. apply NoDup_elements.
  - apply StronglySorted_merge_sort; apply _.
  - now rewrite Hperm.
Qed.

(** ** Sums over a sample *)

Lemma sum_over_filter {A : Type} (f : A -> bool) (w : A -> Z) (l : list A) :
  sum_over (fun x => if f x then w x else 0) l = sum_over w (List.filter f l).
Proof.
  unfold sum_over. induction l as [|x l IH]; [reflexivity|].
  cbn [map fold_right List.filter]. rewrite IH. now destruct (f x).
Qed.

Lemma sum_over_bounds {A : Type} (w : A -> Z) (lo hi : Z) (l : list A) :
  (forall x, In x l -> lo <= w x <= hi) ->
  lo * Z.of_nat (length l) <= sum_over w l <= hi * Z.of_nat (length l).
Proof.
  unfold sum_over. induction l as [|x l IH]; intros Hall; [simpl; lia|].
  cbn [map fold_right length]. rewrite Nat2Z.inj_succ.
  specialize (IH (fun y Hy => Hall y (or_intror Hy))).
  specialize (Hall x (or_introl eq_refl)). lia.
Qed.

Lemma sum_over_not_negative {A : Type} (w : A -> Z) (l : list A) :
  (forall x, 0 <= w x) -> 0 <= sum_over w l.
Proof.
  intros Hw. unfold sum_over. induction l as [|x l IH]; [simpl; lia|].
  cbn [map fold_right]. specialize (Hw x). lia.
Qed.

(** ** The loop combinator, continued *)

(** A loop whose rounds only add to a set: the elements after the loop. *)
Lemma for_each_collect {A : Type} (body : gset string -> A -> result (gset string))
    (P : A -> string -> Prop) (l : list A) :
  (forall cs a cs', body cs a = Ok cs' -> forall x, x ∈ cs' <-> x ∈ cs \/ P a x) ->
  forall cs cs', for_each body cs l = Ok cs' ->
  forall x, x ∈ cs' <-> x ∈ cs \/ exists a, In a l /\ P a x.
Proof.
  intros Hstep. induction l as [|a l IH]; intros cs cs' Hrun x; simpl in Hrun.
  - injection Hrun as <-. split; [now left|]. now intros [Hx|(a & [] & _)].
  - bind_inv Hrun. rewrite (IH _ _ Hrun x), (Hstep _ _ _ E x). split.
    + intros [[Hx|Hx]|(b & Hb & Hx)]; [now left| |]; right.
      * exists a. split; [now left | assumption].
      * exists b. split; [now right | assumption].
    + intros [Hx|(b & [<-|Hb] & Hx)]; [now do 2 left | now left; right |].
      right. now exists b.
Qed.

(** A loop whose rounds return or raise whatever the state: it returns
    exactly when every round does. *)
Lemma for_each_returns_iff {S A : Type} (body : S -> A -> result S)
    (Q : A -> Prop) (l : list A) :
  (forall s x, returns (body s x) <-> Q x) ->
  forall s, returns (for_each body s l) <-> Forall Q l.
Proof.
  intros Hbody s. split.
  - intros [s' Hrun]. apply for_each_each in Hrun.
    eapply List.Forall_impl; [|exact Hrun]. intros x (s1 & s2 & Hx).
    apply (Hbody s1). now exists s2.
  - intros Hall. apply for_each_returns. intros s0 x Hx. apply Hbody.
    now apply (proj1 (List.Forall_forall _ _) Hall).
Qed.

Lemma bind_lookup {A B : Type} (m : result A) (f : A -> result B) :
  raises_only_lookup_errors m ->
  (forall a, m = Ok a -> raises_only_lookup_errors (f a)) ->
  raises_only_lookup_errors (bind m f).
Proof.
  intros Hm Hf e Hraise.
  apply bind_Raise in Hraise as [Hraise|(a & Ha & Hraise)]; [now apply Hm|].
  now apply (Hf a).
Qed.

Lemma for_each_lookup {S A : Type} (body : S -> A -> result S) (l : list A) :
  (forall s x, raises_only_lookup_errors (body s x)) ->
  forall s, raises_only_lookup_errors (for_each body s l).
Proof.
  intros Hbody. induction l as [|x l IH]; intros s; cbn [for_each].
  - discriminate.
  - apply bind_lookup; [apply Hbody | intros s' _; apply IH].
Qed.

Lemma Ok_lookup {A : Type} (a : A) : raises_only_lookup_errors (Ok a).
Proof. discriminate. Qed.

Lemma get_default_lookup v k dflt : raises_only_lookup_errors (get_default v k dflt).
Proof. destruct v; intros e [= <-]; now left. Qed.

Lemma values_lookup v : raises_only_lookup_errors (values v).
Proof. destruct v; intros e [= <-]; now left. Qed.

Lemma py_iter_lookup v : raises_only_lookup_errors (py_iter v).
Proof. destruct v; intros e [= <-]; now right. Qed.

(** ** The country listing *)

Section Listing.

Context `{Text}.

Variable uk_variants : gset string.

Lemma add_country_elem countries c countries' :
  add_country countries c = Ok countries' ->
  forall x, x ∈ countries'
            <-> x ∈ countries \/ exists s, c = JStr s /\ s <> "" /\ x = strip s.
Proof.
  unfold add_country. destruct (truthy c) eqn:Ht.
  - destruct c; try discriminate. intros [= <-] x.
    simpl in Ht. apply negb_true_iff, String.eqb_neq in Ht.
    rewrite elem_of_union, elem_of_singleton. split.
    + intros [->|Hx]; [right; eauto | now left].
    + intros [Hx|(s' & [= <-] & _ & ->)]; [now right | now left].
  - intros [= <-] x. split; [now left|]. intros [Hx|(s & -> & Hs & _)]; [assumption|].
    simpl in Ht. apply negb_false_iff, String.eqb_eq in Ht. contradiction.
Qed.

Lemma extract_officer_elem countries officer countries' :
  extract_officer countries officer = Ok countries' ->
  forall x, x ∈ countries'
            <-> x ∈ countries \/ exists s, gives_country officer s /\ x = strip s.
Proof.
  unfold extract_officer. intros Hrun. bind_inv Hrun. bind_inv Hrun. bind_inv Hrun.
  intros x. rewrite (add_country_elem _ _ _ Hrun x), (add_country_elem _ _ _ E1 x).
  unfold gives_country. rewrite E, E0. split.
  - intros [[Hx|(s & -> & Hs & ->)]|(s & -> & Hs & ->)]; [now left| |];
      right; exists s; auto.
  - intros [Hx|(s & [[[= ->]|[= ->]] Hs] & ->)]; [now do 2 left| |].
    + left. right. now exists s.
    + right. now exists s.
Qed.

Lemma extract_company_elem countries info countries' :
  extract_company countries info = Ok countries' ->
  forall x, x ∈ countries'
            <-> x ∈ countries
                \/ exists officer, In officer (directors_list info)
                     /\ exists s, gives_country officer s /\ x = strip s.
Proof.
  unfold extract_company, directors_list. intros Hrun. bind_inv Hrun. rewrite E.
  now apply (for_each_collect extract_officer
               (fun officer x => exists s, gives_country officer s /\ x = strip s)
               a extract_officer_elem).
Qed.

(** A country that a director of the sample gives is extracted. *)
Lemma given_country_is_extracted sampled_companies countries infos info officer s :
  extract_director_countries sampled_companies = Ok countries ->
  values sampled_companies = Ok infos ->
  In info infos -> In officer (directors_list info) -> gives_country officer s ->
  strip s ∈ countries.
Proof.
  unfold extract_director_countries. intros Hrun Hv Hinfo Hofficer Hs.
  rewrite Hv in Hrun. cbn [bind] in Hrun.
  apply (for_each_collect extract_company _ infos extract_company_elem _ _ Hrun).
  right. exists info. split; [assumption|]. exists officer. split; [assumption|].
  now exists s.
Qed.

(** X2: the set that [extract_director_countries] returns holds exactly the
    stripped residence and address countries of the directors of the
    sample: for each director the resolved residence country and the
    address country, when they are non-empty strings. *)
Theorem extracted_countries_are_those_given sampled_companies countries :
  extract_director_countries sampled_companies = Ok countries ->
  exists infos,
    values sampled_companies = Ok infos
    /\ forall x,
         x ∈ countries
         <-> exists info officer s,
               In info infos /\ In officer (directors_list info)
               /\ gives_country officer s /\ x = strip s.
Proof.
  unfold extract_director_countries. intros Hrun. bind_inv Hrun.
  exists a. split; [assumption|]. intros x.
  rewrite (for_each_collect extract_company _ a extract_company_elem _ _ Hrun x).
  split.
  - intros [Hx|(info & Hinfo & officer & Hofficer & s & Hs & ->)];
      [now apply elem_of_empty in Hx|]. now exists info, officer, s.
  - intros (info & officer & s & Hinfo & Hofficer & Hs & ->). right.
    exists info. split; [assumption|]. exists officer. split; [assumption|].
    now exists s.
Qed.

Lemma inspect_countries_Ok sampled n listed :
  inspect_countries sampled uk_variants = Ok (n, listed) ->
  exists countries,
    extract_director_countries sampled = Ok countries
    /\ n = Z.of_nat (size countries)
    /\ listed
       = List.filter (fun c => negb (bool_decide (casefold (strip c) ∈ uk_variants)))
           (sorted countries).
Proof.
  unfold inspect_countries. intros Hrun. bind_inv Hrun.
  injection Hrun as <- <-. now exists a.
Qed.

Lemma In_listed sampled n listed countries c :
  inspect_countries sampled uk_variants = Ok (n, listed) ->
  extract_director_countries sampled = Ok countries ->
  In c listed <-> c ∈ countries /\ casefold (strip c) ∉ uk_variants.
Proof.
  intros Hrun Hc. apply inspect_countries_Ok in Hrun as (cs & Hcs & _ & ->).
  rewrite Hc in Hcs. injection Hcs as <-.
  rewrite filter_In, (proj1 (sorted_spec countries)), negb_true_iff,
    bool_decide_eq_false. reflexivity.
Qed.

(** X3: the number that [inspect_countries] announces is the number of all
    the countries extracted, those of the variant set included, although
    the listing that follows leaves these out: the listing holds, in
    ascending order and each once, the extracted countries that are not in
    the variant set after stripping and case-folding, so it is as long as
    the number announced only when no extracted country is a variant. *)
Theorem announced_number_counts_every_country sampled n listed :
  inspect_countries sampled uk_variants = Ok (n, listed) ->
  exists countries,
    extract_director_countries sampled = Ok countries
    /\ n = Z.of_nat (size countries)
    /\ (forall c, In c listed <-> c ∈ countries /\ casefold (strip c) ∉ uk_variants)
    /\ NoDup listed
    /\ StronglySorted str_le listed
    /\ Z.of_nat (length listed) <= n
    /\ (Z.of_nat (length listed) = n
        <-> forall c, c ∈ countries -> casefold (strip c) ∉ uk_variants).
Proof.
  intros Hrun. pose proof Hrun as Hrun'.
  apply inspect_countries_Ok in Hrun' as (countries & Hc & -> & Hlisted).
  exists countries. do 2 (split; [assumption || reflexivity|]).
  split; [intros c; now apply (In_listed sampled _ _ _ c Hrun)|].
  destruct (sorted_spec countries) as (Hin & Hnodup & Hsorted & Hlen).
  set (keep := fun c => negb (bool_decide (casefold (strip c) ∈ uk_variants))) in *.
  destruct (filter_length_all keep (sorted countries)) as [Hle Heq].
  subst listed. split; [|split; [|split]].
  - apply NoDup_ListNoDup, List.NoDup_filter, NoDup_ListNoDup, Hnodup.
  - now apply StronglySorted_filter.
  - rewrite <- Hlen. lia.
  - rewrite <- Hlen, Nat2Z.inj_iff, Heq. split.
    + intros Hall c Hc'. specialize (Hall c (proj2 (Hin c) Hc')). unfold keep in Hall.
      now apply negb_true_iff, bool_decide_eq_false in Hall.
    + intros Hall c Hc'. unfold keep.
      apply negb_true_iff, bool_decide_eq_false, Hall, Hin, Hc'.
Qed.

(** X4: where stripping a stripped string changes nothing, the listing of
    [inspect_countries] shows a country that a director of the sample
    gives exactly when the membership test of the classifiers rejects that
    country. *)
Theorem listing_shows_what_the_classifiers_reject
    sampled n listed infos info officer s :
  (forall t, strip (strip t) = strip t) ->
  inspect_countries sampled uk_variants = Ok (n, listed) ->
  values sampled = Ok infos ->
  In info infos -> In officer (directors_list info) -> gives_country officer s ->
  In (strip s) listed <-> names_uk uk_variants (JStr s) = Ok false.
Proof.
  intros Hidem Hrun Hv Hinfo Hofficer Hs.
  pose proof Hrun as Hrun'.
  apply inspect_countries_Ok in Hrun' as (countries & Hc & _ & _).
  rewrite (In_listed sampled n listed countries (strip s) Hrun Hc), Hidem.
  pose proof (given_country_is_extracted _ _ _ _ _ _ Hc Hv Hinfo Hofficer Hs)
    as Hmember.
  unfold names_uk. destruct Hs as [_ Hne].
  cbn [truthy]. rewrite (proj2 (String.eqb_neq s "") Hne). cbn [negb].
  split.
  - intros [_ Hout]. now rewrite (bool_decide_eq_false_2 _ Hout).
  - intros [= Hout]. apply bool_decide_eq_false in Hout. now split.
Qed.

(** *** When the extraction returns *)

Lemma add_country_returns countries c :
  returns (add_country countries c) <-> country_like c.
Proof.
  unfold add_country, country_like. destruct (truthy c) eqn:Ht.
  - destruct c; split; try (intros [? [=]]); try (intros [[=]|[? [=]]]).
    + right. now eexists.
    + now eexists.
  - split; [now left | intros _; now eexists].
Qed.

Lemma extract_officer_returns countries officer :
  returns (extract_officer countries officer) <-> wf_officer officer.
Proof.
  unfold extract_officer, wf_officer. split.
  - intros [cs Hrun]. bind_inv Hrun. bind_inv Hrun. bind_inv Hrun.
    exists a, a0. repeat split; try assumption.
    + apply (add_country_returns countries). eexists. eassumption.
    + apply (add_country_returns a1). eexists. eassumption.
  - intros (r & a & -> & Hr & -> & Ha). cbn [bind].
    destruct (proj2 (add_country_returns countries r) Hr) as [cs ->]. cbn [bind].
    now apply add_country_returns.
Qed.

Lemma extract_company_returns countries info :
  returns (extract_company countries info) <-> readable_directors info.
Proof.
  unfold extract_company, readable_directors.
  destruct (directors_of info) as [officers|e]; cbn [bind].
  - rewrite (for_each_returns_iff extract_officer wf_officer officers
               extract_officer_returns). split.
    + intros Hall. now exists officers.
    + now intros (officers' & [= <-] & Hall).
  - split; [now intros [x Hx] | now intros (officers & Hd & _)].
Qed.

Lemma extract_director_countries_returns sampled_companies :
  returns (extract_director_countries sampled_companies)
  <-> exists infos, values sampled_companies = Ok infos
                    /\ Forall readable_directors infos.
Proof.
  unfold extract_director_countries.
  destruct (values sampled_companies) as [infos|e]; cbn [bind].
  - rewrite (for_each_returns_iff extract_company readable_directors infos
               extract_company_returns). split.
    + intros Hall. now exists infos.
    + now intros (infos' & [= <-] & Hall).
  - split; [now intros [x Hx] | now intros (infos & Hv & _)].
Qed.

Lemma wf_company_parts info :
  wf_company info <-> readable_directors info /\ has_company_data info.
Proof.
  unfold wf_company, readable_directors, has_company_data. split.
  - intros (officers & fields & Hd & Hwf & Hdata). split; eauto.
  - intros [(officers & Hd & Hwf) (fields & Hdata)]. eauto.
Qed.

(** X5: a sample on which [extract_director_countries] returns is a
    mapping of companies whose directors are all director records; on such
    a sample the counting pass returns for every variant set, and
    [analyze_compliance] returns exactly when the company data of every
    company is a mapping or is missing. *)
Theorem sample_that_is_listed_is_counted sampled :
  returns (extract_director_countries sampled) ->
  exists infos,
    values sampled = Ok infos
    /\ Forall readable_directors infos
    /\ returns (count_companies_by_uk_director_status sampled uk_variants)
    /\ forall today,
         returns (analyze_compliance sampled uk_variants today)
         <-> Forall has_company_data infos.
Proof.
  intros (infos & Hv & Hread)%extract_director_countries_returns.
  exists infos. do 2 (split; [assumption|]). split.
  - unfold count_companies_by_uk_director_status. step Hv.
    destruct (for_each_returns (count_company uk_variants) infos) with (s := zero_counts)
      as [c ->]; [|cbn [bind]; now eexists].
    intros c info Hinfo.
    destruct (proj1 (List.Forall_forall _ _) Hread info Hinfo) as (officers & Hd & Hwf).
    unfold count_company. step Hd.
    destruct (for_each_returns (count_officer uk_variants) officers) with (s := (false, c))
      as [[has_uk d] ->]; [|cbn [bind]; now eexists].
    intros st x Hx. apply count_officer_returns.
    now apply (proj1 (List.Forall_forall _ _) Hwf).
  - intros today. unfold analyze_compliance. step Hv. split.
    + intros [m Hrun]. apply for_each_each in Hrun.
      eapply List.Forall_impl; [|exact Hrun]. intros info (m1 & m2 & Hstep).
      unfold analyze_company in Hstep.
      bind_inv Hstep. bind_inv Hstep. bind_inv Hstep.
      unfold has_company_data. rewrite E0.
      destruct a0; try discriminate. now eexists.
    + intros Hdata. apply for_each_returns. intros m info Hinfo.
      apply analyze_company_returns, wf_company_parts. split.
      * now apply (proj1 (List.Forall_forall _ _) Hread).
      * now apply (proj1 (List.Forall_forall _ _) Hdata).
Qed.

(** X6: the default [{}] of [officer.get('address', {})] stands in for a
    missing key only.  A director whose [address] is present and is not a
    mapping (null, for one) makes the read of the address country raise
    [AttributeError], so that neither [extract_director_countries] nor the
    counting pass returns on a sample that holds such a director; the loop
    over the directors' addresses in [analyze_compliance], which reads
    [officer.get('address', {}) or {}], takes a falsy address for an empty
    one. *)
Theorem address_that_is_no_mapping sampled infos info fields a :
  values sampled = Ok infos ->
  In info infos -> In (JObj fields) (directors_list info) ->
  assoc "address" fields = Some a -> (forall f, a <> JObj f) ->
  address_country_of (JObj fields) = Raise AttributeError
  /\ ~ returns (extract_director_countries sampled)
  /\ ~ returns (count_companies_by_uk_director_status sampled uk_variants)
  /\ (truthy a = false -> forall g m, flag_officer g m (JObj fields) = Ok m).
Proof.
  intros Hv Hinfo Hofficer Ha Hno.
  assert (Hraise : address_country_of (JObj fields) = Raise AttributeError).
  { unfold address_country_of, get_default. rewrite Ha. cbn [default bind].
    unfold get, get_default. destruct a; try reflexivity. now elim (Hno fields0). }
  split; [exact Hraise|]. split; [|split].
  - intros (infos' & Hv' & Hread)%extract_director_countries_returns.
    rewrite Hv in Hv'. injection Hv' as <-.
    destruct (proj1 (List.Forall_forall _ _) Hread info Hinfo) as (officers & Hd & Hwf).
    unfold directors_list in Hofficer. rewrite Hd in Hofficer.
    destruct (proj1 (List.Forall_forall _ _) Hwf _ Hofficer) as (r & c & _ & _ & Hc & _).
    congruence.
  - intros [c Hrun]. unfold count_companies_by_uk_director_status in Hrun.
    rewrite Hv in Hrun. cbn [bind] in Hrun. bind_inv Hrun.
    apply for_each_each in E.
    destruct (proj1 (List.Forall_forall _ _) E info Hinfo) as (c1 & c2 & Hstep).
    unfold count_company in Hstep. bind_inv Hstep. bind_inv Hstep.
    unfold directors_list in Hofficer. rewrite E0 in Hofficer.
    apply for_each_each in E1.
    destruct (proj1 (List.Forall_forall _ _) E1 _ Hofficer) as ([b1 d1] & st2 & Hone).
    unfold count_officer in Hone. bind_inv Hone. bind_inv Hone. congruence.
  - intros Hfalsy g m. unfold flag_officer, get_default. rewrite Ha.
    simpl. now rewrite Hfalsy.
Qed.

End Listing.

(** ** Totals of the counting pass *)

Section CountingTotals.

Context `{Text}.

Variable uk_variants : gset string.

(** What the counting pass returns, counter by counter. *)
Lemma counting_totals sampled_companies c :
  count_companies_by_uk_director_status sampled_companies uk_variants = Ok c ->
  exists infos,
    values sampled_companies = Ok infos
    /\ (forall g, counts_at c g
                  = Z.of_nat (length (List.filter (in_group uk_variants g) infos)))
    /\ questionable_residence c
       = sum_over (fun info => Z.of_nat (length (List.filter (questionable uk_variants)
                                                   (directors_list info)))) infos
    /\ total_directors c
       = sum_over (fun info => Z.of_nat (length (directors_list info))) infos
    /\ total_companies c = with_uk c + without_uk c
    /\ total_companies c = Z.of_nat (length infos).
Proof.
  unfold count_companies_by_uk_director_status. intros Hrun.
  bind_inv Hrun. bind_inv Hrun. injection Hrun as <-. simpl.
  exists a. split; [assumption|].
  split; [|split; [|split; [|split; [reflexivity|]]]].
  - intros g.
    apply (for_each_sum (fun d => counts_at d g) _ _ _
             (count_company_in_group uk_variants g)) in E0.
    rewrite sum_of_flags in E0. destruct g; simpl in *; lia.
  - apply (for_each_sum questionable_residence _ _ _
             (count_company_questionable uk_variants)) in E0.
    unfold sum_over. simpl in E0. lia.
  - apply (for_each_sum total_directors _ _ _ (count_company_total uk_variants)) in E0.
    unfold sum_over. simpl in E0. lia.
  - apply (for_each_sum (fun d => with_uk d + without_uk d) (fun _ => 1) _ _
             (count_company_adds_one uk_variants)) in E0.
    rewrite sum_of_ones in E0. simpl in E0. lia.
Qed.

(** The short-circuit loop stops at a director that is not questionable. *)
Lemma has_uk_director_found officers :
  has_uk_director uk_variants officers = Ok true ->
  exists officer, In officer officers /\ questionable uk_variants officer = false.
Proof.
  induction officers as [|officer rest IH]; cbn [has_uk_director]; [discriminate|].
  intros Hrun. bind_inv Hrun. bind_inv Hrun. bind_inv Hrun. bind_inv Hrun.
  destruct a2.
  - exists officer. split; [now left|]. unfold questionable. rewrite E, E0.
    destruct a1; [|discriminate]. rewrite (names_uk_true _ _ E2).
    apply andb_false_r.
  - destruct (IH Hrun) as (o & Ho & Hq). exists o. split; [now right | assumption].
Qed.

(** A company with a UK director has a director that is not counted as
    questionable. *)
Lemma questionable_below_directors info :
  in_group uk_variants WithUk info = true ->
  Z.of_nat (length (List.filter (questionable uk_variants) (directors_list info))) + 1
  <= Z.of_nat (length (directors_list info)).
Proof.
  unfold in_group, company_has_uk, directors_list.
  destruct (directors_of info) as [officers|e]; cbn [bind]; [|discriminate].
  destruct (has_uk_director uk_variants officers) as [[]|e] eqn:Hfound;
    try discriminate.
  intros _. destruct (has_uk_director_found officers Hfound) as (o & Ho & Hq).
  destruct (filter_length_all (questionable uk_variants) officers) as [Hle Heq].
  assert (Hne : length (List.filter (questionable uk_variants) officers)
                <> length officers).
  { intros Hall. rewrite (proj1 Heq Hall o Ho) in Hq. discriminate. }
  lia.
Qed.

Lemma counters_bounds sampled_companies c :
  count_companies_by_uk_director_status sampled_companies uk_variants = Ok c ->
  0 <= with_uk c /\ 0 <= without_uk c /\ 0 <= questionable_residence c
  /\ with_uk c + questionable_residence c <= total_directors c
  /\ total_companies c = with_uk c + without_uk c.
Proof.
  intros Hrun.
  destruct (counting_totals _ _ Hrun) as (infos & _ & Hgroups & Hq & Ht & Htotal & _).
  pose proof (Hgroups WithUk) as Hw. pose proof (Hgroups WithoutUk) as Hwo.
  cbn [counts_at] in Hw, Hwo.
  set (q := fun info => Z.of_nat (length (List.filter (questionable uk_variants)
                                            (directors_list info)))) in *.
  set (d := fun info => Z.of_nat (length (directors_list info))) in *.
  assert (Hsum : forall l,
            Z.of_nat (length (List.filter (in_group uk_variants WithUk) l))
            + sum_over q l <= sum_over d l).
  { unfold sum_over. induction l as [|info l IH]; [simpl; lia|].
    cbn [map fold_right List.filter]. unfold q at 1, d at 1.
    destruct (filter_length_all (questionable uk_variants) (directors_list info))
      as [Hle _].
    destruct (in_group uk_variants WithUk info) eqn:Hg; cbn [length].
    - pose proof (questionable_below_directors info Hg). lia.
    - lia. }
  specialize (Hsum infos).
  assert (Hq0 : 0 <= sum_over q infos)
    by (apply sum_over_not_negative; intros x; unfold q; lia).
  lia.
Qed.

(** X7: in the counts that the counting pass returns no counter is
    negative, and the companies with a UK director and the questionable
    directors together do not exceed the directors counted: a company is
    counted under [with_uk] for a director that is not questionable. *)
Theorem counters_stay_within_the_directors sampled_companies c :
  count_companies_by_uk_director_status sampled_companies uk_variants = Ok c ->
  0 <= with_uk c /\ 0 <= without_uk c /\ 0 <= questionable_residence c
  /\ with_uk c + questionable_residence c <= total_directors c
  /\ questionable_residence c <= total_directors c
  /\ without_uk c <= total_companies c.
Proof.
  intros Hrun. destruct (counters_bounds _ _ Hrun) as (Hw & Hwo & Hq & Hd & Ht).
  repeat split; lia.
Qed.

(** *** The rule of the classifiers *)

Lemma has_uk_director_existsb officers b :
  has_uk_director uk_variants officers = Ok b ->
  b = existsb (uk_director uk_variants) officers.
Proof.
  revert b. induction officers as [|officer rest IH]; intros b;
    cbn [has_uk_director existsb]; [congruence|].
  intros Hrun. bind_inv Hrun. bind_inv Hrun. bind_inv Hrun. bind_inv Hrun.
  unfold uk_director. rewrite E, E0. rewrite <- (names_uk_Ok _ _ _ E1).
  destruct a1.
  - rewrite <- (names_uk_Ok _ _ _ E2). destruct a2; cbn [andb orb].
    + congruence.
    + now apply IH.
  - injection E2 as <-. cbn [andb orb]. now apply IH.
Qed.

Lemma company_has_uk_existsb info b :
  company_has_uk uk_variants info = Ok b ->
  b = existsb (uk_director uk_variants) (directors_list info).
Proof.
  unfold company_has_uk, directors_list. intros Hrun. bind_inv Hrun. rewrite E.
  now apply has_uk_director_existsb.
Qed.

Lemma count_company_rule c info c' :
  count_company uk_variants c info = Ok c' ->
  with_uk c'
  = with_uk c
    + (if existsb (uk_director uk_variants) (directors_list info) then 1 else 0)
  /\ without_uk c'
     = without_uk c
       + (if negb (existsb (uk_director uk_variants) (directors_list info))
          then 1 else 0).
Proof.
  intros Hrun. apply count_company_group in Hrun as (has_uk & Hs & Hsame & Hother).
  rewrite <- (company_has_uk_existsb info has_uk Hs).
  destruct has_uk; cbn [counts_at other negb] in *; lia.
Qed.

(** X8: the rule of the classification.  A classifier that returns on a
    company returns whether one of its directors has both a residence
    country and an address country in the variant set; the counting pass
    counts under [with_uk] the companies of the sample with such a
    director and under [without_uk] the others. *)
Theorem company_is_with_uk_when_a_director_is :
  (forall info b,
     company_has_uk uk_variants info = Ok b ->
     b = existsb (uk_director uk_variants) (directors_list info))
  /\ (forall sampled_companies c,
        count_companies_by_uk_director_status sampled_companies uk_variants = Ok c ->
        exists infos,
          values sampled_companies = Ok infos
          /\ with_uk c
             = Z.of_nat (length (List.filter
                  (fun info => existsb (uk_director uk_variants) (directors_list info))
                  infos))
          /\ without_uk c
             = Z.of_nat (length (List.filter
                  (fun info => negb (existsb (uk_director uk_variants)
                                       (directors_list info)))
                  infos))).
Proof.
  split; [exact company_has_uk_existsb|].
  intros sampled_companies c. unfold count_companies_by_uk_director_status.
  intros Hrun. bind_inv Hrun. bind_inv Hrun. injection Hrun as <-. simpl.
  exists a. split; [assumption|]. split.
  - apply (for_each_sum with_uk
             (fun info => if existsb (uk_director uk_variants) (directors_list info)
                          then 1 else 0)) in E0.
    + rewrite sum_of_flags in E0. simpl in E0. lia.
    + intros s x s' Hstep. now apply count_company_rule.
  - apply (for_each_sum without_uk
             (fun info => if negb (existsb (uk_director uk_variants)
                                     (directors_list info))
                          then 1 else 0)) in E0.
    + rewrite sum_of_flags in E0. simpl in E0. lia.
    + intros s x s' Hstep. now apply count_company_rule.
Qed.

End CountingTotals.

(** ** Totals of the compliance pass *)

Section ComplianceTotals.

Context `{Text}.

Variable uk_variants : gset string.

(** What one company adds to the indicators of each group. *)
Lemma analyze_company_adds today m info m' :
  analyze_company uk_variants today m info = Ok m' ->
  forall g,
    late_confstmt (metrics_at m' g)
    = late_confstmt (metrics_at m g)
      + (if in_group uk_variants g info && due_late today "ConfStmtNextDueDate" info
         then 1 else 0)
    /\ late_accounts (metrics_at m' g)
       = late_accounts (metrics_at m g)
         + (if in_group uk_variants g info && due_late today "Accounts.NextDueDate" info
            then 1 else 0)
    /\ default_address (metrics_at m' g)
       = default_address (metrics_at m g)
         + (if in_group uk_variants g info then default_address_weight info else 0).
Proof.
  intros Hrun g.
  pose proof (analyze_company_group _ _ _ _ _ Hrun) as (has_uk' & Hs' & Hother).
  destruct (analyze_company_effect _ _ _ _ _ Hrun)
    as (has_uk & data & Hs & Hdata & Hc & Ha & Hd).
  rewrite Hs in Hs'. injection Hs' as <-. cbv zeta in *.
  unfold in_group, default_address_weight, registered_default, due_late,
    company_data_of.
  rewrite Hs, Hdata.
  destruct has_uk, g; cbn [other] in Hother; cbn [andb];
    rewrite ?Hother; try (repeat split; lia);
    rewrite Hc, Ha, Hd; repeat split.
Qed.

(** What the compliance pass returns, counter by counter. *)
Lemma compliance_totals sampled_companies today m :
  analyze_compliance sampled_companies uk_variants today = Ok m ->
  exists infos,
    values sampled_companies = Ok infos
    /\ forall g,
         let members := List.filter (in_group uk_variants g) infos in
         late_confstmt (metrics_at m g)
         = Z.of_nat (length (List.filter (due_late today "ConfStmtNextDueDate") members))
         /\ late_accounts (metrics_at m g)
            = Z.of_nat (length (List.filter (due_late today "Accounts.NextDueDate") members))
         /\ default_address (metrics_at m g) = sum_over default_address_weight members.
Proof.
  unfold analyze_compliance. intros Hrun. bind_inv Hrun.
  exists a. split; [assumption|]. intros g.
  split; [|split].
  - apply (for_each_sum (fun s => late_confstmt (metrics_at s g))
             (fun info => if in_group uk_variants g info
                             && due_late today "ConfStmtNextDueDate" info
                          then 1 else 0)) in Hrun.
    + rewrite sum_of_flags, filter_both in Hrun. destruct g; simpl in Hrun |- *; lia.
    + intros s x s' Hstep. now apply (analyze_company_adds today s x s' Hstep g).
  - apply (for_each_sum (fun s => late_accounts (metrics_at s g))
             (fun info => if in_group uk_variants g info
                             && due_late today "Accounts.NextDueDate" info
                          then 1 else 0)) in Hrun.
    + rewrite sum_of_flags, filter_both in Hrun. destruct g; simpl in Hrun |- *; lia.
    + intros s x s' Hstep. now apply (analyze_company_adds today s x s' Hstep g).
  - apply (for_each_sum (fun s => default_address (metrics_at s g))
             (fun info => if in_group uk_variants g info
                          then default_address_weight info else 0)) in Hrun.
    + fold (sum_over (fun info => if in_group uk_variants g info
                                  then default_address_weight info else 0) a) in Hrun.
      rewrite sum_over_filter in Hrun. destruct g; simpl in Hrun |- *; lia.
    + intros s x s' Hstep. now apply (analyze_company_adds today s x s' Hstep g).
Qed.

(** X9: the late-filing counters that [analyze_compliance] returns for a
    group are the numbers of companies of the group whose
    confirmation-statement, and whose accounts, due date parses as a date
    before [today]. *)
Theorem late_counters_count_late_companies sampled_companies today m :
  analyze_compliance sampled_companies uk_variants today = Ok m ->
  exists infos,
    values sampled_companies = Ok infos
    /\ forall g,
         let members := List.filter (in_group uk_variants g) infos in
         late_confstmt (metrics_at m g)
         = Z.of_nat (length (List.filter (due_late today "ConfStmtNextDueDate") members))
         /\ late_accounts (metrics_at m g)
            = Z.of_nat (length (List.filter (due_late today "Accounts.NextDueDate") members)).
Proof.
  intros Hrun. destruct (compliance_totals _ _ _ Hrun) as (infos & Hv & Hall).
  exists infos. split; [assumption|]. intros g.
  destruct (Hall g) as (Hc & Ha & _). now split.
Qed.

Lemma default_address_weight_not_negative info : 0 <= default_address_weight info.
Proof. unfold default_address_weight. destruct (registered_default info); lia. Qed.

Lemma default_address_not_negative sampled_companies today m g :
  analyze_compliance sampled_companies uk_variants today = Ok m ->
  0 <= default_address (metrics_at m g).
Proof.
  intros Hrun. destruct (compliance_totals _ _ _ Hrun) as (infos & _ & Hall).
  destruct (Hall g) as (_ & _ & ->).
  apply sum_over_not_negative, default_address_weight_not_negative.
Qed.

(** X10: the [default_address] that [analyze_compliance] returns for a
    group is the sum, over the companies of the group, of 1 for a company
    whose registered address mentions the default address and otherwise of
    the number of its directors with a default address.  It is never
    negative, and it stays within the number of companies of the group
    when no company of the group adds more than 1. *)
Theorem default_address_adds_the_weights sampled_companies today m :
  analyze_compliance sampled_companies uk_variants today = Ok m ->
  exists infos,
    values sampled_companies = Ok infos
    /\ forall g,
         let members := List.filter (in_group uk_variants g) infos in
         default_address (metrics_at m g) = sum_over default_address_weight members
         /\ 0 <= default_address (metrics_at m g)
         /\ (Forall (fun info => default_address_weight info <= 1) members ->
             default_address (metrics_at m g) <= Z.of_nat (length members)).
Proof.
  intros Hrun. destruct (compliance_totals _ _ _ Hrun) as (infos & Hv & Hall).
  exists infos. split; [assumption|]. intros g.
  destruct (Hall g) as (_ & _ & Hd). rewrite Hd.
  set (members := List.filter (in_group uk_variants g) infos).
  split; [reflexivity|]. split.
  - apply sum_over_not_negative, default_address_weight_not_negative.
  - intros Hone.
    destruct (sum_over_bounds default_address_weight 0 1 members) as [_ Hhi]; [|lia].
    intros x Hx. split; [apply default_address_weight_not_negative|].
    now apply (proj1 (List.Forall_forall _ _) Hone).
Qed.

Lemma late_bounds sampled_companies today c m g :
  count_companies_by_uk_director_status sampled_companies uk_variants = Ok c ->
  analyze_compliance sampled_companies uk_variants today = Ok m ->
  0 <= late_confstmt (metrics_at m g) <= counts_at c g
  /\ 0 <= late_accounts (metrics_at m g) <= counts_at c g.
Proof.
  intros Hcount Hrun.
  destruct (counting_totals _ _ _ Hcount) as (infos & Hv & Hgroups & _).
  destruct (compliance_totals _ _ _ Hrun) as (infos' & Hv' & Hall).
  rewrite Hv in Hv'. injection Hv' as <-.
  destruct (Hall g) as (Hc & Ha & _). rewrite Hc, Ha, (Hgroups g).
  set (members := List.filter (in_group uk_variants g) infos).
  destruct (filter_length_all (due_late today "ConfStmtNextDueDate") members) as [H1 _].
  destruct (filter_length_all (due_late today "Accounts.NextDueDate") members) as [H2 _].
  lia.
Qed.

(** X11: on one sample, the late-filing counters of a group that
    [analyze_compliance] returns lie between 0 and the number of companies
    that the counting pass returns for the group, so that over both groups
    they do not exceed [total_companies]. *)
Theorem late_counters_within_group_size sampled_companies today c m :
  count_companies_by_uk_director_status sampled_companies uk_variants = Ok c ->
  analyze_compliance sampled_companies uk_variants today = Ok m ->
  (forall g,
     0 <= late_confstmt (metrics_at m g) <= counts_at c g
     /\ 0 <= late_accounts (metrics_at m g) <= counts_at c g)
  /\ late_confstmt (of_with_uk m) + late_confstmt (of_without_uk m)
     <= total_companies c
  /\ late_accounts (of_with_uk m) + late_accounts (of_without_uk m)
     <= total_companies c.
Proof.
  intros Hcount Hrun.
  pose proof (late_bounds sampled_companies today c m WithUk Hcount Hrun) as Huk.
  pose proof (late_bounds sampled_companies today c m WithoutUk Hcount Hrun) as Hno.
  destruct (counting_totals _ _ _ Hcount) as (_ & _ & _ & _ & _ & Htotal & _).
  split; [intros []; assumption|]. cbn [metrics_at counts_at] in Huk, Hno. lia.
Qed.

(** A date that is late stays late. *)
Lemma due_late_later today today' key info :
  ~ date_lt today' today ->
  due_late today key info = true -> due_late today' key info = true.
Proof.
  unfold due_late. intros Hle. rewrite !is_late_iff.
  intros (d & Hd & Hlt). exists d. split; [assumption|].
  unfold date_lt in *. lia.
Qed.

(** Whether the pass returns on a company does not depend on the date. *)
Lemma analyze_company_any_date today m info m' today' m2 :
  analyze_company uk_variants today m info = Ok m' ->
  returns (analyze_company uk_variants today' m2 info).
Proof.
  unfold analyze_company. intros Hrun.
  bind_inv Hrun. bind_inv Hrun. bind_inv Hrun. bind_inv Hrun. bind_inv Hrun.
  step E. step E0. step E1. step E2. step E3.
  destruct (mentions_default _); [now eexists|].
  bind_inv Hrun. step E4. apply for_each_each in Hrun.
  apply for_each_returns. intros s x Hx.
  destruct (proj1 (List.Forall_forall _ _) Hrun x Hx) as (s1 & s2 & Hstep).
  unfold flag_officer in Hstep |- *. bind_inv Hstep. bind_inv Hstep.
  step E5. step E6. now eexists.
Qed.

(** X12: a run of [analyze_compliance] at a date that is not earlier
    returns too, with late-filing counters that are not smaller and with
    the same [default_address] counters. *)
Theorem later_run_counts_no_fewer_late_filings sampled_companies today today' m :
  ~ date_lt today' today ->
  analyze_compliance sampled_companies uk_variants today = Ok m ->
  exists m',
    analyze_compliance sampled_companies uk_variants today' = Ok m'
    /\ forall g,
         late_confstmt (metrics_at m g) <= late_confstmt (metrics_at m' g)
         /\ late_accounts (metrics_at m g) <= late_accounts (metrics_at m' g)
         /\ default_address (metrics_at m' g) = default_address (metrics_at m g).
Proof.
  intros Hle Hrun.
  assert (Hlater : returns (analyze_compliance sampled_companies uk_variants today')).
  { unfold analyze_compliance in Hrun |- *. bind_inv Hrun. step E.
    apply for_each_each in Hrun. apply for_each_returns. intros s x Hx.
    destruct (proj1 (List.Forall_forall _ _) Hrun x Hx) as (s1 & s2 & Hstep).
    now apply (analyze_company_any_date today s1 x s2). }
  destruct Hlater as [m' Hrun']. exists m'. split; [assumption|]. intros g.
  destruct (compliance_totals _ _ _ Hrun) as (infos & Hv & Hall).
  destruct (compliance_totals _ _ _ Hrun') as (infos' & Hv' & Hall').
  rewrite Hv in Hv'. injection Hv' as <-.
  destruct (Hall g) as (Hc & Ha & Hd). destruct (Hall' g) as (Hc' & Ha' & Hd').
  rewrite Hc, Ha, Hd, Hc', Ha', Hd'.
  set (members := List.filter (in_group uk_variants g) infos).
  pose proof (filter_length_mono (due_late today "ConfStmtNextDueDate")
                (due_late today' "ConfStmtNextDueDate") members
                (fun x _ => due_late_later today today' _ x Hle)).
  pose proof (filter_length_mono (due_late today "Accounts.NextDueDate")
                (due_late today' "Accounts.NextDueDate") members
                (fun x _ => due_late_later today today' _ x Hle)).
  repeat split; lia.
Qed.

End ComplianceTotals.

(** ** A variants file of blank lines *)

Section BlankVariants.

Context `{Text}.

(** With no variant every test of a country fails. *)
Lemma names_uk_empty v b : names_uk ∅ v = Ok b -> b = false.
Proof.
  intros ->%names_uk_Ok. unfold is_uk_country. destruct v; try reflexivity.
  rewrite bool_decide_eq_false_2 by apply not_elem_of_empty. apply andb_false_r.
Qed.

Lemma has_uk_director_empty officers b :
  has_uk_director ∅ officers = Ok b -> b = false.
Proof.
  induction officers as [|officer rest IH]; cbn [has_uk_director]; [congruence|].
  intros Hrun. bind_inv Hrun. bind_inv Hrun. bind_inv Hrun. bind_inv Hrun.
  apply names_uk_empty in E1. subst a1. injection E2 as <-. auto.
Qed.

Lemma in_group_empty info : in_group ∅ WithUk info = false.
Proof.
  unfold in_group, company_has_uk.
  destruct (directors_of info) as [officers|e]; cbn [bind]; [|reflexivity].
  destruct (has_uk_director ∅ officers) as [b|e] eqn:Hb; [|reflexivity].
  now rewrite (has_uk_director_empty _ _ Hb).
Qed.

Lemma questionable_empty officer : questionable ∅ officer = false.
Proof.
  unfold questionable.
  destruct (residence_country_of officer) as [r|]; [|reflexivity].
  destruct (address_country_of officer) as [a|]; [|reflexivity].
  unfold is_uk_country. destruct r; try reflexivity.
  rewrite bool_decide_eq_false_2 by apply not_elem_of_empty.
  now rewrite andb_false_r.
Qed.

(** X13: a variants file that holds blank lines only gives the empty
    variant set, and with it no company has a UK director: the counting
    pass counts every company under [without_uk] and no questionable
    director, and [analyze_compliance] leaves the indicators of [with_uk]
    at zero. *)
Theorem blank_variants_file_finds_no_uk_director lines sampled_companies :
  (forall line, In line lines -> strip line = "") ->
  load_UK_variants lines = ∅
  /\ (forall c,
        count_companies_by_uk_director_status sampled_companies (load_UK_variants lines)
        = Ok c ->
        with_uk c = 0 /\ questionable_residence c = 0
        /\ without_uk c = total_companies c)
  /\ (forall today m,
        analyze_compliance sampled_companies (load_UK_variants lines) today = Ok m ->
        of_with_uk m = Indicators 0 0 0).
Proof.
  intros Hblank. pose proof (load_UK_variants_blank lines Hblank) as Hempty.
  split; [exact Hempty|]. rewrite Hempty. split.
  - intros c Hrun.
    destruct (counting_totals _ _ _ Hrun) as (infos & _ & Hgroups & Hq & _ & Htotal & _).
    pose proof (Hgroups WithUk) as Hw. cbn [counts_at] in Hw.
    rewrite (filter_none _ infos in_group_empty) in Hw.
    assert (Hzero : forall l,
              sum_over (fun info => Z.of_nat (length (List.filter (questionable ∅)
                                                        (directors_list info)))) l = 0).
    { unfold sum_over. induction l as [|x l IH]; [reflexivity|].
      cbn [map fold_right]. rewrite IH.
      now rewrite (filter_none _ (directors_list x) questionable_empty). }
    rewrite Hzero in Hq. simpl in Hw. lia.
  - intros today m Hrun.
    destruct (compliance_totals _ _ _ _ Hrun) as (infos & _ & Hall).
    destruct (Hall WithUk) as (Hc & Ha & Hd).
    rewrite (filter_none _ infos in_group_empty) in Hc, Ha, Hd.
    cbn [metrics_at] in Hc, Ha, Hd. destruct (of_with_uk m) as [lc la da].
    simpl in Hc, Ha, Hd. now subst.
Qed.

End BlankVariants.

(** ** The exceptions of the passes *)

Section Lookup.

Context `{Text}.

Variable uk_variants : gset string.

Lemma residence_country_of_lookup officer :
  raises_only_lookup_errors (residence_country_of officer).
Proof.
  unfold residence_country_of. apply bind_lookup; [apply get_default_lookup|].
  intros first _. destruct (truthy first); [apply Ok_lookup | apply get_default_lookup].
Qed.

Lemma address_country_of_lookup officer :
  raises_only_lookup_errors (address_country_of officer).
Proof.
  unfold address_country_of. apply bind_lookup; [apply get_default_lookup|].
  intros address _. apply get_default_lookup.
Qed.

Lemma names_uk_lookup c : raises_only_lookup_errors (names_uk uk_variants c).
Proof.
  unfold names_uk. destruct (truthy c); [|apply Ok_lookup].
  destruct c; intros e [= <-]; now left.
Qed.

Lemma add_country_lookup countries c :
  raises_only_lookup_errors (add_country countries c).
Proof.
  unfold add_country. destruct (truthy c); [|apply Ok_lookup].
  destruct c; intros e [= <-]; now left.
Qed.

Lemma directors_of_lookup info : raises_only_lookup_errors (directors_of info).
Proof.
  unfold directors_of. apply bind_lookup; [apply get_default_lookup|].
  intros directors _. apply py_iter_lookup.
Qed.

Lemma extract_director_countries_lookup sampled_companies :
  raises_only_lookup_errors (extract_director_countries sampled_companies).
Proof.
  unfold extract_director_countries. apply bind_lookup; [apply values_lookup|].
  intros infos _. apply for_each_lookup. intros countries info.
  unfold extract_company. apply bind_lookup; [apply directors_of_lookup|].
  intros officers _. apply for_each_lookup. intros cs officer.
  unfold extract_officer.
  apply bind_lookup; [apply residence_country_of_lookup|]. intros country _.
  apply bind_lookup; [apply address_country_of_lookup|]. intros address_country _.
  apply bind_lookup; [apply add_country_lookup|]. intros cs' _.
  apply add_country_lookup.
Qed.

Lemma count_pass_lookup sampled_companies :
  raises_only_lookup_errors
    (count_companies_by_uk_director_status sampled_companies uk_variants).
Proof.
  unfold count_companies_by_uk_director_status.
  apply bind_lookup; [apply values_lookup|]. intros infos _.
  apply bind_lookup; [|intros c _; apply Ok_lookup].
  apply for_each_lookup. intros c info. unfold count_company.
  apply bind_lookup; [apply directors_of_lookup|]. intros officers _.
  apply bind_lookup; [|intros [has_uk d] _; apply Ok_lookup].
  apply for_each_lookup. intros [has_uk d] officer. unfold count_officer.
  apply bind_lookup; [apply residence_country_of_lookup|]. intros country _.
  apply bind_lookup; [apply address_country_of_lookup|]. intros address_country _.
  apply bind_lookup; [apply names_uk_lookup|]. intros resident _.
  destruct resident; [|apply Ok_lookup].
  apply bind_lookup; [apply names_uk_lookup|]. intros addressed _.
  destruct addressed; apply Ok_lookup.
Qed.

Lemma has_uk_director_lookup officers :
  raises_only_lookup_errors (has_uk_director uk_variants officers).
Proof.
  induction officers as [|officer rest IH]; cbn [has_uk_director]; [apply Ok_lookup|].
  apply bind_lookup; [apply residence_country_of_lookup|]. intros country _.
  apply bind_lookup; [apply address_country_of_lookup|]. intros address_country _.
  apply bind_lookup; [apply names_uk_lookup|]. intros resident _.
  apply bind_lookup.
  - destruct resident; [apply names_uk_lookup | apply Ok_lookup].
  - intros both _. destruct both; [apply Ok_lookup | apply IH].
Qed.

Lemma analyze_compliance_lookup sampled_companies today :
  raises_only_lookup_errors (analyze_compliance sampled_companies uk_variants today).
Proof.
  unfold analyze_compliance. apply bind_lookup; [apply values_lookup|].
  intros infos _. apply for_each_lookup. intros m info. unfold analyze_company.
  apply bind_lookup.
  { unfold company_has_uk. apply bind_lookup; [apply directors_of_lookup|].
    intros officers _. apply has_uk_director_lookup. }
  intros has_uk _.
  apply bind_lookup; [apply get_default_lookup|]. intros data _.
  apply bind_lookup; [apply get_default_lookup|]. intros conf _.
  apply bind_lookup; [apply get_default_lookup|]. intros acc _.
  apply bind_lookup; [apply get_default_lookup|]. intros line1 _.
  destruct (mentions_default _); [apply Ok_lookup|].
  apply bind_lookup; [apply directors_of_lookup|]. intros officers _.
  apply for_each_lookup. intros m' officer. unfold flag_officer.
  apply bind_lookup; [apply get_default_lookup|]. intros address _.
  apply bind_lookup; [apply values_lookup|]. intros vals _. apply Ok_lookup.
Qed.

(** X14: the three passes over the sample raise nothing but
    [AttributeError] and [TypeError], the exceptions of a lookup on a value
    of the wrong kind; whatever the parse of a due date raises stays inside
    [analyze_compliance]. *)
Theorem passes_raise_lookup_errors_only sampled_companies today :
  raises_only_lookup_errors (extract_director_countries sampled_companies)
  /\ raises_only_lookup_errors
       (count_companies_by_uk_director_status sampled_companies uk_variants)
  /\ raises_only_lookup_errors
       (analyze_compliance sampled_companies uk_variants today)
  /\ (forall due e, strptime_dmY due = Raise e -> is_late today due = false).
Proof.
  split; [apply extract_director_countries_lookup|].
  split; [apply count_pass_lookup|].
  split; [apply analyze_compliance_lookup|].
  intros due e Hdue. unfold is_late. now rewrite Hdue.
Qed.

End Lookup.

(** ** Rates between 0 and 1

    The quotient of a count by a base that it does not exceed is a float
    between 0 and 1, so that the margin of the rate takes the square root
    of a number that is not negative. *)

(** Rounding a mantissa of at least 53 digits that does not overflow: the
    exponent of the result, and its mantissa when the rounding carries. *)
Lemma binary_round_aux_exponent sx q e l :
  let dq := Zpos (digits2_pos q) in
  53 <= dq -> -1021 <= dq + e -> dq + e <= 1023 ->
  exists m' e',
    binary_round_aux prec emax sx (Zpos q) e l = S754_finite sx m' e'
    /\ bounded prec emax m' e' = true
    /\ e' <= dq + e - 52
    /\ (e' = dq + e - 52 -> Zpos m' = 2 ^ 52).
Proof.
  intros dq Hd He Hmax. unfold binary_round_aux.
  destruct (shr_fexp_m q e l Hd He) as (r1 & -> & Hr1). fold dq in Hr1 |- *.
  pose proof (digits2_pos_bounds q) as [Hlo Hhi]. fold dq in Hlo, Hhi.
  assert (Hm1 : 2 ^ 52 <= shr_m r1 < 2 ^ 53).
  { rewrite Hr1. split.
    - apply Z.div_le_lower_bound; [apply Z.pow_pos_nonneg; lia|].
      rewrite <- Z.pow_add_r by lia. replace (dq - 53 + 52) with (dq - 1) by lia. assumption.
    - apply Z.div_lt_upper_bound; [apply Z.pow_pos_nonneg; lia|].
      rewrite <- Z.pow_add_r by lia. replace (dq - 53 + 53) with dq by lia. assumption. }
  pose proof (round_nearest_even_bounds (shr_m r1) (loc_of_shr_record r1)) as Hm2.
  destruct (round_nearest_even (shr_m r1) (loc_of_shr_record r1)) as [|q2|q2] eqn:Hq2;
    try lia.
  assert (Hd2 : (Zpos q2 < 2 ^ 53 /\ Zpos (digits2_pos q2) = 53)
                \/ (Zpos q2 = 2 ^ 53 /\ Zpos (digits2_pos q2) = 54)).
  { destruct (Z.ltb_spec (Zpos q2) (2 ^ 53)).
    - left. split; [assumption|]. apply digits2_pos_unique. lia.
    - right. split; [lia|]. apply digits2_pos_unique. change (54 - 1) with 53.
      change (2 ^ 54) with (2 * 2 ^ 53). lia. }
  destruct (shr_fexp_m q2 (e + (dq - 53)) loc_Exact) as (r2 & -> & Hr2); try lia.
  assert (Hm3 : 2 ^ 52 <= shr_m r2 < 2 ^ 53
                /\ (Zpos (digits2_pos q2) = 54 -> shr_m r2 = 2 ^ 52)).
  { rewrite Hr2. destruct Hd2 as [[Hlt ->]|[-> ->]].
    - change (53 - 53) with 0. rewrite Z.pow_0_r, Z.div_1_r. split; [lia|discriminate].
    - now vm_compute. }
  destruct Hm3 as [Hm3 Hcarry].
  destruct (shr_m r2) as [|q3|q3] eqn:Hq3; try lia.
  set (e3 := e + (dq - 53) + (Z.pos (digits2_pos q2) - 53)) in *.
  assert (He3 : e3 <= emax - prec) by (unfold emax, prec, e3; lia).
  rewrite (proj2 (Z.leb_le _ _) He3).
  exists q3, e3. split; [reflexivity|]. split.
  - unfold bounded, canonical_mantissa.
    rewrite (digits2_pos_unique q3 53) by (change (53 - 1) with 52; lia).
    rewrite fexp_normal by lia.
    apply andb_true_intro. split; [apply Z.eqb_eq; lia | apply Z.leb_le; assumption].
  - split; [unfold e3; lia|]. intros He3'. apply Hcarry. unfold e3 in He3'. lia.
Qed.

(** The quotient that [SFdiv] hands to the rounding when the dividend is
    below the divisor: below 1 in the scale of its exponent. *)
Lemma SFdiv_core_int_below c m2 :
  Zpos c < Zpos m2 ->
  Zpos (digits2_pos m2) <= 1021 ->
  exists q ez lz,
    SFdiv_core_binary prec emax (Zpos c) 0 (Zpos m2) 0 = (Zpos q, ez, lz)
    /\ 53 <= Zpos (digits2_pos q)
    /\ -1021 <= Zpos (digits2_pos q) + ez
    /\ Zpos (digits2_pos q) + ez <= 0.
Proof.
  intros Hlt Hd2. unfold SFdiv_core_binary. cbn [Zdigits2].
  set (d1 := Zpos (digits2_pos c)). set (d2 := Zpos (digits2_pos m2)) in *.
  assert (Hd1 : 0 < d1) by (unfold d1; lia).
  assert (Hd2' : 0 < d2) by (unfold d2; lia).
  rewrite fexp_normal by lia. change IntDef.Z.min with Z.min.
  set (e' := Z.min (d1 + 0 - (d2 + 0) - 53) (0 - 0)).
  set (s := 0 - 0 - e').
  assert (Hs : 0 <= s /\ 53 + d2 - d1 <= s) by (unfold s, e'; lia).
  pose proof (digits2_pos_bounds c) as [Hclo Hchi].
  pose proof (digits2_pos_bounds m2) as [Hmlo Hmhi].
  fold d1 in Hclo, Hchi. fold d2 in Hmlo, Hmhi.
  assert (Hm' : match s with
                | Z.pos _ => Z.shiftl (Zpos c) s
                | 0 => Zpos c
                | Z.neg _ => 0
                end = Zpos c * 2 ^ s).
  { destruct s as [|p|p] eqn:Hsp; try lia.
    apply Z.shiftl_mul_pow2. lia. }
  rewrite Hm'. clear Hm'.
  assert (Hpow : 0 < 2 ^ s) by (apply Z.pow_pos_nonneg; lia).
  assert (Hlow : 2 ^ 52 * Zpos m2 <= Zpos c * 2 ^ s).
  { assert (H1 : 2 ^ 52 * Zpos m2 <= 2 ^ 52 * 2 ^ d2)
      by (apply Z.mul_le_mono_nonneg_l; [apply Z.pow_nonneg|]; lia).
    assert (H2 : 2 ^ (d1 - 1) * 2 ^ s <= Zpos c * 2 ^ s)
      by (apply Z.mul_le_mono_nonneg_r; lia).
    rewrite <- Z.pow_add_r in H1, H2 by lia.
    assert (H3 : 2 ^ (52 + d2) <= 2 ^ (d1 - 1 + s)) by (apply Z.pow_le_mono_r; lia).
    lia. }
  pose proof (Z.div_le_lower_bound (Zpos c * 2 ^ s) (Zpos m2) (2 ^ 52)) as Hq52.
  pose proof (Z.div_lt_upper_bound (Zpos c * 2 ^ s) (Zpos m2) (2 ^ s)) as Hqlt.
  unfold Z.div in Hq52, Hqlt.
  destruct (Z.div_eucl (Zpos c * 2 ^ s) (Zpos m2)) as [q r].
  assert (H52 : 2 ^ 52 <= q) by (apply Hq52; lia).
  assert (Hqhi : q < 2 ^ s).
  { apply Hqlt; [lia|]. apply Z.mul_lt_mono_pos_r; lia. }
  destruct q as [|q|q]; try (assert (0 < 2 ^ 52) by (apply Z.pow_pos_nonneg; lia); lia).
  exists q, e', (new_location (Zpos m2) r).
  split; [reflexivity|].
  pose proof (digits2_pos_lower q 52 H52) as Hdq.
  pose proof (digits2_pos_upper q s ltac:(lia) Hqhi) as Hdq'.
  unfold s, e' in *. lia.
Qed.

(** A float of the format that is at most 1. *)
Lemma finite_leb_one m e :
  e <= -52 -> (e = -52 -> Zpos m = 2 ^ 52) ->
  SFleb (S754_finite false m e) sf_one = true.
Proof.
  intros He Hm. unfold SFleb, SFcompare, sf_one.
  destruct (Z.compare_spec e (-52)) as [Heq|Hlt|Hgt]; [|reflexivity|lia].
  specialize (Hm Heq). change (2 ^ 52) with (Zpos 4503599627370496) in Hm.
  apply Pos2Z.inj in Hm. subst m. reflexivity.
Qed.

(** The quotient of a count by a larger base is a float between 0 and 1. *)
Lemma int_truediv_below_one k n :
  0 < k < n -> n < 2 ^ 1021 ->
  exists p, int_truediv k n = Ok p
            /\ not_negative (Prim2SF p) /\ (p <=? 1)%float = true.
Proof.
  intros [Hk Hkn] Hn.
  destruct k as [|c|c]; try lia. destruct n as [|m2|m2]; try lia.
  unfold int_truediv. change (Z.pos m2 =? 0) with false. cbv iota.
  cbn [Z2SF SFdiv xorb].
  destruct (SFdiv_core_int_below c m2 Hkn) as (q & ez & lz & -> & Hq53 & Hqlo & Hqhi).
  { apply digits2_pos_upper; [lia | assumption]. }
  destruct (binary_round_aux_exponent false q ez lz Hq53 Hqlo ltac:(lia))
    as (m' & e' & -> & Hb & He' & Hcarry).
  destruct (SF2Prim_finite false m' e' Hb) as [-> _].
  eexists. split; [reflexivity|].
  rewrite FloatAxioms.leb_spec, Prim2SF_one.
  rewrite (Prim2SF_SF2Prim (S754_finite false m' e') Hb).
  split; [reflexivity|]. apply finite_leb_one; [lia|]. intros ->. apply Hcarry. lia.
Qed.

(** The quotient of a positive int by itself is the float 1. *)
Lemma int_truediv_same n : 0 < n -> int_truediv n n = Ok 1%float.
Proof.
  intros Hn. destruct n as [|m|m]; try lia.
  unfold int_truediv. change (Z.pos m =? 0) with false. cbv iota.
  cbn [Z2SF SFdiv xorb].
  assert (Hcore : SFdiv_core_binary prec emax (Zpos m) 0 (Zpos m) 0
                  = (2 ^ 53, -53, loc_Exact)).
  { unfold SFdiv_core_binary.
    replace (Zdigits2 (Z.pos m) + 0 - (Zdigits2 (Z.pos m) + 0)) with 0 by lia.
    change (IntDef.Z.min (fexp prec emax 0) (0 - 0)) with (-53).
    change (0 - 0 - -53) with 53. cbv iota.
    rewrite Z.shiftl_mul_pow2 by lia.
    pose proof (Z.div_mod (Zpos m * 2 ^ 53) (Zpos m) ltac:(lia)) as Hdm.
    pose proof (Z.mod_pos_bound (Zpos m * 2 ^ 53) (Zpos m) ltac:(lia)) as Hr.
    unfold Z.div, Z.modulo in Hdm, Hr.
    destruct (Z.div_eucl (Zpos m * 2 ^ 53) (Zpos m)) as [q r].
    assert (Hq : q = 2 ^ 53 /\ r = 0).
    { set (t := 2 ^ 53) in *.
      assert (Hq : q = t).
      { destruct (Z.lt_trichotomy q t) as [Hlt|[Heq|Hgt]]; [|assumption|].
        - assert (Zpos m * 1 <= Zpos m * (t - q))
            by (apply Z.mul_le_mono_nonneg_l; lia). lia.
        - assert (Zpos m * 1 <= Zpos m * (q - t))
            by (apply Z.mul_le_mono_nonneg_l; lia). lia. }
      split; [assumption|]. subst q. lia. }
    destruct Hq as [-> ->]. unfold new_location.
    now destruct (Z.even (Zpos m)). }
  rewrite Hcore. reflexivity.
Qed.

(** The quotient of a count by a base that it does not exceed is a float
    between 0 and 1. *)
Lemma int_truediv_unit k n :
  0 <= k <= n -> 0 < n < 2 ^ 1021 ->
  exists p, int_truediv k n = Ok p
            /\ not_negative (Prim2SF p) /\ (p <=? 1)%float = true.
Proof.
  intros [Hk Hkn] [Hn Hbig].
  destruct (Z.eq_dec k 0) as [->|Hk0].
  { exists 0%float. split; [now apply int_truediv_zero|]. now split. }
  destruct (Z.eq_dec k n) as [->|Hne].
  { exists 1%float. split; [now apply int_truediv_same|]. now split. }
  apply int_truediv_below_one; lia.
Qed.

(** A float that is not below zero and at most 1 is at least 0. *)
Lemma unit_leb_zero p :
  not_negative (Prim2SF p) -> (p <=? 1)%float = true -> (0 <=? p)%float = true.
Proof.
  rewrite !FloatAxioms.leb_spec, Prim2SF_zero, Prim2SF_one.
  destruct (Prim2SF p) as [[]|[]| |[] m e]; simpl; try reflexivity; try discriminate;
    intros; discriminate.
Qed.

(** Zero divided by a positive float is the float zero. *)
Lemma zero_div_positive y m e :
  Prim2SF y = S754_finite false m e -> (0 / y)%float = 0%float.
Proof.
  intros Hy. apply Prim2SF_inj.
  now rewrite FloatAxioms.div_spec, Hy, Prim2SF_zero.
Qed.

(** At a proportion of 0 or of 1 the product [p * (1 - p)] is zero, and so
    is the margin up to the factor [z95]. *)
Lemma wald_at_edge z95 p n :
  0 < n < 2 ^ 1023 -> p = 0%float \/ p = 1%float ->
  wald z95 (NFloat p) n = Ok (z95 * 0)%float.
Proof.
  intros [Hpos Hbig] Hp. unfold wald.
  assert (Hquot : forall v, v = 0%float ->
            (let* w := truediv (NFloat v) (NInt n) in
             let* r := math_sqrt w in Ok (z95 * r)%float) = Ok (z95 * 0)%float).
  { intros v ->. unfold truediv. cbn [to_float bind].
    destruct (float_of_int_returns n) as [y Hy]; [lia|]. step Hy.
    unfold float_truediv. rewrite (float_of_int_nonzero n y Hy) by lia. cbn [bind].
    destruct (float_of_int_positive n y Hy Hpos) as (m & e & Hsf).
    rewrite (zero_div_positive y m e Hsf). reflexivity. }
  destruct Hp as [->| ->].
  - change (sub (NInt 1) (NFloat 0)) with (Ok (NFloat 1)). cbn [bind].
    change (mul (NFloat 0) (NFloat 1)) with (Ok (NFloat 0)). cbn [bind].
    now apply Hquot.
  - change (sub (NInt 1) (NFloat 1)) with (Ok (NFloat 0)). cbn [bind].
    change (mul (NFloat 1) (NFloat 0)) with (Ok (NFloat 0)). cbn [bind].
    now apply Hquot.
Qed.

Lemma pow_1021_1023 n : n < 2 ^ 1021 -> n < 2 ^ 1023.
Proof.
  intros Hn. assert (2 ^ 1021 <= 2 ^ 1023) by (apply Z.pow_le_mono_r; lia). lia.
Qed.

(** The proportion and the margin of a part of a base are computed; over a
    positive base the proportion is a float between 0 and 1. *)
Lemma rate_returns k n :
  0 <= k <= n -> n < 2 ^ 1021 ->
  exists p moe,
    proportion k n = Ok p /\ margin p n = Ok moe
    /\ (0 < n ->
        exists x e, p = NFloat x /\ moe = NFloat e
                    /\ (0 <=? x)%float = true /\ (x <=? 1)%float = true).
Proof.
  intros Hk Hn. unfold proportion, margin, nonzero.
  destruct (Z.eqb_spec n 0) as [->|Hn0]; cbn [negb].
  - exists (NInt 0), (NInt 0). repeat split; lia.
  - assert (Hpos : 0 < n) by lia.
    destruct (int_truediv_unit k n Hk (conj Hpos Hn)) as (p & Hp & Hsign & Hle).
    unfold truediv. step Hp.
    destruct (wald_returns Z95 p n (conj Hpos (pow_1021_1023 n Hn)) Hsign Hle)
      as [e He].
    exists (NFloat p), (NFloat e). split; [reflexivity|]. step He.
    split; [reflexivity|]. intros _. exists p, e.
    repeat split; [now apply unit_leb_zero | assumption].
Qed.

(** X15: for a count between 0 and a positive base (of less than 1021
    bits) the proportion is computed and is a float between 0 and 1, and
    its margin of error is computed: the square root is taken of a number
    that is not negative.  At the count 0 the proportion is 0, at the
    count [n] it is 1, and at both the margin is 0. *)
Theorem proportion_of_a_part_is_within_unit k n :
  0 <= k <= n -> 0 < n < 2 ^ 1021 ->
  exists x e,
    proportion k n = Ok (NFloat x) /\ margin (NFloat x) n = Ok (NFloat e)
    /\ (0 <=? x)%float = true /\ (x <=? 1)%float = true
    /\ (k = 0 -> x = 0%float /\ e = 0%float)
    /\ (k = n -> x = 1%float /\ e = 0%float).
Proof.
  intros Hk [Hpos Hn].
  destruct (rate_returns k n Hk Hn) as (p & moe & Hp & Hmoe & Hunit).
  destruct (Hunit Hpos) as (x & e & -> & -> & Hlo & Hhi).
  exists x, e. do 4 (split; [assumption|]).
  assert (Hedge : x = 0%float \/ x = 1%float -> e = 0%float).
  { intros Hx. unfold margin, nonzero in Hmoe.
    destruct (Z.eqb_spec n 0) as [->|_]; [lia|]. cbn [negb] in Hmoe.
    rewrite (wald_at_edge Z95 x n (conj Hpos (pow_1021_1023 n Hn)) Hx) in Hmoe.
    now injection Hmoe as <-. }
  unfold proportion, nonzero in Hp.
  destruct (Z.eqb_spec n 0) as [->|_]; [lia|]. cbn [negb truediv] in Hp.
  split.
  - intros ->. rewrite (int_truediv_zero n Hpos) in Hp. injection Hp as <-. auto.
  - intros ->. rewrite (int_truediv_same n Hpos) in Hp. injection Hp as <-. auto.
Qed.

Lemma indicator_line_returns count n :
  0 <= count <= n -> n < 2 ^ 1021 ->
  exists p moe, indicator_line count n = Ok (count, p, moe).
Proof.
  intros Hk Hn. destruct (rate_returns count n Hk Hn) as (p & moe & Hp & Hmoe & _).
  exists p, moe. unfold indicator_line. step Hp. now step Hmoe.
Qed.

Lemma display_group_returns c m g :
  counts_at c g < 2 ^ 1021 ->
  0 <= late_confstmt (metrics_at m g) <= counts_at c g ->
  0 <= late_accounts (metrics_at m g) <= counts_at c g ->
  0 <= default_address (metrics_at m g) <= counts_at c g ->
  exists l1 l2 l3,
    display_group c m g = Ok [l1; l2; l3]
    /\ map (fun l => fst (fst l)) [l1; l2; l3]
       = [late_confstmt (metrics_at m g); late_accounts (metrics_at m g);
          default_address (metrics_at m g)].
Proof.
  intros Hn Hc Ha Hd. unfold display_group.
  destruct (indicator_line_returns _ _ Hc Hn) as (p1 & e1 & ->).
  destruct (indicator_line_returns _ _ Ha Hn) as (p2 & e2 & ->).
  destruct (indicator_line_returns _ _ Hd Hn) as (p3 & e3 & ->).
  cbn [bind]. now eexists _, _, _.
Qed.

Section Report.

Context `{Text}.

Variable uk_variants : gset string.

(** X16: whenever the counting pass returns (on fewer than 2^1021
    companies and directors) [count_foreign_and_uk_directors] returns the
    same counts with its two rates: neither proportion exceeds 1, so no
    margin takes the square root of a negative number. *)
Theorem director_report_is_computed sampled c :
  count_companies_by_uk_director_status sampled uk_variants = Ok c ->
  total_companies c < 2 ^ 1021 -> total_directors c < 2 ^ 1021 ->
  exists rates,
    count_foreign_and_uk_directors sampled uk_variants = Ok (c, rates)
    /\ proportion (without_uk c) (total_companies c) = Ok (pct_foreign rates)
    /\ proportion (questionable_residence c) (total_directors c)
       = Ok (pct_questionable_residence rates).
Proof.
  intros Hrun Hcompanies Hdirectors.
  destruct (counters_bounds _ _ _ Hrun) as (Hw & Hwo & Hq & Hd & Ht).
  unfold count_foreign_and_uk_directors. step Hrun.
  destruct (rate_returns (without_uk c) (total_companies c)) as (pf & mf & Hpf & Hmf & _);
    [lia | assumption |].
  destruct (rate_returns (questionable_residence c) (total_directors c))
    as (pq & mq & Hpq & Hmq & _); [lia | assumption |].
  step Hpf. step Hmf. step Hpq. step Hmq.
  eexists. split; [reflexivity|]. now split.
Qed.

(** X17: on the counts and the metrics of one sample (of fewer than 2^1021
    companies) [display_compliance_indicators] returns its six lines as
    soon as no [default_address] counter exceeds the size of its group:
    the late-filing counters never do. *)
Theorem late_filing_lines_are_displayed sampled today c m :
  count_companies_by_uk_director_status sampled uk_variants = Ok c ->
  analyze_compliance sampled uk_variants today = Ok m ->
  total_companies c < 2 ^ 1021 ->
  (forall g, default_address (metrics_at m g) <= counts_at c g) ->
  exists lines,
    display_compliance_indicators c m = Ok lines
    /\ map (fun l => fst (fst l)) lines
       = [late_confstmt (of_with_uk m); late_accounts (of_with_uk m);
          default_address (of_with_uk m);
          late_confstmt (of_without_uk m); late_accounts (of_without_uk m);
          default_address (of_without_uk m)].
Proof.
  intros Hcount Hrun Hbig Hdefault.
  destruct (counters_bounds _ _ _ Hcount) as (Hw & Hwo & _ & _ & Ht).
  assert (Hgroup : forall g,
            exists l1 l2 l3,
              display_group c m g = Ok [l1; l2; l3]
              /\ map (fun l => fst (fst l)) [l1; l2; l3]
                 = [late_confstmt (metrics_at m g); late_accounts (metrics_at m g);
                    default_address (metrics_at m g)]).
  { intros g.
    destruct (late_bounds uk_variants _ _ _ _ g Hcount Hrun) as [Hc Ha].
    pose proof (default_address_not_negative uk_variants _ _ _ g Hrun) as Hd0.
    apply display_group_returns; try assumption; [|split; [assumption|apply Hdefault]].
    destruct g; cbn [counts_at]; lia. }
  destruct (Hgroup WithUk) as (a1 & a2 & a3 & Ha & Hfa).
  destruct (Hgroup WithoutUk) as (b1 & b2 & b3 & Hb & Hfb).
  unfold display_compliance_indicators. step Ha. step Hb.
  eexists. split; [reflexivity|].
  cbn [app map metrics_at] in *.
  injection Hfa as <- <- <-. injection Hfb as <- <- <-. reflexivity.
Qed.

End Report.

(** ** The ratio at the edges *)

(** The two branches that compute [moe_p] cover the floats from 0 to 1. *)
Lemma unit_guard p :
  ((0 <? p) && (p <? 1) || ((p =? 0) || (p =? 1)))%float
  = ((0 <=? p) && (p <=? 1))%float.
Proof.
  rewrite !FloatAxioms.ltb_spec, !FloatAxioms.eqb_spec, !FloatAxioms.leb_spec,
    Prim2SF_zero, Prim2SF_one.
  destruct (Prim2SF p) as [[]|[]| |[] m e]; try reflexivity.
  unfold SFltb, SFleb, SFeqb.
  change (SFcompare (S754_zero false) (S754_finite false m e)) with (Some Lt).
  change (SFcompare (S754_finite false m e) (S754_zero false)) with (Some Gt).
  now destruct (SFcompare (S754_finite false m e) sf_one) as [[]|].
Qed.

(** X18: in the ratio estimator the [if] and the [elif] that compute
    [moe_p] amount to one guard: over a positive base the margin is the
    Wald margin of the proportion [count / n] whenever that proportion is
    a float between 0 and 1, and it is left at 0 otherwise. *)
Theorem ratio_margin_is_guarded_by_the_unit_interval z95 n count p moe_p :
  0 < n ->
  stats_for_ratio z95 n count = Ok (p, moe_p) ->
  int_truediv count n = Ok p
  /\ ((0 <=? p)%float && (p <=? 1)%float = true ->
      wald z95 (NFloat p) n = Ok moe_p)
  /\ ((0 <=? p)%float && (p <=? 1)%float = false -> moe_p = 0%float).
Proof.
  intros Hpos Hrun. unfold stats_for_ratio in Hrun.
  rewrite (proj2 (Z.ltb_lt 0 n) Hpos) in Hrun.
  apply bind_Ok in Hrun as (p' & Hp & Hrun).
  apply bind_Ok in Hrun as (moe & Hmoe & Hrun). injection Hrun as -> ->.
  split; [assumption|]. rewrite <- unit_guard. cbn [andb] in Hmoe.
  destruct ((0 <? p)%float && (p <? 1)%float); cbn [orb].
  - split; [now intros _ | discriminate].
  - destruct ((p =? 0)%float || (p =? 1)%float).
    + split; [now intros _ | discriminate].
    + split; [discriminate | intros _; now injection Hmoe as <-].
Qed.

Lemma stats_for_ratio_at_edge n count :
  0 < n < 2 ^ 1021 -> count = 0 \/ count = n ->
  stats_for_ratio Z95 n count
  = Ok (if count =? 0 then 0%float else 1%float, 0%float).
Proof.
  intros [Hpos Hn] Hcount. unfold stats_for_ratio.
  rewrite (proj2 (Z.ltb_lt 0 n) Hpos).
  assert (Hbig : 0 < n < 2 ^ 1023) by (split; [assumption | now apply pow_1021_1023]).
  destruct Hcount as [->| ->].
  - rewrite (int_truediv_zero n Hpos). cbn [bind].
    change (true && (0 <? 0)%float && (0 <? 1)%float) with false.
    change (true && ((0 =? 0)%float || (0 =? 1)%float)) with true. cbv iota.
    rewrite (wald_at_edge Z95 0 n Hbig) by now left. reflexivity.
  - rewrite (int_truediv_same n Hpos). cbn [bind].
    change (true && (0 <? 1)%float && (1 <? 1)%float) with false.
    change (true && ((1 =? 0)%float || (1 =? 1)%float)) with true. cbv iota.
    rewrite (wald_at_edge Z95 1 n Hbig) by now right.
    destruct (Z.eqb_spec n 0); [lia | reflexivity].
Qed.

(** X19: when the [default_address] counter of the [with_uk] group equals
    the number of companies of that group, the statistics of the group are
    the proportion 1 with the margin 0; the ratio estimator then returns 1
    with the margin 0 if the counter of the [without_uk] group equals the
    number of its companies too, and 0 with the margin 0 if that counter
    is 0.  The power is not reached: both results hold with any C
    library. *)
Theorem ratio_when_uk_counter_equals_group_size `{Libm} c m :
  0 < with_uk c < 2 ^ 1021 -> 0 < without_uk c < 2 ^ 1021 ->
  default_address (of_with_uk m) = with_uk c ->
  (stats_for_ratio Z95 (with_uk c) (default_address (of_with_uk m))
   = Ok (1%float, 0%float))
  /\ (default_address (of_without_uk m) = without_uk c ->
      calculate_and_print_default_address_ratio c m Z95 = Ok (1%float, 0%float))
  /\ (default_address (of_without_uk m) = 0 ->
      calculate_and_print_default_address_ratio c m Z95 = Ok (0%float, 0%float)).
Proof.
  intros Huk Hforeign Hfull.
  assert (Hstats : stats_for_ratio Z95 (with_uk c) (default_address (of_with_uk m))
                   = Ok (1%float, 0%float)).
  { rewrite Hfull, (stats_for_ratio_at_edge _ _ Huk) by now right.
    destruct (Z.eqb_spec (with_uk c) 0); [lia | reflexivity]. }
  split; [exact Hstats|].
  unfold calculate_and_print_default_address_ratio. cbn [counts_at metrics_at].
  rewrite Hstats. cbn [bind]. split; intros ->.
  - rewrite (stats_for_ratio_at_edge _ _ Hforeign) by now right.
    destruct (Z.eqb_spec (without_uk c) 0); [lia | reflexivity].
  - rewrite (stats_for_ratio_at_edge _ _ Hforeign) by now left. reflexivity.
Qed.

(** ** A run *)

Section Run.

Context `{Text} `{Libm}.

Lemma py_len_values sampled infos :
  values sampled = Ok infos -> py_len sampled = Ok (Z.of_nat (length infos)).
Proof.
  destruct sampled; try discriminate. intros [= <-]. simpl. now rewrite length_map.
Qed.

(** X20: a run of [main] that prints its whole report has loaded as many
    companies as the counting pass counted, and has found a company with a
    UK director and, among these companies, a default address: otherwise
    the ratio divides by zero. *)
Theorem completed_run_has_a_flagged_uk_company lines data today r :
  main lines data today = Ok r ->
  exists sampled m,
    load_sampled_companies data = Ok sampled
    /\ count_companies_by_uk_director_status sampled (load_UK_variants lines)
       = Ok (company_counts r)
    /\ analyze_compliance sampled (load_UK_variants lines) today = Ok m
    /\ loaded r = total_companies (company_counts r)
    /\ 0 < with_uk (company_counts r)
    /\ 0 < default_address (of_with_uk m).
Proof.
  unfold main. intros Hrun.
  apply bind_Ok in Hrun as (sampled & Hload & Hrun).
  apply bind_Ok in Hrun as (n & Hlen & Hrun).
  apply bind_Ok in Hrun as ([announced listed] & Hlisted & Hrun).
  apply bind_Ok in Hrun as ([c rates] & Hcounted & Hrun).
  apply bind_Ok in Hrun as (m & Hm & Hrun).
  apply bind_Ok in Hrun as (printed & Hprinted & Hrun).
  apply bind_Ok in Hrun as (ratio & Hratio & Hrun).
  injection Hrun as <-. cbn [company_counts loaded].
  exists sampled, m.
  unfold count_foreign_and_uk_directors in Hcounted.
  apply bind_Ok in Hcounted as (c' & Hcount & Hcounted).
  apply bind_Ok in Hcounted as (pf & _ & Hcounted).
  apply bind_Ok in Hcounted as (mf & _ & Hcounted).
  apply bind_Ok in Hcounted as (pq & _ & Hcounted).
  apply bind_Ok in Hcounted as (mq & _ & Hcounted).
  injection Hcounted as -> _.
  do 3 (split; [assumption|]).
  destruct (counting_totals _ _ _ Hcount) as (infos & Hv & _ & _ & _ & _ & Htotal).
  pose proof (default_address_not_negative _ _ _ _ WithUk Hm) as Hd0.
  cbn [metrics_at] in Hd0.
  split.
  - rewrite (py_len_values _ _ Hv) in Hlen. injection Hlen as <-. now rewrite Htotal.
  - unfold calculate_and_print_default_address_ratio in Hratio.
    cbn [counts_at metrics_at] in Hratio.
    apply bind_Ok in Hratio as ([p_uk moe_p_uk] & Huk & Hratio).
    apply bind_Ok in Hratio as ([p_f moe_p_f] & Hf & Hratio).
    apply bind_Ok in Hratio as (quotient & Hquotient & _).
    unfold float_truediv in Hquotient.
    destruct (p_uk =? 0)%float eqn:Hz; [discriminate|].
    apply stats_for_ratio_proportion in Huk.
    destruct (Z.ltb_spec 0 (with_uk c)) as [Hpos|Hneg].
    + split; [assumption|].
      destruct (Z.eq_dec (default_address (of_with_uk m)) 0) as [Hk|Hk]; [|lia].
      rewrite Hk, (int_truediv_zero _ Hpos) in Huk. injection Huk as <-. discriminate.
    + injection Huk as <-. discriminate.
Qed.

(** X21: the runs of [main] on a document that holds no sample.  Without
    the key [sampled_companies] the sample is empty and the run ends in
    the ratio with [ZeroDivisionError]; under the key, a null, a boolean
    or a number has no length ([TypeError]), and a list or a str has no
    [values] ([AttributeError]); a document that is not a mapping has no
    [get] ([AttributeError]). *)
Theorem run_on_a_document_without_sample lines today :
  (forall fields,
     assoc "sampled_companies" fields = None ->
     main lines (JObj fields) today = Raise ZeroDivisionError)
  /\ (forall fields v,
        assoc "sampled_companies" fields = Some v ->
        v = JNull \/ (exists b, v = JBool b) \/ (exists n, v = JInt n)
        \/ (exists x, v = JFloat x) ->
        main lines (JObj fields) today = Raise TypeError)
  /\ (forall fields v,
        assoc "sampled_companies" fields = Some v ->
        (exists items, v = JArr items) \/ (exists s, v = JStr s) ->
        main lines (JObj fields) today = Raise AttributeError)
  /\ (forall data,
        (forall fields, data <> JObj fields) ->
        main lines data today = Raise AttributeError).
Proof.
  split; [|split; [|split]].
  - intros fields Hnone. unfold main, load_sampled_companies, get_default.
    rewrite Hnone. reflexivity.
  - intros fields v Hv Hkind. unfold main, load_sampled_companies, get_default.
    rewrite Hv. destruct Hkind as [->|[[b ->]|[[n ->]|[x ->]]]]; reflexivity.
  - intros fields v Hv Hkind. unfold main, load_sampled_companies, get_default.
    rewrite Hv. destruct Hkind as [[items ->]|[s ->]]; reflexivity.
  - intros data Hno. unfold main, load_sampled_companies, get_default.
    destruct data; try reflexivity. now elim (Hno fields).
Qed.

End Run.

(** * Worked examples *)

(** A C library whose [pow] is correctly rounded at the exponent 2: the
    result is the product of the base with itself, rounded once. *)
Module RoundedLibm.

#[global] Instance rounded_libm : Libm := {|
  pow2 x :=
    let y := (x * x)%float in (y, if is_infinity y then Some ERANGE else None);
|}.

End RoundedLibm.

Import AsciiText RoundedLibm Sample.

(** The three spellings of the specification name the UK alike. *)
Example united_kingdom_spellings :
  names_uk uk_sample (JStr "United Kingdom") = Ok true
  /\ names_uk uk_sample (JStr "UNITED KINGDOM") = Ok true
  /\ names_uk uk_sample (JStr " united kingdom ") = Ok true
  /\ names_uk uk_sample (JStr "France") = Ok false.
Proof. repeat split; vm_compute; reflexivity. Qed.

(** The due dates of the specification: a past date is late, a future date
    and a text that is not a date are not. *)
Example due_date_samples :
  is_late today "01/01/2000" = true
  /\ is_late today "01/01/2099" = false
  /\ is_late today "N/A" = false
  /\ strptime_dmY "N/A" = Raise ValueError
  /\ is_late today "01/06/2025" = false
  /\ is_late today "31/05/2025" = true.
Proof. repeat split. Qed.

(** The ratio of the specification: rates 0.5 and 0.25 with margins 0.05
    give the ratio 2 with margin 0.447, the powers being those of
    [rounded_libm]. *)
Example ratio_sample :
  rel_err_sq 0.5 0.05 = Ok 0.010000000000000002%float
  /\ rel_err_sq 0.25 0.05 = Ok 0.040000000000000008%float
  /\ moe_of_ratio 2 0.010000000000000002 0.040000000000000008
     = Ok 0.44721359549995798%float.
Proof. repeat split. Qed.

(** A registered address that mentions the default address is counted once,
    whatever the addresses of the directors. *)
Example registered_default_address_sample :
  analyze_company uk_sample today zero_metrics company_late
  = Ok (Metrics (Indicators 1 0 1) (Indicators 0 0 0)).
Proof. vm_compute. reflexivity. Qed.

(** Three runs of [main]: one that prints its report, one that stops in
    [display_compliance_indicators] with more default addresses than
    companies in a group, one that stops in the ratio with no UK company. *)
Example main_samples :
  (exists r,
     main uk_lines (document sampled) today = Ok r
     /\ loaded r = 2
     /\ announced_countries r = 4
     /\ foreign_countries r = ["France"]
     /\ company_counts r = Counts 1 1 2 3 2
     /\ default_address_ratio r = (0%float, 0%float))
  /\ main uk_lines (document sampled_defaults) today = Raise ValueError
  /\ main uk_lines (document sampled_foreign) today = Raise ZeroDivisionError.
Proof.
  split; [|split; vm_compute; reflexivity].
  eexists. split; [vm_compute; reflexivity|]. repeat split.
Qed.

(** C1: the code does not stop at the first director with a default
    address.  A company with a clean registered address and two directors
    whose address has the field "3 Default address Road" adds 2 to
    [default_address]: the [break] leaves the loop over the fields of one
    address, not the loop over the directors.  The group then holds more
    default addresses than companies, and the report of
    [display_compliance_indicators] takes the square root of a negative
    number. *)
Theorem default_address_counted_once_per_director :
  analyze_compliance sampled_defaults uk_sample today
  = Ok (Metrics (Indicators 0 0 0) (Indicators 0 0 2))
  /\ count_companies_by_uk_director_status sampled_defaults uk_sample
     = Ok (Counts 0 1 0 2 1)
  /\ display_compliance_indicators
       (Counts 0 1 0 2 1) (Metrics (Indicators 0 0 0) (Indicators 0 0 2))
     = Raise ValueError.
Proof. repeat split; vm_compute; reflexivity. Qed.

Lemma total_companies_witness :
  count_companies_by_uk_director_status sampled uk_sample = Ok (Counts 1 1 2 3 2)
  /\ total_companies (Counts 1 1 2 3 2) = 1 + 1
  /\ exists infos, values sampled = Ok infos /\ 1 + 1 = Z.of_nat (length infos).
Proof.
  split; [vm_compute; reflexivity|].
  apply (total_companies_is_sum_of_groups uk_sample sampled (Counts 1 1 2 3 2)).
  vm_compute. reflexivity.
Defined.

(** Closes [wf_officer] and [wf_company] on a literal record. *)
Ltac wf_literal :=
  repeat first
    [ reflexivity
    | match goal with
      | |- country_like _ => first [left; reflexivity | right; eexists; reflexivity]
      | |- wf_officer _ => eexists _, _
      | |- wf_company _ => eexists _, _
      | |- Forall _ _ => constructor
      | |- _ /\ _ => split
      end ].

Lemma same_group_witness :
  count_company uk_sample zero_counts company_late = Ok (Counts 1 0 1 2 0)
  /\ company_has_uk uk_sample company_late = Ok true
  /\ count_companies_by_uk_director_status sampled uk_sample = Ok (Counts 1 1 2 3 2)
  /\ exists infos,
       values sampled = Ok infos
       /\ 1 = Z.of_nat (length (List.filter (in_group uk_sample WithUk) infos))
       /\ 1 = Z.of_nat (length (List.filter (in_group uk_sample WithoutUk) infos)).
Proof.
  destruct (both_passes_assign_same_group uk_sample) as [Hone Hall].
  assert (Hrun : count_company uk_sample zero_counts company_late
                 = Ok (Counts 1 0 1 2 0)) by (vm_compute; reflexivity).
  assert (Hruns : count_companies_by_uk_director_status sampled uk_sample
                  = Ok (Counts 1 1 2 3 2)) by (vm_compute; reflexivity).
  split; [exact Hrun|]. split; [|split; [exact Hruns|]].
  - destruct (Hone company_late zero_counts _ Hrun) as (has_uk & Hshort & Hsame & _).
    destruct has_uk; [exact Hshort | discriminate Hsame].
  - destruct (Hall sampled _ Hruns) as (infos & Hv & _ & Hgroups).
    exists infos. split; [exact Hv|].
    split; [exact (Hgroups WithUk) | exact (Hgroups WithoutUk)].
Defined.

Lemma questionable_residence_witness :
  questionable uk_sample officer_fr = true
  /\ count_officer uk_sample (true, zero_counts) officer_fr
     = Ok (true, Counts 0 0 1 1 0)
  /\ (exists infos,
        values sampled = Ok infos
        /\ 2 = Z.of_nat (length (List.filter (questionable uk_sample)
                                   (flat_map directors_list infos)))
        /\ 3 = Z.of_nat (length (flat_map directors_list infos)))
  /\ count_company uk_sample zero_counts company_fr = Ok (Counts 0 1 1 1 0).
Proof.
  destruct (questionable_residence_per_director uk_sample) as (Hone & Hall & Hsingle).
  assert (Hq : questionable uk_sample officer_fr = true) by (vm_compute; reflexivity).
  split; [exact Hq|].
  split; [exact (Hone officer_fr true zero_counts Hq)|].
  split.
  - apply (Hall sampled (Counts 1 1 2 3 2)). vm_compute. reflexivity.
  - apply (Hsingle company_fr officer_fr zero_counts); [reflexivity | exact Hq].
Defined.

Lemma late_counters_witness :
  wf_company company_late
  /\ exists m',
       analyze_company uk_sample today zero_metrics company_late = Ok m'
       /\ late_confstmt (of_with_uk m') = 1
       /\ late_accounts (of_with_uk m') = 0.
Proof.
  assert (Hwf : wf_company company_late) by wf_literal.
  split; [exact Hwf|].
  destruct (late_counters_follow_due_dates uk_sample today zero_metrics company_late)
    as (Hreturns & _ & Heffect).
  destruct (Hreturns Hwf) as [m' Hrun]. exists m'. split; [exact Hrun|].
  destruct (Heffect m' Hrun)
    as (has_uk & data & Hs & Hdata & Hconf & Hacc & _ & _ & _ & _ & Hraise).
  injection Hs as <-. injection Hdata as <-. split.
  - apply (proj1 Hconf). exists (Date 2000 1 1). split; [reflexivity|].
    left. reflexivity.
  - apply (proj2 Hacc). apply (Hraise ValueError). reflexivity.
Defined.

Lemma uk_membership_witness :
  casefold (strip "UNITED KINGDOM") = casefold (strip " united kingdom ")
  /\ names_uk uk_sample (JStr "UNITED KINGDOM")
     = names_uk uk_sample (JStr " united kingdom ")
  /\ load_UK_variants ["uk"; "UK"] = load_UK_variants ["UK"].
Proof.
  split; [reflexivity|]. split.
  - apply (proj1 (uk_membership_modulo_case_and_space _)). reflexivity.
  - apply (proj2 (proj2 (uk_membership_modulo_case_and_space ["UK"])) "UK" "uk").
    + left. reflexivity.
    + reflexivity.
Defined.

Lemma zero_base_witness :
  proportion 3 0 = Ok (NInt 0) /\ margin (NFloat 0.3) 0 = Ok (NInt 0).
Proof.
  apply (proj1 (proportion_and_margin_guard_zero_base 3 0 (NFloat 0.3))).
  reflexivity.
Defined.

Lemma ratio_raises_witness :
  calculate_and_print_default_address_ratio
    (Counts 0 4 0 0 4) (Metrics (Indicators 0 0 0) (Indicators 0 0 2)) Z95
  = Raise ZeroDivisionError
  /\ calculate_and_print_default_address_ratio
       (Counts 4 4 0 0 8) (Metrics (Indicators 0 0 0) (Indicators 0 0 2)) Z95
     = Raise ZeroDivisionError.
Proof.
  split.
  - destruct (ratio_raises_on_zero_uk_proportion
                (Counts 0 4 0 0 4) (Metrics (Indicators 0 0 0) (Indicators 0 0 2)) Z95)
      as (_ & _ & Hrange & _).
    apply Hrange; [left; reflexivity | reflexivity | reflexivity |].
    split; [discriminate | reflexivity].
  - destruct (ratio_raises_on_zero_uk_proportion
                (Counts 4 4 0 0 8) (Metrics (Indicators 0 0 0) (Indicators 0 0 2)) Z95)
      as (_ & _ & Hrange & _).
    apply Hrange; [right; split; reflexivity | reflexivity | reflexivity |].
    split; [discriminate | reflexivity].
Defined.

Lemma ratio_margin_witness :
  calculate_and_print_default_address_ratio
    (Counts 4 4 0 0 8) (Metrics (Indicators 0 0 1) (Indicators 0 0 2)) Z95
  = Ok (2%float, 3.9199999999999999%float)
  /\ exists rel_err_sq_foreign rel_err_sq_uk,
       3.9199999999999999%float
       = (abs 2 * sqrt (rel_err_sq_foreign + rel_err_sq_uk))%float.
Proof.
  assert (Hrun : calculate_and_print_default_address_ratio
                   (Counts 4 4 0 0 8) (Metrics (Indicators 0 0 1) (Indicators 0 0 2)) Z95
                 = Ok (2%float, 3.9199999999999999%float))
    by (vm_compute; reflexivity).
  split; [exact Hrun|].
  destruct (ratio_margin_in_quadrature _ _ _ _ _ Hrun)
    as (p_uk & moe_p_uk & p_f & moe_p_f & rel_f & rel_uk
        & Huk & Hf & _ & _ & [Hrel_f _] & _ & Hmoe & _).
  vm_compute in Huk, Hf. injection Huk as <- <-. injection Hf as <- <-.
  exists rel_f, rel_uk. apply Hmoe; [reflexivity|].
  pose proof (Hrel_f eq_refl) as Hsq. vm_compute in Hsq.
  injection Hsq as <-. reflexivity.
Defined.

Lemma empty_country_of_residence_witness :
  assoc "country_of_residence" officer_blank = Some (JStr "")
  /\ residence_country_of (JObj officer_blank) = Ok (JStr "England")
  /\ count_officer uk_sample (false, zero_counts) (JObj officer_blank)
     = count_officer uk_sample (false, zero_counts)
         (JObj (remove_key "country_of_residence" officer_blank))
  /\ has_uk_director uk_sample [JObj officer_blank] = Ok true.
Proof.
  destruct (proj2 (proj2 (empty_country_of_residence_is_absent uk_sample))
              officer_blank (JStr "") eq_refl eq_refl) as (Hr & Hc & Hs & _).
  split; [reflexivity|]. split; [exact Hr|]. split; [apply Hc|].
  rewrite Hs. vm_compute. reflexivity.
Defined.

(** ** Witnesses of the further properties *)

(** Stripping twice is stripping once, in the ASCII instance. *)
Lemma rstrip_cons c rest :
  rstrip (String c rest)
  = match rstrip rest with
    | EmptyString => if is_space c then EmptyString else String c EmptyString
    | kept => String c kept
    end.
Proof. reflexivity. Qed.

Lemma rstrip_rstrip s : rstrip (rstrip s) = rstrip s.
Proof.
  induction s as [|c rest IH]; [reflexivity|]. rewrite rstrip_cons.
  destruct (rstrip rest) as [|k ks] eqn:Hrest.
  - destruct (is_space c) eqn:Hc; [reflexivity|].
    rewrite rstrip_cons. cbn [rstrip]. now rewrite Hc.
  - rewrite rstrip_cons. now rewrite IH.
Qed.

Lemma lstrip_head s :
  match lstrip s with
  | String c _ => is_space c = false
  | EmptyString => True
  end.
Proof.
  induction s as [|c rest IH]; [exact I|]. cbn [lstrip].
  now destruct (is_space c) eqn:Hc.
Qed.

Lemma lstrip_rstrip s :
  match s with
  | String c _ => is_space c = false
  | EmptyString => True
  end ->
  lstrip (rstrip s) = rstrip s.
Proof.
  destruct s as [|c rest]; [reflexivity|]. intros Hc. rewrite rstrip_cons.
  destruct (rstrip rest); rewrite ?Hc; cbn [lstrip]; now rewrite Hc.
Qed.

Lemma ascii_strip_idempotent s : ascii_strip (ascii_strip s) = ascii_strip s.
Proof.
  unfold ascii_strip. rewrite (lstrip_rstrip _ (lstrip_head s)).
  apply rstrip_rstrip.
Qed.

Lemma variant_lines_witness :
  load_UK_variants ["UK"; "England"; "UK"] = load_UK_variants ["England"; "UK"]
  /\ load_UK_variants (["UK"] ++ ["England"])
     = load_UK_variants ["UK"] ∪ load_UK_variants ["England"]
  /\ load_UK_variants (nl :: uk_lines) = load_UK_variants uk_lines.
Proof.
  destruct variant_set_depends_on_the_lines_only as (Hsame & Happ & Hblank & _).
  split; [|split].
  - apply Hsame. intros line. simpl. tauto.
  - apply Happ.
  - apply Hblank. reflexivity.
Defined.

Lemma extracted_countries_witness :
  exists countries infos,
    extract_director_countries sampled_foreign = Ok countries
    /\ values sampled_foreign = Ok infos
    /\ ("France" ∈ countries
        <-> exists info officer s,
              In info infos /\ In officer (directors_list info)
              /\ gives_country officer s /\ "France" = strip s).
Proof.
  destruct (extract_director_countries sampled_foreign) as [countries|e] eqn:Hrun;
    [|vm_compute in Hrun; discriminate].
  destruct (extracted_countries_are_those_given _ _ Hrun) as (infos & Hv & Helem).
  exists countries, infos. split; [reflexivity|]. split; [exact Hv|]. apply Helem.
Defined.

Lemma announced_number_witness :
  inspect_countries sampled uk_sample = Ok (4, ["France"])
  /\ exists countries,
       extract_director_countries sampled = Ok countries
       /\ 4 = Z.of_nat (size countries)
       /\ Z.of_nat (length ["France"]) <= 4.
Proof.
  assert (Hrun : inspect_countries sampled uk_sample = Ok (4, ["France"]))
    by (vm_compute; reflexivity).
  split; [exact Hrun|].
  destruct (announced_number_counts_every_country uk_sample _ _ _ Hrun)
    as (countries & Hc & Hn & _ & _ & _ & Hle & _).
  exists countries. split; [exact Hc|]. split; [exact Hn | exact Hle].
Defined.

Lemma listing_witness :
  gives_country officer_fr "France"
  /\ (In (strip "France") ["France"]
      <-> names_uk uk_sample (JStr "France") = Ok false).
Proof.
  assert (Hgives : gives_country officer_fr "France")
    by (split; [right; reflexivity | discriminate]).
  split; [exact Hgives|].
  apply (listing_shows_what_the_classifiers_reject uk_sample sampled 4 ["France"]
           [company_late; company_fr] company_fr officer_fr "France").
  - exact ascii_strip_idempotent.
  - vm_compute. reflexivity.
  - reflexivity.
  - right. left. reflexivity.
  - left. reflexivity.
  - exact Hgives.
Defined.

Lemma listed_sample_witness :
  returns (extract_director_countries sampled)
  /\ returns (count_companies_by_uk_director_status sampled uk_sample).
Proof.
  assert (Hr : returns (extract_director_countries sampled))
    by (eexists; vm_compute; reflexivity).
  split; [exact Hr|].
  destruct (sample_that_is_listed_is_counted uk_sample sampled Hr)
    as (infos & _ & _ & Hc & _).
  exact Hc.
Defined.

Lemma null_address_witness :
  ~ returns (count_companies_by_uk_director_status sampled_null_address uk_sample)
  /\ flag_officer WithoutUk zero_metrics (JObj officer_null_address) = Ok zero_metrics.
Proof.
  destruct (address_that_is_no_mapping uk_sample sampled_null_address
              [JObj [("directors", JArr [JObj officer_null_address])]]
              (JObj [("directors", JArr [JObj officer_null_address])])
              officer_null_address JNull)
    as (_ & _ & Hcount & Hflag).
  - reflexivity.
  - left. reflexivity.
  - left. reflexivity.
  - reflexivity.
  - discriminate.
  - split; [exact Hcount|]. apply Hflag. reflexivity.
Defined.

Lemma counters_witness :
  count_companies_by_uk_director_status sampled uk_sample = Ok sampled_counts
  /\ with_uk sampled_counts + questionable_residence sampled_counts
     <= total_directors sampled_counts.
Proof.
  assert (Hrun : count_companies_by_uk_director_status sampled uk_sample
                 = Ok sampled_counts) by (vm_compute; reflexivity).
  split; [exact Hrun|].
  destruct (counters_stay_within_the_directors uk_sample _ _ Hrun)
    as (_ & _ & _ & Hle & _).
  exact Hle.
Defined.

Lemma classification_rule_witness :
  company_has_uk uk_sample company_late = Ok true
  /\ true = existsb (uk_director uk_sample) (directors_list company_late).
Proof.
  assert (Hrun : company_has_uk uk_sample company_late = Ok true)
    by (vm_compute; reflexivity).
  split; [exact Hrun|].
  apply (proj1 (company_is_with_uk_when_a_director_is uk_sample) company_late true Hrun).
Defined.

Lemma late_companies_witness :
  analyze_compliance sampled uk_sample today = Ok sampled_metrics
  /\ exists infos,
       values sampled = Ok infos
       /\ late_confstmt (of_with_uk sampled_metrics)
          = Z.of_nat (length (List.filter (due_late today "ConfStmtNextDueDate")
                                (List.filter (in_group uk_sample WithUk) infos))).
Proof.
  assert (Hrun : analyze_compliance sampled uk_sample today = Ok sampled_metrics)
    by (vm_compute; reflexivity).
  split; [exact Hrun|].
  destruct (late_counters_count_late_companies uk_sample _ _ _ Hrun)
    as (infos & Hv & Hall).
  exists infos. split; [exact Hv|]. exact (proj1 (Hall WithUk)).
Defined.

Lemma default_address_weights_witness :
  exists infos,
    values sampled_defaults = Ok infos
    /\ 2 = sum_over default_address_weight
             (List.filter (in_group uk_sample WithoutUk) infos).
Proof.
  assert (Hrun : analyze_compliance sampled_defaults uk_sample today
                 = Ok (Metrics (Indicators 0 0 0) (Indicators 0 0 2)))
    by (vm_compute; reflexivity).
  destruct (default_address_adds_the_weights uk_sample _ _ _ Hrun)
    as (infos & Hv & Hall).
  exists infos. split; [exact Hv|]. exact (proj1 (Hall WithoutUk)).
Defined.

Lemma late_within_group_witness :
  count_companies_by_uk_director_status sampled uk_sample = Ok sampled_counts
  /\ analyze_compliance sampled uk_sample today = Ok sampled_metrics
  /\ 0 <= late_confstmt (of_with_uk sampled_metrics) <= with_uk sampled_counts
  /\ late_confstmt (of_with_uk sampled_metrics)
     + late_confstmt (of_without_uk sampled_metrics)
     <= total_companies sampled_counts.
Proof.
  assert (Hcount : count_companies_by_uk_director_status sampled uk_sample
                   = Ok sampled_counts) by (vm_compute; reflexivity).
  assert (Hrun : analyze_compliance sampled uk_sample today = Ok sampled_metrics)
    by (vm_compute; reflexivity).
  destruct (late_counters_within_group_size uk_sample sampled today
              sampled_counts sampled_metrics Hcount Hrun)
    as (Hgroups & Hconf & _).
  split; [exact Hcount|]. split; [exact Hrun|].
  split; [exact (proj1 (Hgroups WithUk)) | exact Hconf].
Defined.

Lemma later_run_witness :
  ~ date_lt (Date 2100 1 1) today
  /\ exists m',
       analyze_compliance sampled uk_sample (Date 2100 1 1) = Ok m'
       /\ late_confstmt (of_with_uk sampled_metrics) <= late_confstmt (of_with_uk m')
       /\ late_confstmt (of_without_uk sampled_metrics)
          <= late_confstmt (of_without_uk m').
Proof.
  assert (Hlater : ~ date_lt (Date 2100 1 1) today) by (unfold date_lt; simpl; lia).
  split; [exact Hlater|].
  destruct (later_run_counts_no_fewer_late_filings uk_sample sampled today
              (Date 2100 1 1) sampled_metrics Hlater)
    as (m' & Hrun & Hall).
  - vm_compute. reflexivity.
  - exists m'. split; [exact Hrun|].
    split; [exact (proj1 (Hall WithUk)) | exact (proj1 (Hall WithoutUk))].
Defined.

Lemma blank_variants_witness :
  load_UK_variants blank_lines = ∅
  /\ count_companies_by_uk_director_status sampled (load_UK_variants blank_lines)
     = Ok (Counts 0 2 0 3 2)
  /\ with_uk (Counts 0 2 0 3 2) = 0.
Proof.
  destruct (blank_variants_file_finds_no_uk_director blank_lines sampled)
    as (Hempty & Hcount & _).
  - intros line [<-|[<-|[]]]; reflexivity.
  - assert (Hrun : count_companies_by_uk_director_status sampled
                     (load_UK_variants blank_lines) = Ok (Counts 0 2 0 3 2))
      by (vm_compute; reflexivity).
    split; [exact Hempty|]. split; [exact Hrun|]. exact (proj1 (Hcount _ Hrun)).
Defined.

Lemma lookup_errors_witness :
  count_companies_by_uk_director_status sampled_null_address uk_sample
  = Raise AttributeError
  /\ lookup_error AttributeError.
Proof.
  assert (Hrun : count_companies_by_uk_director_status sampled_null_address uk_sample
                 = Raise AttributeError) by (vm_compute; reflexivity).
  split; [exact Hrun|].
  exact (proj1 (proj2 (passes_raise_lookup_errors_only uk_sample
                         sampled_null_address today)) _ Hrun).
Defined.

Lemma proportion_within_unit_witness :
  exists x e,
    proportion 1 4 = Ok (NFloat x) /\ margin (NFloat x) 4 = Ok (NFloat e)
    /\ (0 <=? x)%float = true /\ (x <=? 1)%float = true.
Proof.
  destruct (proportion_of_a_part_is_within_unit 1 4)
    as (x & e & Hp & Hm & Hlo & Hhi & _).
  - lia.
  - split; reflexivity.
  - now exists x, e.
Defined.

Lemma director_report_witness :
  exists rates,
    count_foreign_and_uk_directors sampled uk_sample = Ok (sampled_counts, rates).
Proof.
  destruct (director_report_is_computed uk_sample sampled sampled_counts)
    as (rates & Hrun & _).
  - vm_compute. reflexivity.
  - reflexivity.
  - reflexivity.
  - now exists rates.
Defined.

Lemma displayed_lines_witness :
  exists lines,
    display_compliance_indicators sampled_counts sampled_metrics = Ok lines
    /\ map (fun l => fst (fst l)) lines = [1; 0; 1; 0; 0; 0].
Proof.
  apply (late_filing_lines_are_displayed uk_sample sampled today).
  - vm_compute. reflexivity.
  - vm_compute. reflexivity.
  - reflexivity.
  - intros []; simpl; lia.
Defined.

Lemma ratio_margin_guard_witness :
  exists p moe_p,
    stats_for_ratio Z95 4 1 = Ok (p, moe_p) /\ int_truediv 1 4 = Ok p.
Proof.
  destruct (stats_for_ratio Z95 4 1) as [[p moe_p]|e] eqn:Hrun;
    [|vm_compute in Hrun; discriminate].
  exists p, moe_p. split; [reflexivity|].
  apply (ratio_margin_is_guarded_by_the_unit_interval Z95 4 1 p moe_p);
    [reflexivity | exact Hrun].
Defined.

Lemma uk_counter_equals_group_size_witness :
  calculate_and_print_default_address_ratio
    (Counts 2 3 0 0 5) (Metrics (Indicators 0 0 2) (Indicators 0 0 3)) Z95
  = Ok (1%float, 0%float).
Proof.
  destruct (ratio_when_uk_counter_equals_group_size
              (Counts 2 3 0 0 5) (Metrics (Indicators 0 0 2) (Indicators 0 0 3)))
    as (_ & Hfull & _).
  - split; reflexivity.
  - split; reflexivity.
  - reflexivity.
  - apply Hfull. reflexivity.
Defined.

Lemma completed_run_witness :
  exists r,
    main uk_lines (document sampled) today = Ok r
    /\ loaded r = total_companies (company_counts r)
    /\ 0 < with_uk (company_counts r).
Proof.
  destruct (main uk_lines (document sampled) today) as [r|e] eqn:Hrun;
    [|vm_compute in Hrun; discriminate].
  exists r. split; [reflexivity|].
  destruct (completed_run_has_a_flagged_uk_company _ _ _ _ Hrun)
    as (sampled' & m & _ & _ & _ & Hloaded & Hw & _).
  split; [exact Hloaded | exact Hw].
Defined.

Lemma empty_document_witness :
  main uk_lines (JObj []) today = Raise ZeroDivisionError
  /\ main uk_lines (document JNull) today = Raise TypeError.
Proof.
  destruct (run_on_a_document_without_sample uk_lines today)
    as (Hmissing & Hnull & _).
  split.
  - apply Hmissing. reflexivity.
  - apply (Hnull _ JNull); [reflexivity | now left].
Defined.
